(** * Resilient integration client: circuit breaker, retry, error classification

    A shallow embedding of [src/lib/error-handling/integration-patterns.ts]
    and the properties its specification states about it.

    Conventions of the embedding.
    - JavaScript numbers that the code uses as counters, timestamps and HTTP
      status codes are integers ([Z]); the retry delays, which the code
      multiplies by fractions, are doubles ([Number.t]).
    - Strings are [string]; [toLowerCase] acts on the ASCII letters.
    - [Record<string, string>] and [Map<string, _>] are [gmap string _].
    - Asynchronous code is followed along one sequential call chain: a
      computation takes the world it starts in and gives an outcome (a value
      or a thrown value) and the world it ends in.  The world holds the clock
      read by [Date.now()], the number of transport invocations made so far,
      the number of [Math.random()] draws, the events emitted and the sleeps
      taken (in order), and the client's error log.
    - The transport capability [executeRequest] is abstract in the source; it
      is an oracle here: the n-th invocation gives a payload or rejects with
      an [Error] object, and takes some time.
    - Events are recorded once, where they are first emitted; the
      re-emission of breaker events by the client and of the client's events
      by the manager, and [console.log], are left out.
    - The two concrete clients differ from the base class in their transport
      only, which is the oracle; the manager keeps them as client objects. *)

From Stdlib Require Import ZArith QArith Qminmax Qround Qpower.
From Stdlib Require Import Bool List Ascii String Lia Lqa.
From Stdlib Require Import DecimalString.
From stdpp Require Import base option gmap strings sorting.
Import ListNotations.

Local Open Scope Z_scope.

(** ** JavaScript string primitives *)

Module Js.

Definition lower_ascii (c : ascii) : ascii :=
  let n := nat_of_ascii c in
  if (Nat.leb 65 n && Nat.leb n 90)%bool then ascii_of_nat (n + 32) else c.

(** [s.toLowerCase()] *)
Fixpoint toLowerCase (s : string) : string :=
  match s with
  | EmptyString => EmptyString
  | String c t => String (lower_ascii c) (toLowerCase t)
  end.

(** [hay.includes(needle)] *)
Fixpoint includes (hay needle : string) : bool :=
  String.prefix needle hay
  || match hay with
     | EmptyString => false
     | String _ t => includes t needle
     end.

(** [n.toString()] for an integer [n] *)
Definition toString (n : Z) : string := NilZero.string_of_int (Z.to_int n).

(** truthiness of a string and of a number *)
Definition truthy_string (s : string) : bool :=
  match s with EmptyString => false | _ => true end.

Definition truthy_number (n : Z) : bool := negb (n =? 0).

End Js.

(** ** JavaScript numbers

    The numbers of the delay computation are IEEE 754 doubles.  A finite
    double is the rational it stands for; the result of an arithmetic
    operation is the exact result rounded to the nearest double, ties to the
    even significand, with gradual underflow and with overflow to the
    infinities.  A decimal literal stands for the double nearest to it:
    [round (1 # 10)] for 0.1.  The sign of a zero is left out: the delay
    computation ends in [Math.max(delay, 0)], which gives +0 for either
    zero, and no other operation of it tells the two zeros apart. *)

Module Number.

Inductive t :=
  | Finite (q : Q)
  | Infinity
  | NegInfinity
  | NaN.

(** The [e] with [2^e <= n/d < 2^(e+1)]. *)
Definition floor_log2 (n d : positive) : Z :=
  let e := Z.log2 (Zpos n) - Z.log2 (Zpos d) in
  if (if 0 <=? e then Zpos d * 2 ^ e <=? Zpos n
      else Zpos d <=? Zpos n * 2 ^ (- e))
  then e else e - 1.

(** The integer nearest to [n/d], the even one of two that are as near. *)
Definition nearest_even (n d : Z) : Z :=
  let q := n / d in
  match 2 * (n mod d) ?= d with
  | Lt => q
  | Gt => q + 1
  | Eq => if Z.even q then q else q + 1
  end.

(** [m * 2^e], in lowest terms. *)
Definition scaled (m e : Z) : Q :=
  if 0 <=? e then inject_Z (m * 2 ^ e) else Qred (m # Z.to_pos (2 ^ (- e))).

(** The double nearest to [n/d]: a significand of 53 bits, at an exponent
    that is not below that of the subnormal numbers. *)
Definition round_pos (n d : positive) : t :=
  let e := Z.max (floor_log2 n d - 52) (-1074) in
  let m := if 0 <=? e then nearest_even (Zpos n) (Zpos d * 2 ^ e)
           else nearest_even (Zpos n * 2 ^ (- e)) (Zpos d) in
  if (971 <? e) || ((e =? 971) && (2 ^ 53 <=? m)) then Infinity
  else Finite (scaled m e).

Definition neg (x : t) : t :=
  match x with
  | Finite q => Finite (Qred (- q))
  | Infinity => NegInfinity
  | NegInfinity => Infinity
  | NaN => NaN
  end.

(** The double nearest to [q]. *)
Definition round (q : Q) : t :=
  match Qnum q with
  | 0 => Finite 0
  | Zpos n => round_pos n (Qden q)
  | Zneg n => neg (round_pos n (Qden q))
  end.

(** [q] is a double. *)
Definition is_double (q : Q) : bool :=
  match round q with
  | Finite r => Qeq_bool r q
  | _ => false
  end.

(** [x * y] *)
Definition mul (x y : t) : t :=
  match x, y with
  | NaN, _ | _, NaN => NaN
  | Finite a, Finite b => round (a * b)
  | Finite a, Infinity | Infinity, Finite a =>
      match (a ?= 0)%Q with Eq => NaN | Gt => Infinity | Lt => NegInfinity end
  | Finite a, NegInfinity | NegInfinity, Finite a =>
      match (a ?= 0)%Q with Eq => NaN | Gt => NegInfinity | Lt => Infinity end
  | Infinity, Infinity | NegInfinity, NegInfinity => Infinity
  | Infinity, NegInfinity | NegInfinity, Infinity => NegInfinity
  end.

(** [x + y] *)
Definition add (x y : t) : t :=
  match x, y with
  | NaN, _ | _, NaN => NaN
  | Finite a, Finite b => round (a + b)
  | Infinity, NegInfinity | NegInfinity, Infinity => NaN
  | Infinity, _ | _, Infinity => Infinity
  | NegInfinity, _ | _, NegInfinity => NegInfinity
  end.

(** [x - y] *)
Definition sub (x y : t) : t := add x (neg y).

(** [x < y] *)
Definition lt (x y : t) : bool :=
  match x, y with
  | NaN, _ | _, NaN => false
  | Finite a, Finite b => negb (Qle_bool b a)
  | _, NegInfinity | Infinity, _ => false
  | NegInfinity, _ | _, Infinity => true
  end.

(** [x <= y] *)
Definition le (x y : t) : bool :=
  match x, y with
  | NaN, _ | _, NaN => false
  | Finite a, Finite b => Qle_bool a b
  | NegInfinity, _ | _, Infinity => true
  | _, NegInfinity | Infinity, _ => false
  end.

(** [Math.min(x, y)], [Math.max(x, y)] *)
Definition Math_min (x y : t) : t :=
  match x, y with
  | NaN, _ | _, NaN => NaN
  | _, _ => if lt y x then y else x
  end.

Definition Math_max (x y : t) : t :=
  match x, y with
  | NaN, _ | _, NaN => NaN
  | _, _ => if lt x y then y else x
  end.

End Number.

Coercion Number.Finite : Q >-> Number.t.
Bind Scope Q_scope with Number.t.

(** ** Types and interfaces *)

Record RetryConfig := {
  maxAttempts : Z;
  baseDelay : Number.t;
  maxDelay : Number.t;
  backoffMultiplier : Number.t;
  jitter : bool
}.

Record CircuitBreakerConfig := {
  enabled : bool;
  failureThreshold : Z;
  resetTimeout : Z;
  monitoringWindow : Z
}.

Inductive ServiceType := salesforce | companycam | aws_secrets | external_api.

Record IntegrationEndpoint := {
  ep_id : string;
  ep_name : string;
  serviceType : ServiceType;
  baseUrl : string;
  ep_timeout : Z;
  retryConfig : RetryConfig;
  circuitBreakerConfig : CircuitBreakerConfig
}.

Inductive ErrorType :=
  | timeout_error
  | connection_error
  | authentication_error
  | rate_limit
  | server_error
  | validation_error.

Inductive Severity := low | medium | high | critical.

Inductive Method := GET | POST | PUT | PATCH | DELETE.

(** The [response] an error object may carry ([error.response]). *)
Record HttpResponse := {
  status : option Z;
  resp_headers : gmap string string;
  resp_data : string
}.

(** An [Error] object as the transports reject with. *)
Record JsError := {
  err_name : string;
  message : string;
  response : option HttpResponse;
  code : option string
}.

(** What a [throw] can carry along the call chain: an error object, or
    [undefined] (the retry loop's [throw lastError!] when it never ran). *)
Inductive Thrown :=
  | Undefined
  | ErrObj (e : JsError).

Record IntegrationRequest := {
  method : Method;
  path : string;
  headers : option (gmap string string);
  body : option string;
  metadata : option (gmap string string)
}.

Record RequestData := {
  rd_method : Method;
  rd_path : string;
  rd_headers : gmap string string;
  rd_metadata : option (gmap string string)
}.

Record IntegrationError := {
  ie_id : string;
  endpointId : string;
  errorType : ErrorType;
  errorCode : option string;
  ie_message : string;
  requestData : RequestData;
  responseData : option HttpResponse;
  retryCount : Z;
  occurredAt : Z;
  resolved : bool
}.

Record IntegrationResponse (T : Type) := {
  success : bool;
  data : option T;
  error : option IntegrationError;
  attempts : Z;
  totalTime : Z
}.
Arguments success {T}.
Arguments data {T}.
Arguments error {T}.
Arguments attempts {T}.
Arguments totalTime {T}.

(** ** Error classifier *)

Module ErrorClassifier.

Import Js.

(** [response?.status], with its truthiness test *)
Definition status_of (response : option HttpResponse) : option Z :=
  match response with
  | Some r =>
      match status r with
      | Some s => if truthy_number s then Some s else None
      | None => None
      end
  | None => None
  end.

(** The message patterns, tried once no status code has decided. *)
Definition classifyMessage (errorMessage : string) : ErrorType :=
  if includes errorMessage "timeout" || includes errorMessage "timed out"
  then timeout_error
  else if includes errorMessage "connection"
          || includes errorMessage "network"
          || includes errorMessage "econnreset"
          || includes errorMessage "econnrefused"
  then connection_error
  else if includes errorMessage "auth"
          || includes errorMessage "unauthorized"
          || includes errorMessage "forbidden"
  then authentication_error
  else if includes errorMessage "rate limit"
          || includes errorMessage "too many requests"
  then rate_limit
  else server_error.

(** [error?.message?.toLowerCase() || ''] *)
Definition lowered_message (error : option JsError) : string :=
  match error with
  | Some e => toLowerCase (message e)
  | None => EmptyString
  end.

Definition classifyError (error : option JsError)
    (response : option HttpResponse) : ErrorType :=
  let by_message := classifyMessage (lowered_message error) in
  match status_of response with
  | Some s =>
      if (s =? 401) || (s =? 403) then authentication_error
      else if s =? 429 then rate_limit
      else if (400 <=? s) && (s <? 500) then validation_error
      else if 500 <=? s then server_error
      else by_message
  | None => by_message
  end.

Definition getErrorSeverity (errorType : ErrorType) : Severity :=
  match errorType with
  | authentication_error => critical
  | server_error => high
  | timeout_error | connection_error => medium
  | rate_limit => medium
  | validation_error => low
  end.

Definition shouldAlert (errorType : ErrorType) (retryCount : Z) : bool :=
  match errorType with
  | authentication_error => true
  | server_error => 1 <=? retryCount
  | timeout_error | connection_error => 3 <=? retryCount
  | _ => false
  end.

End ErrorClassifier.

(** ** Worlds and computations *)

Inductive CircuitBreakerState := CLOSED | OPEN | HALF_OPEN.

Inductive Event :=
  | EvTransport (n : nat)                       (* n-th call of executeRequest *)
  | EvSleep (ms : Number.t)                     (* sleep(ms) *)
  | EvStateChange (st : CircuitBreakerState)    (* emit('stateChange') *)
  | EvCircuitOpen (failures : Z)                (* emit('circuitOpen') *)
  | EvReset                                     (* emit('reset') *)
  | EvIntegrationError (e : IntegrationError)   (* emit('integrationError') *)
  | EvIntegrationAlert (e : IntegrationError) (sev : Severity).

Record World := {
  now : Z;
  calls : nat;
  draws : nat;
  trace : list Event;
  requestLog : gmap string IntegrationError;
  (* the variables [attempts] and [lastError] that the closures of the
     running makeRequest share *)
  mr_attempts : Z;
  mr_lastError : option IntegrationError
}.

Definition emit (ev : Event) (w : World) : World :=
  {| now := now w; calls := calls w; draws := draws w;
     trace := trace w ++ [ev]; requestLog := requestLog w;
     mr_attempts := mr_attempts w; mr_lastError := mr_lastError w |}.

Definition advance (dt : Z) (w : World) : World :=
  {| now := now w + dt; calls := calls w; draws := draws w;
     trace := trace w; requestLog := requestLog w;
     mr_attempts := mr_attempts w; mr_lastError := mr_lastError w |}.

Definition count_call (w : World) : World :=
  {| now := now w; calls := S (calls w); draws := draws w;
     trace := trace w; requestLog := requestLog w;
     mr_attempts := mr_attempts w; mr_lastError := mr_lastError w |}.

Definition count_draw (w : World) : World :=
  {| now := now w; calls := calls w; draws := S (draws w);
     trace := trace w; requestLog := requestLog w;
     mr_attempts := mr_attempts w; mr_lastError := mr_lastError w |}.

Definition set_requestLog (l : gmap string IntegrationError) (w : World) : World :=
  {| now := now w; calls := calls w; draws := draws w;
     trace := trace w; requestLog := l;
     mr_attempts := mr_attempts w; mr_lastError := mr_lastError w |}.

Definition set_attempts (n : Z) (w : World) : World :=
  {| now := now w; calls := calls w; draws := draws w;
     trace := trace w; requestLog := requestLog w;
     mr_attempts := n; mr_lastError := mr_lastError w |}.

Definition set_lastError (e : option IntegrationError) (w : World) : World :=
  {| now := now w; calls := calls w; draws := draws w;
     trace := trace w; requestLog := requestLog w;
     mr_attempts := mr_attempts w; mr_lastError := e |}.

Inductive Outcome (A : Type) :=
  | Ok (a : A)
  | Throw (t : Thrown).
Arguments Ok {A} a.
Arguments Throw {A} t.

Definition is_ok {A} (r : Outcome A) : bool :=
  match r with Ok _ => true | Throw _ => false end.

(** A computation: from the world it starts in to its outcome and the world
    it ends in. *)
Definition M (A : Type) : Type := World -> Outcome A * World.

(** The environment of a client: what its transport and the random source
    will answer, and what the engine it runs on does where the language
    leaves it open. *)
Record Env (T : Type) := {
  transport : nat -> IntegrationRequest -> string -> T + JsError;
  latency : nat -> Z;
  random : nat -> Q;
  (* [x.toString(36).substr(2, 9)] of a random draw [x] *)
  base36 : Q -> string;
  (* [Math.pow(base, exponent)] where the exact power is not a double: the
     language asks for an approximation and leaves the choice to the engine *)
  pow : Number.t -> Z -> Number.t;
  (* how long a timer set for [ms] takes to fire *)
  timer : Number.t -> Z
}.
Arguments transport {T}.
Arguments latency {T}.
Arguments random {T}.
Arguments base36 {T}.
Arguments pow {T}.
Arguments timer {T}.

Definition typeError (msg : string) : Thrown :=
  ErrObj {| err_name := "TypeError"; message := msg;
            response := None; code := None |}.

Definition newError (msg : string) : Thrown :=
  ErrObj {| err_name := "Error"; message := msg;
            response := None; code := None |}.

(** ** Circuit breaker *)

Module CircuitBreaker.

Record t := {
  state : CircuitBreakerState;
  failures : Z;
  lastFailureTime : Z;
  successCount : Z
}.

(** field initialisers of the class *)
Definition initial : t :=
  {| state := CLOSED; failures := 0; lastFailureTime := 0; successCount := 0 |}.

Section Breaker.

Variable endpointId : string.
Variable config : CircuitBreakerConfig.

Definition open_error : Thrown :=
  newError ("Circuit breaker is OPEN for endpoint " ++ endpointId).

Definition onSuccess (b : t) (w : World) : t * World :=
  let failures' := 0 in
  let successCount' := successCount b + 1 in
  match state b with
  | HALF_OPEN =>
      if 3 <=? successCount' then
        ({| state := CLOSED; failures := failures';
            lastFailureTime := lastFailureTime b; successCount := 0 |},
         emit (EvStateChange CLOSED) w)
      else
        ({| state := HALF_OPEN; failures := failures';
            lastFailureTime := lastFailureTime b;
            successCount := successCount' |}, w)
  | st =>
      ({| state := st; failures := failures';
          lastFailureTime := lastFailureTime b;
          successCount := successCount' |}, w)
  end.

Definition onFailure (b : t) (w : World) : t * World :=
  let failures' := failures b + 1 in
  let lastFailureTime' := now w in
  let successCount' := 0 in
  if failureThreshold config <=? failures' then
    ({| state := OPEN; failures := failures';
        lastFailureTime := lastFailureTime'; successCount := successCount' |},
     emit (EvCircuitOpen failures') (emit (EvStateChange OPEN) w))
  else
    ({| state := state b; failures := failures';
        lastFailureTime := lastFailureTime'; successCount := successCount' |}, w).

Definition half_open (b : t) : t :=
  {| state := HALF_OPEN; failures := failures b;
     lastFailureTime := lastFailureTime b; successCount := successCount b |}.

Definition execute {A} (operation : M A) (b : t) (w : World)
    : Outcome A * t * World :=
  if negb (enabled config) then
    let '(r, w1) := operation w in (r, b, w1)
  else
    let admitted :=
      match state b with
      | OPEN =>
          if now w - lastFailureTime b <? resetTimeout config
          then None
          else Some (half_open b, emit (EvStateChange HALF_OPEN) w)
      | _ => Some (b, w)
      end in
    match admitted with
    | None => (Throw open_error, b, w)
    | Some (b1, w1) =>
        match operation w1 with
        | (Ok result, w2) =>
            let '(b3, w3) := onSuccess b1 w2 in (Ok result, b3, w3)
        | (Throw error, w2) =>
            let '(b3, w3) := onFailure b1 w2 in (Throw error, b3, w3)
        end
    end.

(** The two halves of [execute] on an enabled breaker, which its [await]
    separates: what it does before the operation runs (nothing is returned
    when it throws the circuit-open error), and what it does once the
    operation has settled. *)
Definition admission (b : t) (w : World) : option (t * World) :=
  match state b with
  | OPEN =>
      if now w - lastFailureTime b <? resetTimeout config
      then None
      else Some (half_open b, emit (EvStateChange HALF_OPEN) w)
  | _ => Some (b, w)
  end.

Definition settle (ok : bool) (b : t) (w : World) : t * World :=
  if ok then onSuccess b w else onFailure b w.

Definition getState (b : t) : CircuitBreakerState := state b.

Definition reset (b : t) (w : World) : t * World :=
  ({| state := CLOSED; failures := 0; lastFailureTime := 0; successCount := 0 |},
   emit EvReset w).

End Breaker.

End CircuitBreaker.

(** ** Retry mechanism *)

Module RetryHandler.

Import Js.

Section Retry.

Context {T : Type}.
Variable env : Env T.
Variable config : RetryConfig.

(** [shouldRetry(error as Error)]: reading [error.message] of [undefined]
    throws a TypeError. *)
Definition shouldRetry (error : Thrown) : Outcome bool :=
  match error with
  | Undefined =>
      Throw (typeError "Cannot read properties of undefined (reading 'message')")
  | ErrObj e =>
      if includes (message e) "401" || includes (message e) "authentication"
      then Ok false
      else if includes (message e) "400" || includes (message e) "validation"
      then Ok false
      else Ok true
  end.

(** [Math.pow(base, exponent)] for an integer exponent.  The cases that the
    language fixes are written out; where the exact power of a finite base
    is a double it is the result (every engine is accurate to less than one
    unit in the last place, so it returns a power that is a double as it
    is); everywhere else the result is the engine's. *)
Definition Math_pow (base : Number.t) (exponent : Z) : Number.t :=
  if exponent =? 0 then 1%Q
  else
    match base with
    | Number.NaN => Number.NaN
    | Number.Infinity => if 0 <? exponent then Number.Infinity else 0%Q
    | Number.NegInfinity =>
        if 0 <? exponent
        then (if Z.odd exponent then Number.NegInfinity else Number.Infinity)
        else 0%Q
    | Number.Finite q =>
        if Qeq_bool q 0
        then (if 0 <? exponent then 0%Q else pow env base exponent)
        else if Number.is_double (q ^ exponent)
        then Qred (q ^ exponent)
        else pow env base exponent
    end.

(** The delay before the next attempt, without the random perturbation and
    before [Math.max(delay, 0)]. *)
Definition backoff (attempt : Z) : Number.t :=
  Number.Math_min
    (Number.mul (baseDelay config)
                (Math_pow (backoffMultiplier config) (attempt - 1)))
    (maxDelay config).

(** [calculateDelay(attempt)]; [Math.random()] is drawn only with jitter. *)
Definition calculateDelay (attempt : Z) (w : World) : Number.t * World :=
  let delay := backoff attempt in
  if jitter config then
    let jitterRange := Number.mul delay (1 # 4) in
    let r := random env (draws w) in
    (Number.Math_max
       (Number.add delay
          (Number.mul (Number.mul (Number.sub r (1 # 2)) 2) jitterRange))
       0,
     count_draw w)
  else
    (Number.Math_max delay 0, w).

(** [sleep(ms)]: a timer is set for [ms] and the call goes on when it
    fires. *)
Definition sleep (ms : Number.t) (w : World) : World :=
  advance (timer env ms) (emit (EvSleep ms) w).

(** The [while (attempt < maxAttempts)] loop.  [fuel] bounds the number of
    iterations; [attempt] grows by one in each, so [maxAttempts - attempt]
    iterations are all the loop can make (see [loop_fuel]). *)
Fixpoint loop {A} (fuel : nat) (operation : M A) (lastError : Thrown)
    (attempt : Z) (w : World) : Outcome A * World :=
  match fuel with
  | O => (Throw lastError, w)
  | S fuel' =>
      if attempt <? maxAttempts config then
        match operation w with
        | (Ok v, w1) => (Ok v, w1)
        | (Throw error, w1) =>
            let lastError := error in
            let attempt := attempt + 1 in
            match shouldRetry error with
            | Throw te => (Throw te, w1)
            | Ok false => (Throw error, w1)
            | Ok true =>
                if attempt <? maxAttempts config then
                  let '(delay, w2) := calculateDelay attempt w1 in
                  loop fuel' operation lastError attempt (sleep delay w2)
                else
                  loop fuel' operation lastError attempt w1
            end
        end
      else (Throw lastError, w)
  end.

Definition execute {A} (operation : M A) : M A :=
  loop (Z.to_nat (maxAttempts config)) operation Undefined 0.

End Retry.

End RetryHandler.

(** ** Integration client *)

Module IntegrationClient.

Import Js.

Definition REDACTED : string := "[REDACTED]".

Definition sensitiveHeaders : list string :=
  ["authorization"; "x-api-key"; "cookie"]%string.

(** One step of the [forEach]: [if (sanitized[header]) sanitized[header] = ...] *)
Definition redact (sanitized : gmap string string) (header : string)
    : gmap string string :=
  match sanitized !! header with
  | Some v => if truthy_string v then <[header := REDACTED]> sanitized
              else sanitized
  | None => sanitized
  end.

Definition sanitizeHeaders (headers : gmap string string) : gmap string string :=
  fold_left redact sensitiveHeaders headers.

Section Client.

Context {T : Type}.
Variable env : Env T.
Variable endpoint : IntegrationEndpoint.

(** The abstract [executeRequest]: the next answer of the transport. *)
Definition executeRequest (request : IntegrationRequest) (requestId : string)
    : M T :=
  fun w =>
    let n := calls w in
    let w1 := advance (latency env n) (emit (EvTransport n) (count_call w)) in
    match transport env n request requestId with
    | inl v => (Ok v, w1)
    | inr e => (Throw (ErrObj e), w1)
    end.

Definition createIntegrationError (error : JsError)
    (request : IntegrationRequest) (requestId : string) (retryCount : Z)
    (w : World) : IntegrationError :=
  let errorType :=
    ErrorClassifier.classifyError (Some error) (response error) in
  {| ie_id := requestId;
     endpointId := ep_id endpoint;
     errorType := errorType;
     errorCode :=
       match response error with
       | Some r =>
           match status r with
           | Some s => Some (toString s)
           | None => code error
           end
       | None => code error
       end;
     ie_message :=
       if truthy_string (message error) then message error
       else "Unknown error"%string;
     requestData :=
       {| rd_method := method request;
          rd_path := path request;
          rd_headers := sanitizeHeaders (default ∅ (headers request));
          rd_metadata := metadata request |};
     responseData := response error;
     retryCount := retryCount;
     occurredAt := now w;
     resolved := false |}.

Definition logError (error : IntegrationError) (w : World) : World :=
  let w1 := set_requestLog (<[ie_id error := error]> (requestLog w)) w in
  let w2 := emit (EvIntegrationError error) w1 in
  if ErrorClassifier.shouldAlert (errorType error) (retryCount error) then
    emit (EvIntegrationAlert error
            (ErrorClassifier.getErrorSeverity (errorType error))) w2
  else w2.

Definition generateRequestId (w : World) : string * World :=
  ("req_" ++ toString (now w) ++ "_" ++ base36 env (random env (draws w)),
   count_draw w)%string.

(** The closure [operation] of makeRequest. *)
Definition operation (request : IntegrationRequest) (requestId : string)
    : M T :=
  fun w =>
    let w0 := set_attempts (mr_attempts w + 1) w in
    match executeRequest request requestId w0 with
    | (Ok response, w1) => (Ok response, w1)
    | (Throw Undefined, w1) =>
        (Throw (typeError
           "Cannot read properties of undefined (reading 'response')"), w1)
    | (Throw (ErrObj error), w1) =>
        let integrationError :=
          createIntegrationError error request requestId (mr_attempts w1 - 1) w1 in
        let w2 := set_lastError (Some integrationError) w1 in
        (Throw (ErrObj error), logError integrationError w2)
    end.

Definition makeRequest (request : IntegrationRequest)
    (b : CircuitBreaker.t) (w : World)
    : Outcome (IntegrationResponse T) * CircuitBreaker.t * World :=
  let '(requestId, w) := generateRequestId w in
  let startTime := now w in
  let w := set_lastError None (set_attempts 0 w) in
  match
    CircuitBreaker.execute (ep_id endpoint) (circuitBreakerConfig endpoint)
      (RetryHandler.execute env (retryConfig endpoint)
         (operation request requestId)) b w
  with
  | (Ok result, b', w') =>
      let totalTime := now w' - startTime in
      (Ok {| success := true; data := Some result; error := None;
             attempts := mr_attempts w'; totalTime := totalTime |}, b', w')
  | (Throw _, b', w') =>
      let totalTime := now w' - startTime in
      (Ok {| success := false; data := None; error := mr_lastError w';
             attempts := mr_attempts w'; totalTime := totalTime |}, b', w')
  end.

End Client.

End IntegrationClient.

(** ** Default configurations and sample inputs *)

Definition DEFAULT_RETRY_CONFIG : RetryConfig :=
  {| maxAttempts := 3; baseDelay := 1000; maxDelay := 30000;
     backoffMultiplier := 2; jitter := true |}.

Definition DEFAULT_CIRCUIT_BREAKER_CONFIG : CircuitBreakerConfig :=
  {| enabled := true; failureThreshold := 5; resetTimeout := 60000;
     monitoringWindow := 300000 |}.

Definition no_jitter (c : RetryConfig) : RetryConfig :=
  {| maxAttempts := maxAttempts c; baseDelay := baseDelay c;
     maxDelay := maxDelay c; backoffMultiplier := backoffMultiplier c;
     jitter := false |}.

Definition with_threshold (f : Z) (c : CircuitBreakerConfig)
    : CircuitBreakerConfig :=
  {| enabled := enabled c; failureThreshold := f;
     resetTimeout := resetTimeout c; monitoringWindow := monitoringWindow c |}.

Definition sample_endpoint (r : RetryConfig) (c : CircuitBreakerConfig)
    : IntegrationEndpoint :=
  {| ep_id := "crm"; ep_name := "CRM"; serviceType := salesforce;
     baseUrl := "https://crm.example"; ep_timeout := 30000;
     retryConfig := r; circuitBreakerConfig := c |}.

Definition http_error (msg : string) : JsError :=
  {| err_name := "Error"; message := msg; response := None; code := None |}.

Definition response_error (msg : string) (st : Z) : JsError :=
  {| err_name := "Error"; message := msg;
     response := Some {| status := Some st; resp_headers := ∅;
                         resp_data := "" |};
     code := None |}.

(** An engine whose [Math.pow] gives the double nearest to the power, and
    whose timers fire after the whole milliseconds they are set for, at once
    when set for no finite time. *)
Definition nearest_pow (base : Number.t) (exponent : Z) : Number.t :=
  match base with
  | Number.Finite q => Number.round (q ^ exponent)
  | other => other
  end.

Definition whole_ms (ms : Number.t) : Z :=
  match ms with
  | Number.Finite q => Qfloor q
  | _ => 0
  end.

(** A transport that rejects every invocation with [e], in 5 ms. *)
Definition always_rejecting (e : JsError) : Env unit :=
  {| transport := fun _ _ _ => inr e; latency := fun _ => 5;
     random := fun _ => 1 # 2; base36 := fun _ => "k3x9q0z1a"%string;
     pow := nearest_pow; timer := whole_ms |}.

(** A transport that rejects the first [k] invocations with [e]. *)
Definition rejecting_first (k : nat) (e : JsError) : Env unit :=
  {| transport := fun n _ _ => if Nat.ltb n k then inr e else inl tt;
     latency := fun _ => 5;
     random := fun _ => 1 # 2; base36 := fun _ => "k3x9q0z1a"%string;
     pow := nearest_pow; timer := whole_ms |}.

(** An operation that fails with [e] after [dt] ms, one that succeeds. *)
Definition failing {A} (e : JsError) (dt : Z) : M A :=
  fun w => (Throw (ErrObj e), advance dt w).

Definition succeeding {A} (v : A) (dt : Z) : M A :=
  fun w => (Ok v, advance dt w).

Definition sample_request (h : gmap string string) : IntegrationRequest :=
  {| method := GET; path := "/services/data"; headers := Some h;
     body := None; metadata := None |}.

Definition world_at (t : Z) : World :=
  {| now := t; calls := 0; draws := 0; trace := []; requestLog := ∅;
     mr_attempts := 0; mr_lastError := None |}.

(** ** Runs of a breaker, and what can be observed of a world *)

Section Runs.

Variable endpointId : string.
Variable config : CircuitBreakerConfig.

(** Successive [execute] calls on one breaker, in one world, each call
    settled before the next is made. *)
Fixpoint run_calls {A} (ops : list (M A)) (b : CircuitBreaker.t) (w : World)
    : list (Outcome A) * CircuitBreaker.t * World :=
  match ops with
  | [] => ([], b, w)
  | op :: ops' =>
      let '(r, b1, w1) := CircuitBreaker.execute endpointId config op b w in
      let '(rs, b2, w2) := run_calls ops' b1 w1 in
      (r :: rs, b2, w2)
  end.

(** What may happen to a breaker whose calls do not overlap: a whole call
    through it, a manual reset, time passing between two calls. *)
Inductive Action (A : Type) :=
  | Exec (op : M A)
  | Reset
  | Wait (dt : Z).
Arguments Exec {A} op.
Arguments Reset {A}.
Arguments Wait {A} dt.

Definition act {A} (a : Action A) (b : CircuitBreaker.t) (w : World)
    : CircuitBreaker.t * World :=
  match a with
  | Exec op =>
      let '(_, b1, w1) := CircuitBreaker.execute endpointId config op b w in
      (b1, w1)
  | Reset => CircuitBreaker.reset b w
  | Wait dt => (b, advance dt w)
  end.

(** The breaker and the world that a history of calls that do not overlap
    leads to, from a new breaker. *)
Definition run_history {A} (hist : list (Action A)) (w : World)
    : CircuitBreaker.t * World :=
  fold_left (fun bw a => act a (fst bw) (snd bw)) hist
            (CircuitBreaker.initial, w).

(** What holds of every breaker that a history of calls that do not overlap
    leads to: the success counter is not negative and stays below 3 while
    HALF_OPEN; an OPEN breaker has no success counted and at least
    failureThreshold failures. *)
Definition breaker_inv (b : CircuitBreaker.t) : Prop :=
  0 <= CircuitBreaker.successCount b
  /\ (CircuitBreaker.state b = HALF_OPEN -> CircuitBreaker.successCount b < 3)
  /\ (CircuitBreaker.state b = OPEN ->
      CircuitBreaker.successCount b = 0
      /\ failureThreshold config <= CircuitBreaker.failures b).

End Runs.

Arguments Exec {A} op.
Arguments Reset {A}.
Arguments Wait {A} dt.

(** *** Calls that overlap

    [execute] awaits its operation between its test of the state and
    [onSuccess] or [onFailure].  While one call waits, other calls on the
    same breaker can be admitted, and the operations settle in any order.
    What a breaker goes through is then a sequence of moves: a call enters
    (it is admitted, and is in flight from then on, or it is rejected), the
    operation of a call in flight settles, the breaker is reset, time
    passes.  Calls that do not overlap are the sequences in which each call
    that enters settles before the next move. *)

Inductive Move :=
  | Enter
  | Leave (ok : bool)
  | ManualReset
  | Elapse (dt : Z).

Record Running := {
  r_breaker : CircuitBreaker.t;
  r_world : World;
  in_flight : nat
}.

Definition start (w : World) : Running :=
  {| r_breaker := CircuitBreaker.initial; r_world := w; in_flight := 0 |}.

Section Overlap.

Variable config : CircuitBreakerConfig.

(** A move; none when no call is in flight whose operation could settle. *)
Definition move (m : Move) (r : Running) : option Running :=
  match m with
  | Enter =>
      if negb (enabled config) then
        Some {| r_breaker := r_breaker r; r_world := r_world r;
                in_flight := S (in_flight r) |}
      else
        match CircuitBreaker.admission config (r_breaker r) (r_world r) with
        | None => Some r
        | Some bw =>
            Some {| r_breaker := fst bw; r_world := snd bw;
                    in_flight := S (in_flight r) |}
        end
  | Leave ok =>
      match in_flight r with
      | O => None
      | S n =>
          if negb (enabled config) then
            Some {| r_breaker := r_breaker r; r_world := r_world r;
                    in_flight := n |}
          else
            let bw :=
              CircuitBreaker.settle config ok (r_breaker r) (r_world r) in
            Some {| r_breaker := fst bw; r_world := snd bw; in_flight := n |}
      end
  | ManualReset =>
      let bw := CircuitBreaker.reset (r_breaker r) (r_world r) in
      Some {| r_breaker := fst bw; r_world := snd bw;
              in_flight := in_flight r |}
  | Elapse dt =>
      Some {| r_breaker := r_breaker r; r_world := advance dt (r_world r);
              in_flight := in_flight r |}
  end.

Fixpoint run_moves (ms : list Move) (r : Running) : option Running :=
  match ms with
  | [] => Some r
  | m :: ms' =>
      match move m r with
      | Some r' => run_moves ms' r'
      | None => None
      end
  end.

(** What holds of the counters of a breaker whatever it has been through,
    overlapping calls included. *)
Definition counters_sound (b : CircuitBreaker.t) : Prop :=
  0 <= CircuitBreaker.failures b
  /\ 0 <= CircuitBreaker.successCount b
  /\ (CircuitBreaker.state b = CLOSED ->
      CircuitBreaker.failures b < failureThreshold config).

End Overlap.

(** The operations that settle with a success, among some moves. *)
Definition successes (ms : list Move) : nat :=
  length (List.filter (fun m => match m with Leave true => true | _ => false end)
                      ms).

(** Moves among which no operation fails and no reset is made. *)
Definition no_failure (ms : list Move) : bool :=
  forallb (fun m => match m with
                    | Enter | Leave true | Elapse _ => true
                    | Leave false | ManualReset => false
                    end) ms.

(** The breaker after one more success: [onSuccess] draws nothing from the
    world. *)
Definition succeeded (b : CircuitBreaker.t) : CircuitBreaker.t :=
  fst (CircuitBreaker.onSuccess b (world_at 0)).

(** [n] successive calls of makeRequest through one client. *)
Fixpoint requests {T} (env : Env T) (endpoint : IntegrationEndpoint)
    (request : IntegrationRequest) (n : nat)
    (b : CircuitBreaker.t) (w : World) : CircuitBreaker.t * World :=
  match n with
  | O => (b, w)
  | S n' =>
      let '(_, b1, w1) :=
        IntegrationClient.makeRequest env endpoint request b w in
      requests env endpoint request n' b1 w1
  end.

Definition single_attempt : RetryConfig :=
  {| maxAttempts := 1; baseDelay := 1000; maxDelay := 30000;
     backoffMultiplier := 2; jitter := false |}.

Definition all_ok {A} (rs : list (Outcome A)) : bool := forallb is_ok rs.

Definition all_thrown {A} (rs : list (Outcome A)) : bool :=
  forallb (fun r => negb (is_ok r)) rs.

(** The transport invocations and the sleeps of a trace, in order. *)
Definition is_timing (ev : Event) : bool :=
  match ev with
  | EvTransport _ | EvSleep _ => true
  | _ => false
  end.

Definition timeline (tr : list Event) : list Event := List.filter is_timing tr.

(** The delays of the sleeps of a trace, in order. *)
Definition delays (tr : list Event) : list Number.t :=
  flat_map (fun ev => match ev with
                      | EvSleep ms => [ms]
                      | _ => []
                      end) tr.

(** The integrationError events of a trace, in order. *)
Definition logged (tr : list Event) : list IntegrationError :=
  flat_map (fun ev => match ev with
                      | EvIntegrationError e => [e]
                      | _ => []
                      end) tr.

Arguments timeline : simpl never.
Arguments delays : simpl never.
Arguments logged : simpl never.

Section Schedules.

Context {T : Type}.
Variable env : Env T.
Variable config : RetryConfig.
Variable request : IntegrationRequest.
Variable requestId : string.

(** The delay after attempt [i] when there is no jitter: the capped
    exponential, or 0 when that is negative. *)
Definition delay_after (i : Z) : Number.t :=
  Number.Math_max
    (Number.Math_min
       (Number.mul (baseDelay config)
          (RetryHandler.Math_pow env (backoffMultiplier config) (i - 1)))
       (maxDelay config))
    0.

(** [a] attempts, the first being invocation [n] of the transport and
    attempt number [attempt + 1] of its call: each attempt but the last is
    followed by the delay of its number. *)
Fixpoint schedule (attempt : Z) (n : nat) (a : nat) : list Event :=
  match a with
  | O => []
  | S a' =>
      EvTransport n ::
      match a' with
      | O => []
      | S _ =>
          EvSleep (delay_after (attempt + 1))
          :: schedule (attempt + 1) (S n) a'
      end
  end.

(** The time that [a] attempts take, the first being invocation [n] of the
    transport and attempt number [attempt + 1] of its call: the latency of
    each invocation and, after each attempt but the last, the time that the
    timer set for the delay takes to fire. *)
Fixpoint elapsed (attempt : Z) (n : nat) (a : nat) : Z :=
  match a with
  | O => 0
  | S a' =>
      latency env n
      + match a' with
        | O => 0
        | S _ =>
            timer env (delay_after (attempt + 1))
            + elapsed (attempt + 1) (S n) a'
        end
  end.

(** The number of attempts a call makes when [budget] attempts are left and
    its next attempt is invocation [n]: it stops at the first attempt that
    succeeds or fails with an error that is not retried. *)
Fixpoint attempts_made (budget : nat) (n : nat) : nat :=
  match budget with
  | O => O
  | S budget' =>
      match transport env n request requestId with
      | inl _ => 1%nat
      | inr e =>
          match RetryHandler.shouldRetry (ErrObj e) with
          | Ok true => S (attempts_made budget' (S n))
          | _ => 1%nat
          end
      end
  end.

(** The errors the transport rejects with in invocations [n .. n + a - 1]. *)
Fixpoint rejections (n : nat) (a : nat) : list JsError :=
  match a with
  | O => []
  | S a' =>
      match transport env n request requestId with
      | inl _ => rejections (S n) a'
      | inr e => e :: rejections (S n) a'
      end
  end.

End Schedules.

(** The error record [ie] is the one the client builds for the rejection [e]
    of a call with request id [requestId]. *)
Definition records (requestId : string) (ie : IntegrationError) (e : JsError)
    : Prop :=
  ie_id ie = requestId
  /\ errorType ie = ErrorClassifier.classifyError (Some e) (response e)
  /\ ie_message ie
     = (if Js.truthy_string (message e) then message e
        else "Unknown error"%string).

(** Two worlds that differ in nothing a client call can tell apart later:
    same clock, same counters, same error log and closure variables, same
    integrationError events. *)
Definition same_view (w1 w2 : World) : Prop :=
  now w1 = now w2
  /\ calls w1 = calls w2
  /\ mr_attempts w1 = mr_attempts w2
  /\ mr_lastError w1 = mr_lastError w2
  /\ requestLog w1 = requestLog w2
  /\ logged (trace w1) = logged (trace w2).

(** What [sanitizeHeaders] makes of the value of the header [name]. *)
Definition sanitized (name value : string) : string :=
  if existsb (String.eqb name) IntegrationClient.sensitiveHeaders
     && Js.truthy_string value
  then IntegrationClient.REDACTED else value.

(** ** Definitions that follow the wording of the specification *)

Module Claimed.

Import Js.

Definition timeout_terms : list string := ["timeout"; "timed out"]%string.
Definition connection_terms : list string :=
  ["connection"; "network"; "econnreset"; "econnrefused"]%string.
Definition auth_terms : list string :=
  ["auth"; "unauthorized"; "forbidden"]%string.
Definition rate_limit_terms : list string :=
  ["rate limit"; "too many requests"]%string.

Definition mentions (msg : string) (terms : list string) : bool :=
  existsb (includes msg) terms.

(** "when a response carrying a status code is present, 401 or 403 yields
    authentication_error, 429 rate_limit, any other 4xx validation_error, 5xx
    server_error; when no such response is present, the case-insensitively
    matched message yields timeout, connection_error, authentication_error,
    rate_limit; server_error in every remaining case". *)
Definition classify (error : option JsError) (response : option HttpResponse)
    : ErrorType :=
  match ErrorClassifier.status_of response with
  | Some s =>
      if (s =? 401) || (s =? 403) then authentication_error
      else if s =? 429 then rate_limit
      else if (400 <=? s) && (s <? 500) then validation_error
      else server_error
  | None =>
      let msg := ErrorClassifier.lowered_message error in
      if mentions msg timeout_terms then timeout_error
      else if mentions msg connection_terms then connection_error
      else if mentions msg auth_terms then authentication_error
      else if mentions msg rate_limit_terms then rate_limit
      else server_error
  end.

(** "min(baseDelay * backoffMultiplier^(i-1), maxDelay)", in the rationals. *)
Definition delay (baseDelay maxDelay backoffMultiplier : Q) (i : Z) : Q :=
  Qmin (baseDelay * backoffMultiplier ^ (i - 1)) maxDelay.

(** "headers named authorization, x-api-key, and cookie": the names of
    headers are read without regard to letter case, as HTTP reads them. *)
Definition credential_headers : list string :=
  ["authorization"; "x-api-key"; "cookie"]%string.

Definition is_sensitive (name : string) : bool :=
  existsb (String.eqb (toLowerCase name)) credential_headers.

(** "have their values replaced by '[REDACTED]', while every other header
    keeps the value it had in the original request". *)
Definition shown (name value : string) : string :=
  if is_sensitive name then "[REDACTED]"%string else value.

End Claimed.

(** ** Further parts of the code *)

(** Operations run one after the other, with no breaker in between. *)
Fixpoint run_ops {A} (ops : list (M A)) (w : World)
    : list (Outcome A) * World :=
  match ops with
  | [] => ([], w)
  | op :: ops' =>
      let '(r, w1) := op w in
      let '(rs, w2) := run_ops ops' w1 in
      (r :: rs, w2)
  end.

(** The counters of a breaker stay in step with its state. *)
Definition counters_agree (config : CircuitBreakerConfig)
    (b : CircuitBreaker.t) : Prop :=
  0 <= CircuitBreaker.failures b
  /\ 0 <= CircuitBreaker.successCount b
  /\ (CircuitBreaker.state b = CLOSED ->
      CircuitBreaker.failures b < failureThreshold config)
  /\ (CircuitBreaker.state b = OPEN ->
      failureThreshold config <= CircuitBreaker.failures b
      /\ CircuitBreaker.successCount b = 0)
  /\ (CircuitBreaker.state b = HALF_OPEN -> CircuitBreaker.successCount b < 3).

(** The integrationAlert events of a trace, in order. *)
Definition alerted (tr : list Event) : list (IntegrationError * Severity) :=
  flat_map (fun ev => match ev with
                      | EvIntegrationAlert e sev => [(e, sev)]
                      | _ => []
                      end) tr.

Arguments alerted : simpl never.

(** An alert is justified by the kind of its error and the number of
    attempts that failed before it in its call, of which there are fewer
    than [limit]; its severity is the one of the kind. *)
Definition alert_justified (limit : Z) (a : IntegrationError * Severity)
    : Prop :=
  snd a = ErrorClassifier.getErrorSeverity (errorType (fst a))
  /\ 0 <= retryCount (fst a) < limit
  /\ (errorType (fst a) = authentication_error
      \/ (errorType (fst a) = server_error /\ 1 <= retryCount (fst a))
      \/ ((errorType (fst a) = timeout_error
           \/ errorType (fst a) = connection_error)
          /\ 3 <= retryCount (fst a))).

(** Events emitted one after the other. *)
Definition emits (evs : list Event) (w : World) : World :=
  fold_left (fun w ev => emit ev w) evs w.

(** The events a breaker emits. *)
Definition is_breaker_event (ev : Event) : bool :=
  match ev with
  | EvStateChange _ | EvCircuitOpen _ | EvReset => true
  | _ => false
  end.

(** *** An insertion-ordered map, as JavaScript's [Map] *)

Module JsMap.

Section Map.

Context {V : Type}.

(** [m.set(k, v)]: a key already present keeps its place. *)
Fixpoint set (k : string) (v : V) (m : list (string * V))
    : list (string * V) :=
  match m with
  | [] => [(k, v)]
  | (k', v') :: m' =>
      if String.eqb k' k then (k, v) :: m' else (k', v') :: set k v m'
  end.

(** [m.get(k)] *)
Fixpoint get (k : string) (m : list (string * V)) : option V :=
  match m with
  | [] => None
  | (k', v') :: m' => if String.eqb k' k then Some v' else get k m'
  end.

(** [Array.from(m.values())] *)
Definition values (m : list (string * V)) : list V := map snd m.

Definition keys (m : list (string * V)) : list string := map fst m.

End Map.

End JsMap.

(** *** Client objects and their monitoring methods *)

Inductive ClientKind :=
  | SalesforceClient (accessToken : option string) (tokenExpiresAt : option Z)
  | CompanyCamClient (apiKey : option string).

(** An IntegrationClient object: its endpoint, its breaker and its error
    log, the entries in the order of their first insertion. *)
Record ClientObject := {
  cl_endpoint : IntegrationEndpoint;
  cl_kind : ClientKind;
  cl_breaker : CircuitBreaker.t;
  cl_requestLog : list (string * IntegrationError)
}.

Record BreakerStats := {
  st_state : CircuitBreakerState;
  st_failures : Z;
  st_successCount : Z;
  st_lastFailureTime : Z
}.

Module Monitoring.

(** [CircuitBreaker.getStats()] *)
Definition getStats (b : CircuitBreaker.t) : BreakerStats :=
  {| st_state := CircuitBreaker.state b;
     st_failures := CircuitBreaker.failures b;
     st_successCount := CircuitBreaker.successCount b;
     st_lastFailureTime := CircuitBreaker.lastFailureTime b |}.

Definition getCircuitBreakerStats (c : ClientObject) : BreakerStats :=
  getStats (cl_breaker c).

(** [sort((a, b) => b.occurredAt.getTime() - a.occurredAt.getTime())]: the
    sort of arrays is stable, so that the result is the one order that is
    descending in [occurredAt] and keeps entries of equal time as they were;
    insertion from the right computes it. *)
Fixpoint insert_recent (x : IntegrationError) (l : list IntegrationError)
    : list IntegrationError :=
  match l with
  | [] => [x]
  | y :: l' =>
      if occurredAt y <=? occurredAt x then x :: y :: l'
      else y :: insert_recent x l'
  end.

Definition sort_recent (l : list IntegrationError) : list IntegrationError :=
  fold_right insert_recent [] l.

(** [a.slice(0, limit)]: a negative end counts from the end of the array. *)
Definition slice_to {A} (limit : Z) (l : list A) : list A :=
  if limit <? 0
  then firstn (Z.to_nat (Z.max 0 (Z.of_nat (length l) + limit))) l
  else firstn (Z.to_nat limit) l.

(** [getRecentErrors(limit = 10)] *)
Definition getRecentErrors (limit : option Z) (c : ClientObject)
    : list IntegrationError :=
  slice_to (default 10 limit) (sort_recent (JsMap.values (cl_requestLog c))).

Definition resetCircuitBreaker (c : ClientObject) (w : World)
    : ClientObject * World :=
  let '(b, w') := CircuitBreaker.reset (cl_breaker c) w in
  ({| cl_endpoint := cl_endpoint c; cl_kind := cl_kind c;
      cl_breaker := b; cl_requestLog := cl_requestLog c |}, w').

Definition clearErrorLog (c : ClientObject) : ClientObject :=
  {| cl_endpoint := cl_endpoint c; cl_kind := cl_kind c;
     cl_breaker := cl_breaker c; cl_requestLog := [] |}.

End Monitoring.

(** *** Integration manager *)

Record Credentials := { apiKey : option string }.

Record Health := {
  h_circuitBreaker : BreakerStats;
  h_recentErrors : nat;
  h_lastError : option Z;
  h_healthy : bool
}.

Module IntegrationManager.

Record t := {
  clients : list (string * ClientObject);
  endpoints : list (string * IntegrationEndpoint)
}.

Definition new : t := {| clients := []; endpoints := [] |}.

Definition registerEndpoint (endpoint : IntegrationEndpoint) (m : t) : t :=
  {| clients := clients m;
     endpoints := JsMap.set (ep_id endpoint) endpoint (endpoints m) |}.

Definition serviceTypeName (s : ServiceType) : string :=
  match s with
  | salesforce => "salesforce"
  | companycam => "companycam"
  | aws_secrets => "aws_secrets"
  | external_api => "external_api"
  end.

(** A client as its constructor leaves it. *)
Definition newClient (endpoint : IntegrationEndpoint) (kind : ClientKind)
    : ClientObject :=
  {| cl_endpoint := endpoint; cl_kind := kind;
     cl_breaker := CircuitBreaker.initial; cl_requestLog := [] |}.

Definition createClient (endpointId : string)
    (credentials : option Credentials) (m : t) : Outcome ClientObject * t :=
  match JsMap.get endpointId (endpoints m) with
  | None => (Throw (newError ("Endpoint " ++ endpointId ++ " not found")), m)
  | Some endpoint =>
      let made :=
        match serviceType endpoint with
        | salesforce => Ok (newClient endpoint (SalesforceClient None None))
        | companycam =>
            Ok (newClient endpoint
                  (CompanyCamClient (credentials ≫= apiKey)))
        | other =>
            Throw (newError ("Unsupported service type: "
                             ++ serviceTypeName other))
        end in
      match made with
      | Ok client =>
          (Ok client,
           {| clients := JsMap.set endpointId client (clients m);
              endpoints := endpoints m |})
      | Throw error => (Throw error, m)
      end
  end.

Definition getClient (endpointId : string) (m : t) : option ClientObject :=
  JsMap.get endpointId (clients m).

Definition getAllClients (m : t) : list ClientObject :=
  JsMap.values (clients m).

Definition health (client : ClientObject) : Health :=
  let stats := Monitoring.getCircuitBreakerStats client in
  let recentErrors := Monitoring.getRecentErrors (Some 5) client in
  {| h_circuitBreaker := stats;
     h_recentErrors := length recentErrors;
     h_lastError := occurredAt <$> head recentErrors;
     h_healthy :=
       match st_state stats with CLOSED => true | _ => false end |}.

(** The properties of the object that [getHealthStatus()] returns.  The
    object is a plain one, so that the assignment [status[endpointId] = ...]
    with the key [__proto__] sets its prototype and adds no property. *)
Definition getHealthStatus (m : t) : gmap string Health :=
  fold_left (fun status entry =>
               if String.eqb (fst entry) "__proto__" then status
               else <[fst entry := health (snd entry)]> status)
            (clients m) ∅.

End IntegrationManager.

(** *** Histories of a manager *)

(** What happens to a manager: endpoints are registered, clients are
    created, and the clients it holds are used, which leaves their breaker
    and their error log in another state (their endpoint is read only, and
    so are the credentials: [requestAccessToken] always throws, so that no
    access token is ever stored). *)
Inductive ManagerOp :=
  | Register (endpoint : IntegrationEndpoint)
  | Create (endpointId : string) (credentials : option Credentials)
  | Use (endpointId : string) (breaker : CircuitBreaker.t)
        (log : list (string * IntegrationError)).

Definition manager_step (m : IntegrationManager.t) (op : ManagerOp)
    : IntegrationManager.t :=
  match op with
  | Register endpoint => IntegrationManager.registerEndpoint endpoint m
  | Create endpointId credentials =>
      snd (IntegrationManager.createClient endpointId credentials m)
  | Use endpointId breaker log =>
      match IntegrationManager.getClient endpointId m with
      | None => m
      | Some client =>
          {| IntegrationManager.clients :=
               JsMap.set endpointId
                 {| cl_endpoint := cl_endpoint client;
                    cl_kind := cl_kind client;
                    cl_breaker := breaker;
                    cl_requestLog := log |}
                 (IntegrationManager.clients m);
             IntegrationManager.endpoints := IntegrationManager.endpoints m |}
      end
  end.

(** The manager that a history leads to, from a new one; a creation that
    throws leaves it as it is. *)
Definition run_manager (ops : list ManagerOp) : IntegrationManager.t :=
  fold_left manager_step ops IntegrationManager.new.

(** [x] may stand before [y] in a list that shows the most recent first. *)
Definition no_older (x y : IntegrationError) : Prop :=
  occurredAt y <= occurredAt x.

(** ** The secure API client

    The second class of the file.  Its strings are read as sequences of code
    units below 256.  [fetch] is an oracle, as the transport above: the n-th
    invocation rejects, or gives a response whose body parses to a value or
    fails to; so are the timers, which tell how long a timer set for a while
    takes to fire.  The headers that [makeRequest] adds (a random request id,
    a time stamp) are left out. *)

Module SecureAPIClient.

(** *** String primitives *)

(** White space and line terminators, as [trim] sees them. *)
Definition is_space (c : ascii) : bool :=
  let n := nat_of_ascii c in
  (Nat.leb 9 n && Nat.leb n 13) || Nat.eqb n 32 || Nat.eqb n 160.

Fixpoint trimStart (s : string) : string :=
  match s with
  | EmptyString => EmptyString
  | String c t => if is_space c then trimStart t else s
  end.

Fixpoint trimEnd (s : string) : string :=
  match s with
  | EmptyString => EmptyString
  | String c t =>
      match trimEnd t with
      | EmptyString => if is_space c then EmptyString else String c EmptyString
      | t' => String c t'
      end
  end.

(** [s.trim()] *)
Definition trim (s : string) : string := trimEnd (trimStart s).

(** [l.join(sep)] *)
Definition join (sep : string) (l : list string) : string :=
  String.concat sep l.

(** *** The pattern of the validation

    A regular expression of the shape the code uses: alternatives that are
    a literal, or a literal between two word boundaries, matched without
    regard to the case of the ASCII letters (flag [i]). *)

Inductive Alternative :=
  | Lit (s : string)            (* s *)
  | Word (s : string).          (* \bs\b *)

(** [\w] *)
Definition is_word_char (c : ascii) : bool :=
  let n := nat_of_ascii c in
  (Nat.leb 48 n && Nat.leb n 57) || (Nat.leb 65 n && Nat.leb n 90)
  || Nat.eqb n 95 || (Nat.leb 97 n && Nat.leb n 122).

Definition is_word (c : option ascii) : bool :=
  match c with Some c => is_word_char c | None => false end.

(** [\b] between two neighbours, either of which may be missing. *)
Definition boundary (before after : option ascii) : bool :=
  xorb (is_word before) (is_word after).

Definition first (s : string) : option ascii :=
  match s with EmptyString => None | String c _ => Some c end.

(** The literal [lit] matched at the start of [s]: the last character
    consumed ([prev], when none is) and what is left of [s]. *)
Fixpoint literal_at (lit : string) (prev : option ascii) (s : string)
    : option (option ascii * string) :=
  match lit with
  | EmptyString => Some (prev, s)
  | String l lit' =>
      match s with
      | EmptyString => None
      | String c s' =>
          if Ascii.eqb (Js.lower_ascii c) (Js.lower_ascii l)
          then literal_at lit' (Some c) s'
          else None
      end
  end.

(** An alternative matched at the start of [s], after [prev]. *)
Definition alternative_at (prev : option ascii) (s : string)
    (a : Alternative) : bool :=
  match a with
  | Lit lit => bool_decide (is_Some (literal_at lit prev s))
  | Word lit =>
      boundary prev (first s)
      && match literal_at lit prev s with
         | Some (last, rest) => boundary last (first rest)
         | None => false
         end
  end.

(** A match that starts in [s] at some position, [prev] standing before. *)
Fixpoint test_from (pattern : list Alternative) (prev : option ascii)
    (s : string) : bool :=
  existsb (alternative_at prev s) pattern
  || match s with
     | EmptyString => false
     | String c s' => test_from pattern (Some c) s'
     end.

(** [pattern.test(s)] *)
Definition test (pattern : list Alternative) (s : string) : bool :=
  test_from pattern None s.

Definition sqlInjectionPattern : list Alternative :=
  [Lit "'"; Lit "--"; Word "or"; Word "and"; Word "union"; Word "select";
   Word "insert"; Word "update"; Word "delete"; Word "drop"].

(** *** Types *)

Record APIResponse (T : Type) := {
  api_success : bool;
  api_data : option T;
  api_error : option string
}.
Arguments api_success {T}.
Arguments api_data {T}.
Arguments api_error {T}.

Record SecureSalesforceSearchRequest := {
  query : string;
  entityType : string;
  searchFields : list string;
  returnFields : list string;
  limit : option Z
}.

Inductive Value :=
  | VString (s : string)
  | VStrings (l : list string)
  | VNumber (n : option Z).

Record ValidationError := {
  field : string;
  ve_message : string;
  ve_code : string;
  value : Value
}.

Record ValidationResult := {
  valid : bool;
  errors : list ValidationError
}.

Record RequestInit := {
  ri_method : option string;
  ri_body : option string
}.

(** A response of [fetch] and what [response.json()] gives. *)
Record Response (T : Type) := {
  rs_ok : bool;
  rs_status : Z;
  rs_statusText : string;
  rs_json : Outcome T
}.
Arguments rs_ok {T}.
Arguments rs_status {T}.
Arguments rs_statusText {T}.
Arguments rs_json {T}.

Record Network (T : Type) := {
  fetch : nat -> string -> RequestInit -> Thrown + Response (APIResponse T);
  fetch_latency : nat -> Z;
  (* how long a timer set for [ms] takes to fire *)
  timer : Q -> Z;
  stringify : SecureSalesforceSearchRequest -> string
}.
Arguments fetch {T}.
Arguments fetch_latency {T}.
Arguments timer {T}.
Arguments stringify {T}.

(** *** The client *)

Record t := {
  baseURL : string;
  timeout : Z;
  retryAttempts : Z
}.

(** [new SecureAPIClient()], [url] being [process.env.NEXT_PUBLIC_API_URL] *)
Definition new (url : option string) : t :=
  {| baseURL := match url with
                | Some u => if Js.truthy_string u then u else "/api"
                | None => "/api"
                end;
     timeout := 30000;
     retryAttempts := 3 |}.

Definition setTimeout (timeout : Z) (client : t) : t :=
  {| baseURL := baseURL client; timeout := timeout;
     retryAttempts := retryAttempts client |}.

Definition setRetryAttempts (attempts : Z) (client : t) : t :=
  {| baseURL := baseURL client; timeout := timeout client;
     retryAttempts := attempts |}.

Section Client.

Context {T : Type}.
Variable net : Network T.
Variable client : t.

(** The [try] block of [makeRequest]. *)
Definition attempt (endpoint : string) (options : RequestInit)
    : M (APIResponse T) :=
  fun w =>
    let url := (baseURL client ++ endpoint)%string in
    let n := calls w in
    let w1 :=
      advance (fetch_latency net n) (emit (EvTransport n) (count_call w)) in
    match fetch net n url options with
    | inl thrown => (Throw thrown, w1)
    | inr response =>
        if negb (rs_ok response)
        then (Throw (newError ("HTTP " ++ Js.toString (rs_status response)
                               ++ ": " ++ rs_statusText response)), w1)
        else (rs_json response, w1)
    end.

(** The condition of the [catch] block. *)
Definition retried (retryCount : Z) (error : Thrown) : bool :=
  (retryCount <? retryAttempts client)
  && match error with
     | ErrObj e => negb (Js.includes (message e) "aborted")
     | Undefined => false
     end.

(** [new Promise(resolve => setTimeout(resolve, delay))] *)
Definition pause (delay : Q) (w : World) : World :=
  advance (timer net delay) (emit (EvSleep delay) w).

(** [makeRequest(endpoint, options, retryCount)].  [fuel] bounds the depth
    of the recursion; [retryCount] grows by one in each call and a further
    call needs [retryCount < retryAttempts], so [retryAttempts - retryCount]
    is all the depth there can be (see [makeRequest_fuel]). *)
Fixpoint makeRequest_from (fuel : nat) (endpoint : string)
    (options : RequestInit) (retryCount : Z) (w : World)
    : Outcome (APIResponse T) * World :=
  match attempt endpoint options w with
  | (Ok data, w1) => (Ok data, w1)
  | (Throw error, w1) =>
      if retried retryCount error then
        match fuel with
        | O => (Throw error, w1)
        | S fuel' =>
            let delay := (Qpower 2 retryCount * 1000)%Q in
            makeRequest_from fuel' endpoint options (retryCount + 1)
              (pause delay w1)
        end
      else (Throw error, w1)
  end.

Definition makeRequest (endpoint : string) (options : RequestInit)
    (retryCount : Z) : M (APIResponse T) :=
  makeRequest_from (Z.to_nat (retryAttempts client - retryCount))
    endpoint options retryCount.

Definition validEntityTypes : list string :=
  ["Contact"; "Account"; "Opportunity"; "Lead"].

Definition validateSalesforceSearchRequest
    (request : SecureSalesforceSearchRequest) : ValidationResult :=
  let errors :=
    (if negb (Js.truthy_string (query request))
        || Nat.eqb (String.length (trim (query request))) 0
     then [{| field := "query";
              ve_message := "Query is required and cannot be empty";
              ve_code := "REQUIRED";
              value := VString (query request) |}]
     else [])
    ++ (if Js.truthy_string (query request)
           && Nat.ltb 255 (String.length (query request))
        then [{| field := "query";
                 ve_message := "Query cannot exceed 255 characters";
                 ve_code := "MAX_LENGTH";
                 value := VString (query request) |}]
        else [])
    ++ (if negb (existsb (String.eqb (entityType request)) validEntityTypes)
        then [{| field := "entityType";
                 ve_message := "Entity type must be one of: "
                               ++ join ", " validEntityTypes;
                 ve_code := "INVALID_VALUE";
                 value := VString (entityType request) |}]
        else [])
    ++ (if Nat.eqb (length (searchFields request)) 0
        then [{| field := "searchFields";
                 ve_message := "At least one search field is required";
                 ve_code := "REQUIRED";
                 value := VStrings (searchFields request) |}]
        else [])
    ++ (if Nat.eqb (length (returnFields request)) 0
        then [{| field := "returnFields";
                 ve_message := "At least one return field is required";
                 ve_code := "REQUIRED";
                 value := VStrings (returnFields request) |}]
        else [])
    ++ (if match limit request with
           | Some l => Js.truthy_number l && ((l <? 1) || (200 <? l))
           | None => false
           end
        then [{| field := "limit";
                 ve_message := "Limit must be between 1 and 200";
                 ve_code := "OUT_OF_RANGE";
                 value := VNumber (limit request) |}]
        else [])
    ++ (if test sqlInjectionPattern (query request)
        then [{| field := "query";
                 ve_message := "Query contains potentially unsafe characters";
                 ve_code := "SECURITY_VIOLATION";
                 value := VString (query request) |}]
        else []) in
  {| valid := Nat.eqb (length errors) 0; errors := errors |}.

(** [searchSalesforce(request)]; [response.data!] may be undefined. *)
Definition searchSalesforce (request : SecureSalesforceSearchRequest)
    : M (option T) :=
  fun w =>
    let validationResult := validateSalesforceSearchRequest request in
    if negb (valid validationResult) then
      (Throw (newError ("Validation failed: "
                        ++ join ", " (map ve_message
                                          (errors validationResult)))), w)
    else
      match makeRequest "/v1/salesforce/search"
              {| ri_method := Some "POST";
                 ri_body := Some (stringify net request) |} 0 w with
      | (Throw thrown, w1) => (Throw thrown, w1)
      | (Ok response, w1) =>
          if negb (api_success response) then
            (Throw (newError
                      match api_error response with
                      | Some e => if Js.truthy_string e then e
                                  else "Salesforce search failed"
                      | None => "Salesforce search failed"
                      end), w1)
          else (Ok (api_data response), w1)
      end.

(** [getBuildStatus()] *)
Definition getBuildStatus : M (option T) :=
  fun w =>
    match makeRequest "/v1/build/status"
            {| ri_method := None; ri_body := None |} 0 w with
    | (Throw thrown, w1) => (Throw thrown, w1)
    | (Ok response, w1) =>
        if negb (api_success response) then
          (Throw (newError
                    match api_error response with
                    | Some e => if Js.truthy_string e then e
                                else "Failed to get build status"
                    | None => "Failed to get build status"
                    end), w1)
        else (Ok (api_data response), w1)
    end.

End Client.

End SecureAPIClient.

(** *** What the pattern of the validation looks for *)

(** The character before the end of [s], [prev] standing before [s]. *)
Fixpoint last_char (prev : option ascii) (s : string) : option ascii :=
  match s with
  | EmptyString => prev
  | String c t => last_char (Some c) t
  end.

(** All characters of [s] are word characters. *)
Fixpoint word_chars (s : string) : bool :=
  match s with
  | EmptyString => true
  | String c t => SecureAPIClient.is_word_char c && word_chars t
  end.

(** [word] stands in [s] as a whole word, in any letter case: it is not
    preceded and not followed by a word character. *)
Definition whole_word (word s : string) : Prop :=
  exists pre mid post,
    s = (pre ++ mid ++ post)%string
    /\ Js.toLowerCase mid = word
    /\ SecureAPIClient.is_word (last_char None pre) = false
    /\ SecureAPIClient.is_word (SecureAPIClient.first post) = false.

(** [lit] stands somewhere in [s]. *)
Definition substring (lit s : string) : Prop :=
  exists pre post, s = (pre ++ lit ++ post)%string.

Definition sql_keywords : list string :=
  ["or"; "and"; "union"; "select"; "insert"; "update"; "delete"; "drop"].

(** A request that the validation has nothing to say against. *)
Definition acceptable (request : SecureAPIClient.SecureSalesforceSearchRequest)
    : Prop :=
  let q := SecureAPIClient.query request in
  SecureAPIClient.trim q <> EmptyString
  /\ (String.length q <= 255)%nat
  /\ SecureAPIClient.entityType request ∈ SecureAPIClient.validEntityTypes
  /\ SecureAPIClient.searchFields request <> []
  /\ SecureAPIClient.returnFields request <> []
  /\ match SecureAPIClient.limit request with
     | Some l => l = 0 \/ 1 <= l <= 200
     | None => True
     end
  /\ ~ substring "'" q
  /\ ~ substring "--" q
  /\ Forall (fun word => ~ whole_word word q) sql_keywords.

(** What the n-th invocation of [fetch] makes of an attempt. *)
Definition answer {T} (net : SecureAPIClient.Network T)
    (client : SecureAPIClient.t) (endpoint : string)
    (options : SecureAPIClient.RequestInit) (n : nat)
    : Outcome (SecureAPIClient.APIResponse T) :=
  match SecureAPIClient.fetch net n
          (SecureAPIClient.baseURL client ++ endpoint)%string options with
  | inl thrown => Throw thrown
  | inr response =>
      if negb (SecureAPIClient.rs_ok response)
      then Throw (newError ("HTTP "
                            ++ Js.toString (SecureAPIClient.rs_status response)
                            ++ ": " ++ SecureAPIClient.rs_statusText response))
      else SecureAPIClient.rs_json response
  end.

(** The attempt whose answer is [r] is the last one: it succeeded, or its
    error is not one that is retried after [retryCount] retries. *)
Definition final {T} (client : SecureAPIClient.t) (retryCount : Z)
    (r : Outcome T) : Prop :=
  match r with
  | Ok _ => True
  | Throw error => SecureAPIClient.retried client retryCount error = false
  end.

(** The fetches and the pauses of a request that is retried [k] times after
    [retryCount] retries, the first fetch being the n-th. *)
Definition backoff_timeline (n : nat) (retryCount : Z) (k : nat)
    : list Event :=
  flat_map (fun i => [EvTransport (n + i);
                      EvSleep (Qpower 2 (retryCount + Z.of_nat i) * 1000)%Q])
           (seq 0 k)
  ++ [EvTransport (n + k)].

(** * Properties *)

(** ** Error classification (C8) *)

Section Classification.

Import ErrorClassifier Claimed.

Lemma mentions_two msg a b :
  mentions msg [a; b] = Js.includes msg a || Js.includes msg b.
Proof. unfold mentions; simpl. now rewrite orb_false_r. Qed.

Lemma mentions_three msg a b c :
  mentions msg [a; b; c]
  = Js.includes msg a || Js.includes msg b || Js.includes msg c.
Proof. unfold mentions; simpl. now rewrite orb_false_r, orb_assoc. Qed.

Lemma mentions_four msg a b c d :
  mentions msg [a; b; c; d]
  = Js.includes msg a || Js.includes msg b || Js.includes msg c
    || Js.includes msg d.
Proof. unfold mentions; simpl. now rewrite orb_false_r, !orb_assoc. Qed.

Lemma classifyMessage_precedence msg :
  classifyMessage msg =
    if mentions msg timeout_terms then timeout_error
    else if mentions msg connection_terms then connection_error
    else if mentions msg auth_terms then authentication_error
    else if mentions msg rate_limit_terms then rate_limit
    else server_error.
Proof.
  unfold timeout_terms, connection_terms, auth_terms, rate_limit_terms.
  rewrite !mentions_two, mentions_three, mentions_four.
  reflexivity.
Qed.

(** C8, as stated, fails: an error that carries a response whose status is
    below 400 (a service that answers 200 with an error payload) is not "a
    remaining case" classified server_error; the code falls through to the
    message patterns. *)
Lemma C8_status_below_400_counterexample :
  classifyError (Some (response_error "Authentication token expired" 200))
                (response (response_error "Authentication token expired" 200))
  = authentication_error
  /\ Claimed.classify
       (Some (response_error "Authentication token expired" 200))
       (response (response_error "Authentication token expired" 200))
     = server_error
  /\ classifyError (Some (response_error "Authentication token expired" 200))
                   (response (response_error "Authentication token expired" 200))
     <> Claimed.classify
          (Some (response_error "Authentication token expired" 200))
          (response (response_error "Authentication token expired" 200)).
Proof. vm_compute. repeat split. discriminate. Qed.

(** C8, amended: a truthy status of 400 or more decides alone (401/403
    authentication_error, 429 rate_limit, other 4xx validation_error, 500 and
    above server_error); with no response, no status, status 0 or a status
    below 400 the lower-cased message decides, by the first group of terms it
    mentions (timeout, connection/network, auth, rate limit), and
    server_error is the result when it mentions none. *)
Theorem C8_classification_precedence
    (error : option JsError) (response : option HttpResponse) :
  let kind := classifyError error response in
  let msg := lowered_message error in
  (forall s, status_of response = Some s ->
     ((s = 401 \/ s = 403) -> kind = authentication_error)
     /\ (s = 429 -> kind = rate_limit)
     /\ (400 <= s < 500 -> s <> 401 -> s <> 403 -> s <> 429 ->
         kind = validation_error)
     /\ (500 <= s -> kind = server_error))
  /\ ((forall s, status_of response = Some s -> s < 400) ->
      (mentions msg timeout_terms = true -> kind = timeout_error)
      /\ (mentions msg timeout_terms = false ->
          mentions msg connection_terms = true -> kind = connection_error)
      /\ (mentions msg timeout_terms = false ->
          mentions msg connection_terms = false ->
          mentions msg auth_terms = true -> kind = authentication_error)
      /\ (mentions msg timeout_terms = false ->
          mentions msg connection_terms = false ->
          mentions msg auth_terms = false ->
          mentions msg rate_limit_terms = true -> kind = rate_limit)
      /\ (mentions msg timeout_terms = false ->
          mentions msg connection_terms = false ->
          mentions msg auth_terms = false ->
          mentions msg rate_limit_terms = false -> kind = server_error)).
Proof.
  cbv zeta. split.
  - intros s Hs. unfold classifyError. rewrite Hs.
    repeat split.
    + intros [-> | ->]; reflexivity.
    + intros ->; reflexivity.
    + intros [Hlo Hhi] H1 H3 H9.
      destruct (Z.eqb_spec s 401); [lia |].
      destruct (Z.eqb_spec s 403); [lia |].
      destruct (Z.eqb_spec s 429); [lia |].
      destruct (Z.leb_spec 400 s); [| lia].
      destruct (Z.ltb_spec s 500); [| lia].
      reflexivity.
    + intros Hlo.
      destruct (Z.eqb_spec s 401); [lia |].
      destruct (Z.eqb_spec s 403); [lia |].
      destruct (Z.eqb_spec s 429); [lia |].
      destruct (Z.leb_spec 400 s); [| lia].
      destruct (Z.ltb_spec s 500); [lia |].
      destruct (Z.leb_spec 500 s); [| lia].
      reflexivity.
  - intros Hlow.
    assert (Hmsg : classifyError error response
                   = classifyMessage (lowered_message error)).
    { unfold classifyError.
      destruct (status_of response) as [s |] eqn:Hs; [| reflexivity].
      specialize (Hlow s eq_refl).
      destruct (Z.eqb_spec s 401); [lia |].
      destruct (Z.eqb_spec s 403); [lia |].
      destruct (Z.eqb_spec s 429); [lia |].
      destruct (Z.leb_spec 400 s); [lia |].
      destruct (Z.leb_spec 500 s); [lia |].
      reflexivity. }
    rewrite Hmsg, classifyMessage_precedence.
    repeat split; intros; repeat
      match goal with H : mentions _ _ = _ |- _ => rewrite H; clear H end;
      reflexivity.
Qed.

(** C8 on a 200 response with an authentication message, and on a 429
    response. *)
Lemma C8_classification_precedence_witness :
  classifyError (Some (response_error "Authentication token expired" 200))
                (response (response_error "Authentication token expired" 200))
  = authentication_error
  /\ classifyError (Some (response_error "Too Many Requests" 429))
                   (response (response_error "Too Many Requests" 429))
     = rate_limit.
Proof.
  split.
  - destruct (C8_classification_precedence
                (Some (response_error "Authentication token expired" 200))
                (response (response_error "Authentication token expired" 200)))
      as [_ Hmessage].
    destruct Hmessage as (_ & _ & Hauth & _).
    + intros s Hs. vm_compute in Hs. injection Hs as <-. lia.
    + apply Hauth; vm_compute; reflexivity.
  - destruct (C8_classification_precedence
                (Some (response_error "Too Many Requests" 429))
                (response (response_error "Too Many Requests" 429)))
      as [Hstatus _].
    destruct (Hstatus 429 eq_refl) as (_ & H429 & _).
    exact (H429 eq_refl).
Defined.

End Classification.

(** ** Redaction of the request snapshot (C9) *)

Section Redaction.

Import IntegrationClient Claimed.

Lemma redact_lookup (m : gmap string string) (header name : string) :
  redact m header !! name =
    if decide (name = header)
    then (fun v => if Js.truthy_string v then REDACTED else v) <$> m !! name
    else m !! name.
Proof.
  unfold redact. destruct (decide (name = header)) as [-> | Hne].
  - destruct (m !! header) as [v |] eqn:Hv; [| by rewrite Hv].
    destruct (Js.truthy_string v) eqn:Ht.
    + rewrite lookup_insert_eq. simpl. by rewrite Ht.
    + rewrite Hv. simpl. by rewrite Ht.
  - destruct (m !! header) as [v |]; [| done].
    destruct (Js.truthy_string v); [| done].
    by rewrite lookup_insert_ne.
Qed.

Lemma sanitizeHeaders_lookup (h : gmap string string) (name : string) :
  sanitizeHeaders h !! name = sanitized name <$> h !! name.
Proof.
  unfold sanitizeHeaders, sensitiveHeaders. simpl.
  rewrite !redact_lookup.
  unfold sanitized, sensitiveHeaders. simpl.
  repeat case_decide; subst; try discriminate.
  - destruct (h !! "cookie"%string); reflexivity.
  - destruct (h !! "x-api-key"%string); reflexivity.
  - destruct (h !! "authorization"%string); reflexivity.
  - rewrite !(proj2 (String.eqb_neq _ _)) by assumption.
    destruct (h !! name); reflexivity.
Qed.

Lemma logError_requestLog (e : IntegrationError) (w : World) :
  requestLog (logError e w) = <[ie_id e := e]> (requestLog w).
Proof. unfold logError. destruct ErrorClassifier.shouldAlert; reflexivity. Qed.

End Redaction.

(** ** Errors that are not retried (C2) *)

Section NoRetry.

Import RetryHandler.

Context {T : Type}.
Variable env : Env T.
Variable config : RetryConfig.

(** When [shouldRetry] refuses the error of the first attempt, the operation
    runs once, its error is rethrown, and nothing else happens: no sleep, no
    further attempt. *)
Lemma execute_refused {A} (operation : M A) (w w1 : World) (e : JsError) :
  0 < maxAttempts config ->
  operation w = (Throw (ErrObj e), w1) ->
  shouldRetry (ErrObj e) = Ok false ->
  execute env config operation w = (Throw (ErrObj e), w1).
Proof.
  intros Hmax Hop Hno. unfold execute.
  destruct (Z.to_nat (maxAttempts config)) as [| fuel] eqn:Hfuel; [lia |].
  cbn [loop].
  destruct (Z.ltb_spec 0 (maxAttempts config)); [| lia].
  now rewrite Hop, Hno.
Qed.

End NoRetry.

(** C2: the code retries errors that the classifier files under
    authentication_error and validation_error.  [shouldRetry] looks for
    the substrings 401, authentication, 400 and validation in the message
    and does not consult the classifier: "HTTP 403: Forbidden", which both
    concrete transports throw, is an authentication_error and is attempted
    three times with both backoff delays; an error carrying a 422 response
    is a validation_error and is retried the same way. *)
Lemma C2_classified_errors_are_retried :
  let config := no_jitter DEFAULT_RETRY_CONFIG in
  let request := sample_request ∅ in
  let forbidden := http_error "HTTP 403: Forbidden" in
  let unprocessable :=
    response_error "Request failed with status code 422" 422 in
  let run e :=
    RetryHandler.execute (always_rejecting e) config
      (IntegrationClient.executeRequest (always_rejecting e) request "req_1")
      (world_at 0) in
  ErrorClassifier.classifyError (Some forbidden) (response forbidden)
    = authentication_error
  /\ fst (run forbidden) = Throw (ErrObj forbidden)
  /\ calls (snd (run forbidden)) = 3%nat
  /\ trace (snd (run forbidden))
     = [EvTransport 0; EvSleep 1000; EvTransport 1; EvSleep 2000; EvTransport 2]
  /\ ErrorClassifier.classifyError (Some unprocessable) (response unprocessable)
     = validation_error
  /\ calls (snd (run unprocessable)) = 3%nat
  /\ trace (snd (run unprocessable))
     = [EvTransport 0; EvSleep 1000; EvTransport 1; EvSleep 2000; EvTransport 2].
Proof. vm_compute. repeat split; reflexivity. Qed.

Example unauthorized_is_not_retried :
  let e := http_error "HTTP 401: Unauthorized" in
  let r :=
    RetryHandler.execute (always_rejecting e) (no_jitter DEFAULT_RETRY_CONFIG)
      (IntegrationClient.executeRequest (always_rejecting e)
         (sample_request ∅) "req_1")
      (world_at 0) in
  fst r = Throw (ErrObj e) /\ trace (snd r) = [EvTransport 0].
Proof. vm_compute. split; reflexivity. Qed.

(** ** Admission by an open breaker (C3) *)

Section Admission.

Import CircuitBreaker.

Variable endpointId : string.
Variable config : CircuitBreakerConfig.


End Admission.


(** ** The breaker as a state machine (C4, C5, C6) *)

Section BreakerMachine.

Import CircuitBreaker.

Variable endpointId : string.
Variable config : CircuitBreakerConfig.

Local Abbreviation exec := (CircuitBreaker.execute endpointId config).
Local Abbreviation runs := (run_calls endpointId config).
Local Abbreviation history := (run_history endpointId config).

(** A call through an enabled breaker that is not OPEN runs the operation
    and settles by its outcome. *)
Lemma execute_admitted {A} (operation : M A) (b : t) (w : World) :
  enabled config = true ->
  state b <> OPEN ->
  exec operation b w
  = match operation w with
    | (Ok result, w2) =>
        (Ok result, fst (onSuccess b w2), snd (onSuccess b w2))
    | (Throw error, w2) =>
        (Throw error, fst (onFailure config b w2),
         snd (onFailure config b w2))
    end.
Proof.
  intros Hen Hst. unfold CircuitBreaker.execute. rewrite Hen. cbn [negb].
  destruct (state b) eqn:E; try congruence;
    destruct (operation w) as [[v | e] w2];
    try (destruct (onSuccess b w2)); try (destruct (onFailure config b w2));
    reflexivity.
Qed.

Lemma onFailure_now (b : t) (w : World) :
  now (snd (onFailure config b w)) = now w.
Proof.
  unfold onFailure. destruct (failureThreshold config <=? _); reflexivity.
Qed.

Lemma onFailure_fields (b : t) (w : World) :
  let b' := fst (onFailure config b w) in
  failures b' = failures b + 1
  /\ lastFailureTime b' = now w
  /\ successCount b' = 0
  /\ (failureThreshold config <= failures b + 1 -> state b' = OPEN)
  /\ (failures b + 1 < failureThreshold config -> state b' = state b).
Proof.
  unfold onFailure.
  destruct (Z.leb_spec (failureThreshold config) (failures b + 1));
    cbn; repeat split; intros; try reflexivity; lia.
Qed.

(** Failures on a breaker that is not OPEN: the one that brings the counter
    to the threshold opens it. *)
Lemma failures_reach_threshold {A} (ops : list (M A)) :
  enabled config = true ->
  forall (b : t) (w : World),
    state b <> OPEN ->
    ops <> [] ->
    failures b + Z.of_nat (length ops) = failureThreshold config ->
    all_thrown (fst (fst (runs ops b w))) = true ->
    let b' := snd (fst (runs ops b w)) in
    let w' := snd (runs ops b w) in
    state b' = OPEN
    /\ failures b' = failureThreshold config
    /\ lastFailureTime b' = now w'.
Proof.
  intros Hen. induction ops as [| op ops IH]; intros b w Hst Hne Hlen Hall.
  - congruence.
  - cbn [run_calls] in *.
    rewrite (execute_admitted op b w Hen Hst) in *.
    destruct (op w) as [[v | e] w2].
    + destruct (run_calls _ _ ops _ _) as [[rs b2] w3].
      cbn in Hall. discriminate.
    + pose proof (onFailure_fields b w2) as (Hf & Hl & _ & Hopen & Hkeep).
      pose proof (onFailure_now b w2) as Hnow.
      destruct ops as [| op' ops'].
      * cbn. cbn [length] in Hlen.
        repeat split; [apply Hopen; lia | lia | lia].
      * specialize (IH (fst (onFailure config b w2))
                       (snd (onFailure config b w2))).
        cbn [length] in Hlen.
        destruct (run_calls _ _ (op' :: ops') _ _)
          as [[rs b2] w3] eqn:Erun.
        cbn [fst snd] in *.
        apply IH.
        -- rewrite Hkeep by lia. exact Hst.
        -- discriminate.
        -- cbn [length]. lia.
        -- cbn in Hall. exact Hall.
Qed.

(** C4: on an enabled breaker with failureThreshold F of at least 1, F calls
    from the initial state that all fail leave the breaker OPEN, with F
    failures counted and lastFailureTime the clock reading at the last
    failure. *)
Theorem C4_threshold_failures_open {A} (ops : list (M A)) (w : World) :
  enabled config = true ->
  1 <= failureThreshold config ->
  Z.of_nat (length ops) = failureThreshold config ->
  all_thrown (fst (fst (runs ops initial w))) = true ->
  let b' := snd (fst (runs ops initial w)) in
  let w' := snd (runs ops initial w) in
  state b' = OPEN
  /\ failures b' = failureThreshold config
  /\ lastFailureTime b' = now w'.
Proof.
  intros Hen HF Hlen Hall.
  apply failures_reach_threshold;
    [ assumption | discriminate | | cbn [failures initial]; lia | assumption ].
  destruct ops; [cbn in Hlen; lia | discriminate].
Qed.

End BreakerMachine.

(** C4 with failureThreshold 5: five failures of 7 ms each, from t = 100. *)
Lemma C4_threshold_failures_open_witness :
  let config := DEFAULT_CIRCUIT_BREAKER_CONFIG in
  let e := http_error "HTTP 503: Service Unavailable" in
  let ops : list (M unit) := repeat (failing e 7) 5 in
  let b' := snd (fst (run_calls "crm" config ops CircuitBreaker.initial
                        (world_at 100))) in
  CircuitBreaker.state b' = OPEN
  /\ CircuitBreaker.failures b' = 5
  /\ CircuitBreaker.lastFailureTime b' = 135.
Proof.
  exact (C4_threshold_failures_open "crm" DEFAULT_CIRCUIT_BREAKER_CONFIG
           (repeat (failing (http_error "HTTP 503: Service Unavailable") 7) 5)
           (world_at 100) eq_refl ltac:(vm_compute; discriminate)
           eq_refl eq_refl).
Defined.

(** ** Calls that overlap *)

Section OverlappingCalls.

Import CircuitBreaker.

Variable endpointId : string.
Variable config : CircuitBreakerConfig.

(** A call is its admission, its operation and its settlement. *)
Lemma execute_admission_settle {A} (operation : M A) (b : t) (w : World) :
  enabled config = true ->
  execute endpointId config operation b w
  = match admission config b w with
    | None => (Throw (open_error endpointId), b, w)
    | Some (b1, w1) =>
        let '(r, w2) := operation w1 in
        let '(b3, w3) := settle config (is_ok r) b1 w2 in
        (r, b3, w3)
    end.
Proof.
  intros Hen. unfold execute, admission, settle. rewrite Hen. cbn [negb].
  destruct (state b);
    [| destruct (now w - lastFailureTime b <? resetTimeout config) |];
    try reflexivity;
    destruct (operation _) as [[v | e] w2]; reflexivity.
Qed.

Lemma run_moves_app (ms1 ms2 : list Move) (r : Running) :
  run_moves config (ms1 ++ ms2) r
  = match run_moves config ms1 r with
    | Some r1 => run_moves config ms2 r1
    | None => None
    end.
Proof.
  revert r. induction ms1 as [| m ms1 IH]; intros r; cbn [app run_moves];
    [reflexivity |].
  destruct (move config m r); [apply IH | reflexivity].
Qed.

Lemma settle_sound (ok : bool) (b : t) (w : World) :
  1 <= failureThreshold config ->
  counters_sound config b ->
  counters_sound config (fst (settle config ok b w)).
Proof.
  intros HF (Hf & Hs & Hc). unfold settle, onSuccess, onFailure, counters_sound.
  destruct ok.
  - destruct (state b) eqn:E;
      [| | destruct (Z.leb_spec 3 (successCount b + 1))];
      cbn [fst state failures successCount];
      repeat (split; [lia |]); intros; try discriminate; lia.
  - destruct (Z.leb_spec (failureThreshold config) (failures b + 1));
      cbn [fst state failures successCount];
      repeat (split; [lia |]); intros; try discriminate; lia.
Qed.

Lemma move_sound (m : Move) (r r' : Running) :
  1 <= failureThreshold config ->
  counters_sound config (r_breaker r) ->
  move config m r = Some r' ->
  counters_sound config (r_breaker r').
Proof.
  intros HF Hinv Hm. destruct m as [| ok | | dt]; cbn [move] in Hm.
  - destruct (negb (enabled config)); [injection Hm as <-; exact Hinv |].
    unfold admission in Hm.
    destruct (state (r_breaker r)) eqn:E;
      [| destruct (_ <? _) |];
      injection Hm as <-; cbn [r_breaker fst]; try exact Hinv.
    destruct Hinv as (Hf & Hs & _). unfold counters_sound.
    cbn [half_open state failures successCount].
    repeat (split; [assumption |]). discriminate.
  - destruct (in_flight r); [discriminate |].
    destruct (negb (enabled config)); injection Hm as <-; cbn [r_breaker];
      [exact Hinv | apply settle_sound; assumption].
  - injection Hm as <-. cbn. unfold counters_sound. cbn.
    repeat (split; [lia |]). intros _. lia.
  - injection Hm as <-. exact Hinv.
Qed.

(** Whatever a breaker has been through, overlapping calls included, its
    counters are not negative and a CLOSED breaker has counted fewer
    failures than the threshold. *)
Lemma run_moves_sound (ms : list Move) :
  1 <= failureThreshold config ->
  forall r r',
    counters_sound config (r_breaker r) ->
    run_moves config ms r = Some r' ->
    counters_sound config (r_breaker r').
Proof.
  intros HF. induction ms as [| m ms IH]; intros r r' Hinv Hrun;
    cbn [run_moves] in Hrun.
  - injection Hrun as <-. exact Hinv.
  - destruct (move config m r) as [r1 |] eqn:Hm; [| discriminate].
    exact (IH r1 r' (move_sound m r r1 HF Hinv Hm) Hrun).
Qed.

Lemma settle_nonneg (ok : bool) (b : t) (w : World) :
  0 <= successCount b -> 0 <= successCount (fst (settle config ok b w)).
Proof.
  intros Hs. unfold settle, onSuccess, onFailure.
  destruct ok.
  - destruct (state b);
      [| | destruct (Z.leb_spec 3 (successCount b + 1))];
      cbn [fst successCount]; lia.
  - destruct (failureThreshold config <=? failures b + 1);
      cbn [fst successCount]; lia.
Qed.

(** The success counter is never negative. *)
Lemma run_moves_nonneg (ms : list Move) :
  forall r r',
    0 <= successCount (r_breaker r) ->
    run_moves config ms r = Some r' ->
    0 <= successCount (r_breaker r').
Proof.
  induction ms as [| m ms IH]; intros r r' Hinv Hrun; cbn [run_moves] in Hrun.
  - injection Hrun as <-. exact Hinv.
  - destruct (move config m r) as [r1 |] eqn:Hm; [| discriminate].
    apply (IH r1 r'); [| exact Hrun].
    destruct m as [| ok | | dt]; cbn [move] in Hm.
    + destruct (negb (enabled config)); [injection Hm as <-; exact Hinv |].
      unfold admission in Hm.
      destruct (state (r_breaker r)); [| destruct (_ <? _) |];
        injection Hm as <-; exact Hinv.
    + destruct (in_flight r); [discriminate |].
      destruct (negb (enabled config)); injection Hm as <-; cbn [r_breaker];
        [exact Hinv | apply settle_nonneg, Hinv].
    + injection Hm as <-. cbn. lia.
    + injection Hm as <-. exact Hinv.
Qed.

(** Calls that enter a breaker that is not OPEN are all admitted. *)
Lemma enter_admitted (n : nat) :
  enabled config = true ->
  forall b w k,
    state b <> OPEN ->
    run_moves config (repeat Enter n)
      {| r_breaker := b; r_world := w; in_flight := k |}
    = Some {| r_breaker := b; r_world := w; in_flight := (k + n)%nat |}.
Proof.
  intros Hen. induction n as [| n IH]; intros b w k Hst;
    cbn [repeat run_moves move r_breaker r_world in_flight].
  - now rewrite Nat.add_0_r.
  - rewrite Hen. cbn [negb]. unfold admission.
    destruct (state b) eqn:E; try congruence; cbn [fst snd];
      rewrite <- E in Hst; rewrite (IH b w (S k) Hst); do 2 f_equal; lia.
Qed.

(** Failures that settle one after the other open the breaker when the
    counter reaches the threshold. *)
Lemma failures_open (n : nat) :
  enabled config = true ->
  forall b w k,
    failures b + Z.of_nat (S n) = failureThreshold config ->
    exists r,
      run_moves config (repeat (Leave false) (S n))
        {| r_breaker := b; r_world := w; in_flight := (S n + k)%nat |}
      = Some r
      /\ in_flight r = k
      /\ state (r_breaker r) = OPEN
      /\ failures (r_breaker r) = failureThreshold config
      /\ successCount (r_breaker r) = 0
      /\ lastFailureTime (r_breaker r) = now w
      /\ now (r_world r) = now w.
Proof.
  intros Hen. induction n as [| n IH]; intros b w k Hsum.
  - cbn [repeat run_moves move Nat.add r_breaker r_world in_flight].
    rewrite Hen. cbn [negb]. unfold settle, onFailure.
    destruct (Z.leb_spec (failureThreshold config) (failures b + 1)); [| lia].
    eexists. split; [reflexivity |].
    cbn. repeat split; lia.
  - change (repeat (Leave false) (S (S n)))
      with (Leave false :: repeat (Leave false) (S n)).
    cbn [run_moves move Nat.add r_breaker r_world in_flight].
    rewrite Hen. cbn [negb]. unfold settle, onFailure.
    destruct (Z.leb_spec (failureThreshold config) (failures b + 1)); [lia |].
    cbn [fst snd].
    destruct (IH {| state := state b; failures := failures b + 1;
                    lastFailureTime := now w; successCount := 0 |} w k)
      as (r & Hrun & Hrest); [cbn [failures]; lia |].
    exists r. split; [exact Hrun | exact Hrest].
Qed.

(** Overlapping calls can leave an OPEN breaker with no failure counted:
    one call more than the threshold enters while the breaker is CLOSED, as
    many as the threshold fail, which opens the breaker, and then the last
    one succeeds. *)
Lemma overlap_resets_counter (w0 : World) :
  enabled config = true ->
  1 <= failureThreshold config ->
  let n := Z.to_nat (failureThreshold config) in
  exists r,
    run_moves config
      (repeat Enter (S n) ++ repeat (Leave false) n ++ [Leave true])
      (start w0)
    = Some r
    /\ in_flight r = 0%nat
    /\ state (r_breaker r) = OPEN
    /\ failures (r_breaker r) = 0
    /\ successCount (r_breaker r) = 1
    /\ lastFailureTime (r_breaker r) = now w0
    /\ now (r_world r) = now w0.
Proof.
  intros Hen HF. cbv zeta.
  destruct (Z.to_nat (failureThreshold config)) as [| n] eqn:Hn; [lia |].
  rewrite !run_moves_app. unfold start.
  rewrite (enter_admitted (S (S n)) Hen initial w0 0 ltac:(discriminate)).
  replace (0 + S (S n))%nat with (S n + 1)%nat by lia.
  rewrite run_moves_app.
  destruct (failures_open n Hen initial w0 1%nat) as (r & -> & Hk & Hst & Hf
    & Hs & Hl & Hnow); [cbn [failures initial]; lia |].
  destruct r as [b w k]. cbn [in_flight r_breaker r_world] in *. subst k.
  cbn [run_moves move in_flight r_breaker r_world]. rewrite Hen. cbn [negb].
  unfold settle, onSuccess. rewrite Hst. cbn [fst snd].
  eexists. split; [reflexivity |].
  cbn [in_flight r_breaker r_world state failures successCount
       lastFailureTime].
  repeat split; try assumption; lia.
Qed.

End OverlappingCalls.

Section BreakerReachability.

Import CircuitBreaker.

Variable endpointId : string.
Variable config : CircuitBreakerConfig.

Lemma onSuccess_inv (b : t) (w : World) :
  0 <= successCount b ->
  (state b = HALF_OPEN -> successCount b < 3) ->
  state b <> OPEN ->
  breaker_inv config (fst (onSuccess b w)).
Proof.
  intros Hsc Hhalf Hst. unfold onSuccess, breaker_inv.
  destruct (state b) eqn:E; try congruence.
  - cbn. repeat split; try lia; discriminate.
  - destruct (Z.leb_spec 3 (successCount b + 1)); cbn;
      repeat split; try lia; discriminate.
Qed.

Lemma onFailure_inv (b : t) (w : World) :
  state b <> OPEN ->
  breaker_inv config (fst (onFailure config b w)).
Proof.
  intros Hst. unfold onFailure, breaker_inv.
  destruct (Z.leb_spec (failureThreshold config) (failures b + 1)); cbn;
    repeat split; try lia; try discriminate; congruence.
Qed.

Lemma execute_inv {A} (operation : M A) (b : t) (w : World) :
  breaker_inv config b ->
  breaker_inv config (snd (fst (execute endpointId config operation b w))).
Proof.
  intros Hinv. pose proof Hinv as (Hsc & Hhalf & Hopen). unfold execute.
  destruct (enabled config); cbn [negb];
    [| destruct (operation w); exact Hinv ].
  destruct (state b) eqn:E.
  - destruct (operation w) as [[v | e] w2].
    + pose proof (onSuccess_inv b w2 Hsc
                  ltac:(intros Hh; apply Hhalf; congruence) ltac:(congruence)).
      destruct (onSuccess b w2); assumption.
    + pose proof (onFailure_inv b w2 ltac:(congruence)).
      destruct (onFailure config b w2); assumption.
  - destruct (now w - lastFailureTime b <? resetTimeout config).
    + exact Hinv.
    + destruct (Hopen eq_refl) as [Hzero _].
      destruct (operation _) as [[v | e] w2].
      * pose proof (onSuccess_inv (half_open b) w2) as H.
        cbn [half_open successCount state] in H.
        specialize (H ltac:(lia) ltac:(lia) ltac:(discriminate)).
        destruct (onSuccess (half_open b) w2); assumption.
      * pose proof (onFailure_inv (half_open b) w2 ltac:(discriminate)).
        destruct (onFailure config (half_open b) w2); assumption.
  - destruct (operation w) as [[v | e] w2].
    + pose proof (onSuccess_inv b w2 Hsc
                  ltac:(intros Hh; apply Hhalf; congruence) ltac:(congruence)).
      destruct (onSuccess b w2); assumption.
    + pose proof (onFailure_inv b w2 ltac:(congruence)).
      destruct (onFailure config b w2); assumption.
Qed.

Lemma act_inv {A} (a : Action A) (b : t) (w : World) :
  breaker_inv config b -> breaker_inv config (fst (act endpointId config a b w)).
Proof.
  intros Hinv. destruct a as [op | | dt]; cbn [act].
  - pose proof (execute_inv op b w Hinv) as H.
    destruct (execute endpointId config op b w) as [[r b1] w1]. exact H.
  - cbn. repeat split; try lia; discriminate.
  - exact Hinv.
Qed.

Lemma history_inv {A} (hist : list (Action A)) (w : World) :
  breaker_inv config (fst (run_history endpointId config hist w)).
Proof.
  unfold run_history.
  assert (Hinit : breaker_inv config (fst (initial, w))).
  { cbn. repeat split; try lia; discriminate. }
  revert Hinit. generalize (initial, w).
  induction hist as [| a hist IH]; intros bw Hbw; cbn [fold_left].
  - exact Hbw.
  - apply IH. apply act_inv. exact Hbw.
Qed.


End BreakerReachability.



Section BreakerRecovery.

Import CircuitBreaker.

Variable endpointId : string.
Variable config : CircuitBreakerConfig.

Lemma onSuccess_succeeded (b : t) (w : World) :
  fst (onSuccess b w) = succeeded b.
Proof.
  unfold succeeded, onSuccess.
  destruct (state b); try reflexivity.
  destruct (3 <=? successCount b + 1); reflexivity.
Qed.

Lemma succeeded_not_open (b : t) : state b <> OPEN -> state (succeeded b) <> OPEN.
Proof.
  unfold succeeded, onSuccess. intros Hst.
  destruct (state b) eqn:E; try congruence; cbn; try congruence.
  destruct (3 <=? successCount b + 1); cbn; congruence.
Qed.

(** Calls that all succeed, on an enabled breaker that is not OPEN: after the
    first [n] of them the breaker has counted [n] successes. *)
Lemma run_calls_successes {A} (ops : list (M A)) :
  enabled config = true ->
  forall (b : t) (w : World) (n : nat),
    state b <> OPEN ->
    all_ok (fst (fst (run_calls endpointId config ops b w))) = true ->
    (n <= length ops)%nat ->
    snd (fst (run_calls endpointId config (firstn n ops) b w))
    = Nat.iter n succeeded b.
Proof.
  intros Hen. induction ops as [| op ops IH]; intros b w n Hst Hall Hn.
  - cbn in Hn. replace n with 0%nat by lia. reflexivity.
  - destruct n as [| n]; [reflexivity |].
    rewrite Nat.iter_succ_r. cbn [firstn run_calls] in *.
    rewrite (execute_admitted endpointId config op b w Hen Hst) in *.
    destruct (op w) as [[v | e] w2].
    + specialize (IH (fst (onSuccess b w2)) (snd (onSuccess b w2)) n).
      rewrite onSuccess_succeeded in *.
      destruct (run_calls endpointId config ops _ _) as [[rs b2] w3].
      destruct (run_calls endpointId config (firstn n ops) _ _)
        as [[rs' b2'] w3'].
      cbn [fst snd] in *.
      apply IH.
      * apply succeeded_not_open, Hst.
      * cbn in Hall. exact Hall.
      * cbn in Hn. lia.
    + destruct (run_calls endpointId config ops _ _) as [[rs b2] w3].
      cbn in Hall. discriminate.
Qed.

(** A call on an OPEN breaker once resetTimeout has elapsed is a call on the
    HALF_OPEN breaker, in the world that has seen the change announced. *)
Lemma execute_probe {A} (operation : M A) (b : t) (w : World) :
  enabled config = true ->
  state b = OPEN ->
  resetTimeout config <= now w - lastFailureTime b ->
  execute endpointId config operation b w
  = execute endpointId config operation (half_open b)
      (emit (EvStateChange HALF_OPEN) w).
Proof.
  intros Hen Hst Hlate. unfold execute. rewrite Hen, Hst. cbn [negb].
  destruct (Z.ltb_spec (now w - lastFailureTime b) (resetTimeout config));
    [lia | reflexivity].
Qed.

Lemma successes_cons (m : Move) (ms : list Move) :
  successes (m :: ms)
  = ((match m with Leave true => 1 | _ => 0 end) + successes ms)%nat.
Proof. unfold successes. cbn [List.filter]. now destruct m as [| [|] | |]. Qed.

Lemma split_successes (ms : list Move) :
  forall k,
    (k < successes ms)%nat ->
    exists pre post,
      ms = pre ++ Leave true :: post
      /\ successes pre = k
      /\ successes post = (successes ms - S k)%nat.
Proof.
  induction ms as [| m ms IH]; intros k Hk; [cbn in Hk; lia |].
  rewrite successes_cons in Hk |- *.
  destruct m as [| [|] | | dt];
    try (destruct (IH k ltac:(lia)) as (pre & post & -> & Hpre & Hpost);
         eexists (_ :: pre), post; rewrite successes_cons;
         split; [reflexivity |]; split; lia).
  destruct k as [| k].
  - exists [], ms. repeat split. cbn. lia.
  - destruct (IH k ltac:(lia)) as (pre & post & -> & Hpre & Hpost).
    exists (Leave true :: pre), post. rewrite successes_cons.
    split; [reflexivity |]. split; lia.
Qed.

Lemma no_failure_app (ms1 ms2 : list Move) :
  no_failure (ms1 ++ ms2) = no_failure ms1 && no_failure ms2.
Proof. apply forallb_app. Qed.

(** Entries, waits and fewer successes than it takes to close leave a
    HALF_OPEN breaker HALF_OPEN, with the successes counted. *)
Lemma quiet_half_open (pre : list Move) :
  enabled config = true ->
  forall r rp,
    state (r_breaker r) = HALF_OPEN ->
    no_failure pre = true ->
    run_moves config pre r = Some rp ->
    successes pre = 0%nat
    \/ successCount (r_breaker r) + Z.of_nat (successes pre) < 3 ->
    state (r_breaker rp) = HALF_OPEN
    /\ successCount (r_breaker rp)
       = successCount (r_breaker r) + Z.of_nat (successes pre).
Proof.
  intros Hen. induction pre as [| m pre IH]; intros r rp Hst Hq Hrun Hfew.
  - cbn in Hrun. injection Hrun as <-. cbn. split; [exact Hst | lia].
  - cbn [no_failure forallb] in Hq. apply andb_prop in Hq as [Hm Hq].
    rewrite successes_cons in Hfew |- *. cbn [run_moves] in Hrun.
    destruct m as [| [|] | | dt]; try discriminate; cbn [move] in Hrun.
    + rewrite Hen in Hrun. cbn [negb] in Hrun. unfold admission in Hrun.
      rewrite Hst in Hrun. cbn [fst snd] in Hrun.
      match type of Hrun with
      | run_moves _ _ ?r1 = _ =>
          destruct (IH r1 rp Hst Hq Hrun Hfew) as [H1 H2]
      end.
      cbn [r_breaker] in H2. split; [exact H1 | lia].
    + destruct (in_flight r); [discriminate |].
      rewrite Hen in Hrun. cbn [negb] in Hrun.
      unfold settle, onSuccess in Hrun. rewrite Hst in Hrun.
      destruct (Z.leb_spec 3 (successCount (r_breaker r) + 1)); [lia |].
      cbn [fst snd] in Hrun.
      match type of Hrun with
      | run_moves _ _ ?r1 = _ =>
          destruct (IH r1 rp eq_refl Hq Hrun
                      ltac:(cbn [r_breaker successCount]; lia)) as [H1 H2]
      end.
      cbn [r_breaker successCount] in H2.
      split; [exact H1 | lia].
    + match type of Hrun with
      | run_moves _ _ ?r1 = _ =>
          destruct (IH r1 rp Hst Hq Hrun Hfew) as [H1 H2]
      end.
      cbn [r_breaker] in H2. split; [exact H1 | lia].
Qed.

(** Entries, waits and successes leave a CLOSED breaker CLOSED, with the
    successes counted. *)
Lemma quiet_closed (post : list Move) :
  enabled config = true ->
  forall r r',
    state (r_breaker r) = CLOSED ->
    failures (r_breaker r) = 0 ->
    no_failure post = true ->
    run_moves config post r = Some r' ->
    state (r_breaker r') = CLOSED
    /\ failures (r_breaker r') = 0
    /\ successCount (r_breaker r')
       = successCount (r_breaker r) + Z.of_nat (successes post).
Proof.
  intros Hen. induction post as [| m post IH]; intros r r' Hst Hf Hq Hrun.
  - cbn in Hrun. injection Hrun as <-. cbn. repeat split; try assumption; lia.
  - cbn [no_failure forallb] in Hq. apply andb_prop in Hq as [Hm Hq].
    rewrite successes_cons. cbn [run_moves] in Hrun.
    destruct m as [| [|] | | dt]; try discriminate; cbn [move] in Hrun.
    + rewrite Hen in Hrun. cbn [negb] in Hrun. unfold admission in Hrun.
      rewrite Hst in Hrun. cbn [fst snd] in Hrun.
      match type of Hrun with
      | run_moves _ _ ?r1 = _ =>
          destruct (IH r1 r' Hst Hf Hq Hrun) as (H1 & H2 & H3)
      end.
      cbn [r_breaker] in H3. repeat split; try assumption; lia.
    + destruct (in_flight r); [discriminate |].
      rewrite Hen in Hrun. cbn [negb] in Hrun.
      unfold settle, onSuccess in Hrun. rewrite Hst in Hrun.
      cbn [fst snd] in Hrun.
      match type of Hrun with
      | run_moves _ _ ?r1 = _ =>
          destruct (IH r1 r' eq_refl eq_refl Hq Hrun) as (H1 & H2 & H3)
      end.
      cbn [r_breaker successCount] in H3.
      repeat split; try assumption; lia.
    + match type of Hrun with
      | run_moves _ _ ?r1 = _ =>
          destruct (IH r1 r' Hst Hf Hq Hrun) as (H1 & H2 & H3)
      end.
      cbn [r_breaker] in H3. repeat split; try assumption; lia.
Qed.

(** Three whole calls that succeed, on a HALF_OPEN breaker. *)
Lemma three_calls_half_open {A} (ops : list (M A)) (b : t) (w : World) :
  enabled config = true ->
  state b = HALF_OPEN ->
  0 <= successCount b ->
  length ops = 3%nat ->
  all_ok (fst (fst (run_calls endpointId config ops b w))) = true ->
  let b' := snd (fst (run_calls endpointId config ops b w)) in
  state b' = CLOSED /\ failures b' = 0
  /\ successCount b' = Z.min (successCount b) 2.
Proof.
  intros Hen Hst Hsc Hlen Hall. cbv zeta.
  pose proof (run_calls_successes ops Hen b w 3%nat ltac:(congruence) Hall
                ltac:(lia)) as Hfinal.
  rewrite <- Hlen, firstn_all in Hfinal at 1. rewrite Hfinal.
  destruct b as [st f l sc]. cbn [state successCount failures] in *. subst st.
  assert (Hcases : sc = 0 \/ sc = 1 \/ 2 <= sc) by lia.
  destruct Hcases as [-> | [-> | Hge]];
    [vm_compute; repeat split | vm_compute; repeat split |].
  change (Nat.iter 3 succeeded ?x) with (succeeded (succeeded (succeeded x))).
  assert (Hfirst :
    succeeded {| state := HALF_OPEN; failures := f; lastFailureTime := l;
                 successCount := sc |}
    = {| state := CLOSED; failures := 0; lastFailureTime := l;
         successCount := 0 |}).
  { unfold succeeded, onSuccess. cbn [state successCount].
    destruct (Z.leb_spec 3 (sc + 1)); [reflexivity | lia]. }
  rewrite Hfirst. cbn. repeat split. lia.
Qed.

(** C6, amended: if an enabled breaker is in HALF_OPEN with its success
    counter at s, which is never negative, and operations succeed with no
    failure and no reset in between, the breaker transitions to CLOSED at
    the success that brings the counter to 3: the third when s is 0, the
    second when s is 1, the first when s is 2 or more.  At that transition
    both counters are 0 and the state change is announced.  Successes after
    the transition are counted while CLOSED, so that after three successes
    the breaker is CLOSED with the failure counter at 0 and the success
    counter at min(s, 2).  This holds of whole calls and of operations that
    settle among overlapping calls.  When calls do not overlap, s is 0 when
    the breaker leaves OPEN, and three successful calls from an OPEN breaker
    whose resetTimeout has elapsed leave it CLOSED with both counters 0. *)
Theorem C6_three_successes_close :
  enabled config = true ->
  (forall (A : Type) (ops : list (M A)) (b : t) (w : World),
     state b = HALF_OPEN ->
     0 <= successCount b ->
     length ops = 3%nat ->
     all_ok (fst (fst (run_calls endpointId config ops b w))) = true ->
     let b' := snd (fst (run_calls endpointId config ops b w)) in
     state b' = CLOSED /\ failures b' = 0
     /\ successCount b' = Z.min (successCount b) 2)
  /\ (forall (after : list Move) (r r' : Running),
        state (r_breaker r) = HALF_OPEN ->
        0 <= successCount (r_breaker r) ->
        no_failure after = true ->
        successes after = 3%nat ->
        run_moves config after r = Some r' ->
        let s := successCount (r_breaker r) in
        (state (r_breaker r') = CLOSED /\ failures (r_breaker r') = 0
         /\ successCount (r_breaker r') = Z.min s 2)
        /\ exists (pre post : list Move) (rp rc : Running),
             after = pre ++ Leave true :: post
             /\ S (successes pre) = Z.to_nat (Z.max 1 (3 - s))
             /\ run_moves config pre r = Some rp
             /\ state (r_breaker rp) = HALF_OPEN
             /\ move config (Leave true) rp = Some rc
             /\ state (r_breaker rc) = CLOSED
             /\ failures (r_breaker rc) = 0
             /\ successCount (r_breaker rc) = 0
             /\ trace (r_world rc)
                = trace (r_world rp) ++ [EvStateChange CLOSED])
  /\ (forall (moves : list Move) (w0 : World) (r : Running),
        run_moves config moves (start w0) = Some r ->
        0 <= successCount (r_breaker r))
  /\ (forall (A : Type) (hist : list (Action A)) (w0 : World)
             (ops : list (M A)),
        let b := fst (run_history endpointId config hist w0) in
        let w := snd (run_history endpointId config hist w0) in
        let b' := snd (fst (run_calls endpointId config ops b w)) in
        0 <= successCount b
        /\ (state b = OPEN -> successCount b = 0)
        /\ (state b = OPEN ->
            resetTimeout config <= now w - lastFailureTime b ->
            length ops = 3%nat ->
            all_ok (fst (fst (run_calls endpointId config ops b w))) = true ->
            state b' = CLOSED /\ failures b' = 0 /\ successCount b' = 0)).
Proof.
  intros Hen. split; [| split; [| split]].
  - intros A ops b w Hst Hsc Hlen Hall.
    exact (three_calls_half_open ops b w Hen Hst Hsc Hlen Hall).
  - intros after r r' Hst Hsc Hq Hthree Hrun. cbv zeta.
    set (s := successCount (r_breaker r)) in *.
    set (k := Z.to_nat (Z.max 1 (3 - s))).
    assert (Hk : (1 <= k <= 3)%nat) by (subst k; lia).
    destruct (split_successes after (k - 1)%nat ltac:(lia))
      as (pre & post & Hafter & Hpre & Hpost).
    rewrite Hafter, no_failure_app in Hq.
    apply andb_prop in Hq as [Hqpre Hqpost].
    cbn [no_failure forallb] in Hqpost. fold (no_failure post) in Hqpost.
    rewrite Hafter, run_moves_app in Hrun.
    destruct (run_moves config pre r) as [rp |] eqn:Hrp; [| discriminate].
    cbn [run_moves] in Hrun.
    destruct (move config (Leave true) rp) as [rc |] eqn:Hrc; [| discriminate].
    destruct (quiet_half_open pre Hen r rp Hst Hqpre Hrp) as [Hstp Hscp].
    { fold s. rewrite Hpre. subst k. lia. }
    fold s in Hscp. rewrite Hpre in Hscp.
    assert (Hclosing :
      state (r_breaker rc) = CLOSED /\ failures (r_breaker rc) = 0
      /\ successCount (r_breaker rc) = 0
      /\ trace (r_world rc) = trace (r_world rp) ++ [EvStateChange CLOSED]).
    { cbn [move] in Hrc. destruct (in_flight rp); [discriminate |].
      rewrite Hen in Hrc. cbn [negb] in Hrc. injection Hrc as <-.
      cbn [r_breaker r_world]. unfold settle, onSuccess. rewrite Hstp.
      destruct (Z.leb_spec 3 (successCount (r_breaker rp) + 1));
        [| subst k; lia].
      cbn. repeat split. }
    destruct Hclosing as (Hc1 & Hc2 & Hc3 & Hc4).
    destruct (quiet_closed post Hen rc r' Hc1 Hc2 Hqpost Hrun)
      as (Hf1 & Hf2 & Hf3).
    rewrite Hc3, Hpost, Hthree in Hf3.
    split.
    + split; [exact Hf1 |]. split; [exact Hf2 |]. subst k. lia.
    + exists pre, post, rp, rc.
      split; [exact Hafter |]. split; [fold k; lia |].
      split; [exact Hrp |]. split; [exact Hstp |].
      split; [exact Hrc |]. auto.
  - intros moves w0 r Hrun.
    apply (run_moves_nonneg config moves (start w0) r); [cbn; lia | exact Hrun].
  - intros A hist w0 ops. cbv zeta.
    pose proof (history_inv endpointId config hist w0) as (Hsc & _ & Hopen).
    destruct (run_history endpointId config hist w0) as [b w].
    cbn [fst snd] in *.
    split; [exact Hsc |].
    split; [intros Hst; exact (proj1 (Hopen Hst)) |].
    intros Hst Hlate Hlen Hall.
    destruct (Hopen Hst) as [Hzero _].
    destruct ops as [| op ops]; [discriminate |].
    cbn [run_calls] in *.
    rewrite (execute_probe op b w Hen Hst Hlate) in *.
    pose proof (three_calls_half_open (op :: ops) (half_open b)
                  (emit (EvStateChange HALF_OPEN) w) Hen eq_refl) as H.
    cbn [half_open successCount] in H. rewrite Hzero in H.
    cbn [run_calls] in H.
    exact (H ltac:(lia) Hlen Hall).
Qed.

End BreakerRecovery.

(** C6, as stated, fails: with failureThreshold 2, two failures open the
    breaker and, after resetTimeout, a probe succeeds; the breaker is then
    HALF_OPEN with one success counted.  Of three more calls that succeed,
    the second closes the breaker and the third is counted while CLOSED: the
    success counter ends at 1. *)
Lemma C6_counted_success_counterexample :
  let config := with_threshold 2 DEFAULT_CIRCUIT_BREAKER_CONFIG in
  let e := http_error "HTTP 503: Service Unavailable" in
  let hist : list (Action unit) :=
    [Exec (failing e 5); Exec (failing e 5); Wait 60000;
     Exec (succeeding tt 20)] in
  let b := fst (run_history "crm" config hist (world_at 0)) in
  let w := snd (run_history "crm" config hist (world_at 0)) in
  let ops := [succeeding tt 20; succeeding tt 20; succeeding tt 20] in
  let after := run_calls "crm" config ops b w in
  enabled config = true
  /\ CircuitBreaker.state b = HALF_OPEN
  /\ fst (fst after) = [Ok tt; Ok tt; Ok tt]
  /\ CircuitBreaker.state (snd (fst after)) = CLOSED
  /\ CircuitBreaker.successCount (snd (fst after)) = 1.
Proof. vm_compute. repeat split; reflexivity. Qed.

(** C6 with failureThreshold 2: three successes once the breaker has opened
    and resetTimeout has elapsed, and three successes on a breaker that is
    HALF_OPEN with one success counted. *)
Lemma C6_three_successes_close_witness :
  let config := with_threshold 2 DEFAULT_CIRCUIT_BREAKER_CONFIG in
  let e := http_error "HTTP 503: Service Unavailable" in
  let hist : list (Action unit) :=
    [Exec (failing e 5); Exec (failing e 5); Wait 60000] in
  let b := fst (run_history "crm" config hist (world_at 0)) in
  let w := snd (run_history "crm" config hist (world_at 0)) in
  let ops := [succeeding tt 20; succeeding tt 20; succeeding tt 20] in
  let b' := snd (fst (run_calls "crm" config ops b w)) in
  let counted :=
    {| CircuitBreaker.state := HALF_OPEN; CircuitBreaker.failures := 0;
       CircuitBreaker.lastFailureTime := 10;
       CircuitBreaker.successCount := 1 |} in
  let b2 := snd (fst (run_calls "crm" config ops counted (world_at 70000))) in
  (CircuitBreaker.state b = OPEN
   /\ CircuitBreaker.state b' = CLOSED
   /\ CircuitBreaker.failures b' = 0
   /\ CircuitBreaker.successCount b' = 0)
  /\ (CircuitBreaker.state b2 = CLOSED
      /\ CircuitBreaker.failures b2 = 0
      /\ CircuitBreaker.successCount b2 = 1).
Proof.
  cbv zeta.
  destruct (C6_three_successes_close "crm"
              (with_threshold 2 DEFAULT_CIRCUIT_BREAKER_CONFIG) eq_refl)
    as (Hcalls & _ & _ & Hseq).
  split.
  - assert (Hopen : CircuitBreaker.state
              (fst (run_history "crm"
                      (with_threshold 2 DEFAULT_CIRCUIT_BREAKER_CONFIG)
                      [Exec (failing (A := unit)
                               (http_error "HTTP 503: Service Unavailable") 5);
                       Exec (failing
                               (http_error "HTTP 503: Service Unavailable") 5);
                       Wait 60000] (world_at 0))) = OPEN)
      by (vm_compute; reflexivity).
    split; [exact Hopen |].
    destruct (Hseq unit
                [Exec (failing (http_error "HTTP 503: Service Unavailable") 5);
                 Exec (failing (http_error "HTTP 503: Service Unavailable") 5);
                 Wait 60000] (world_at 0)
                [succeeding tt 20; succeeding tt 20; succeeding tt 20])
      as (_ & _ & Hclose).
    apply Hclose;
      [exact Hopen | vm_compute; discriminate | reflexivity
      | vm_compute; reflexivity].
  - exact (Hcalls unit [succeeding tt 20; succeeding tt 20; succeeding tt 20]
             {| CircuitBreaker.state := HALF_OPEN;
                CircuitBreaker.failures := 0;
                CircuitBreaker.lastFailureTime := 10;
                CircuitBreaker.successCount := 1 |}
             (world_at 70000) eq_refl ltac:(cbn; lia) eq_refl
             ltac:(vm_compute; reflexivity)).
Defined.

(** ** The retry loop (C7) *)

Section RetryLoop.

Import RetryHandler.

Context {T : Type}.
Variable env : Env T.
Variable config : RetryConfig.

(** The loop makes at most [maxAttempts - attempt] iterations: more fuel
    than that changes nothing. *)
Lemma loop_fuel {A} (operation : M A) (fuel : nat) :
  forall (lastError : Thrown) (attempt : Z) (w : World),
    (Z.to_nat (maxAttempts config - attempt) <= fuel)%nat ->
    loop env config fuel operation lastError attempt w
    = loop env config (Z.to_nat (maxAttempts config - attempt)) operation
        lastError attempt w.
Proof.
  induction fuel as [| fuel IH]; intros lastError attempt w Hfuel.
  - replace (Z.to_nat (maxAttempts config - attempt)) with 0%nat by lia.
    reflexivity.
  - cbn [loop].
    destruct (Z.ltb_spec attempt (maxAttempts config)) as [Hlt | Hge].
    + destruct (Z.to_nat (maxAttempts config - attempt)) as [| k] eqn:Hk;
        [lia |].
      cbn [loop].
      destruct (Z.ltb_spec attempt (maxAttempts config)); [| lia].
      destruct (operation w) as [[v | error] w1]; [reflexivity |].
      destruct (shouldRetry error) as [[|] | te]; try reflexivity.
      assert (Hk' : k = Z.to_nat (maxAttempts config - (attempt + 1))) by lia.
      destruct (attempt + 1 <? maxAttempts config).
      * destruct (calculateDelay env config (attempt + 1) w1) as [delay w2].
        rewrite IH by lia. now rewrite Hk'.
      * rewrite IH by lia. now rewrite Hk'.
    + replace (Z.to_nat (maxAttempts config - attempt)) with 0%nat by lia.
      reflexivity.
Qed.

(** Without jitter the delay is the capped exponential, or 0 when that is
    negative, and no random number is drawn. *)
Lemma calculateDelay_no_jitter (attempt : Z) (w : World) :
  jitter config = false ->
  calculateDelay env config attempt w
  = (Number.Math_max (backoff env config attempt) 0, w).
Proof. intros Hj. unfold calculateDelay. now rewrite Hj. Qed.

End RetryLoop.

(** ** What one attempt does to the world *)

Section Observations.

Lemma timeline_app (tr1 tr2 : list Event) :
  timeline (tr1 ++ tr2) = timeline tr1 ++ timeline tr2.
Proof. unfold timeline. induction tr1 as [| ev tr1 IH]; cbn; [reflexivity |].
  destruct (is_timing ev); cbn; now rewrite IH. Qed.

Lemma delays_app (tr1 tr2 : list Event) :
  delays (tr1 ++ tr2) = delays tr1 ++ delays tr2.
Proof. unfold delays. induction tr1 as [| ev tr1 IH]; cbn; [reflexivity |].
  now rewrite IH, app_assoc. Qed.

Lemma logged_app (tr1 tr2 : list Event) :
  logged (tr1 ++ tr2) = logged tr1 ++ logged tr2.
Proof. unfold logged. induction tr1 as [| ev tr1 IH]; cbn; [reflexivity |].
  now rewrite IH, app_assoc. Qed.

Lemma delays_timeline (tr : list Event) : delays (timeline tr) = delays tr.
Proof.
  unfold delays, timeline. induction tr as [| ev tr IH]; cbn; [reflexivity |].
  destruct ev; cbn; now rewrite IH.
Qed.

Lemma logError_trace (ie : IntegrationError) (w : World) :
  exists alerts,
    trace (IntegrationClient.logError ie w)
    = trace w ++ [EvIntegrationError ie] ++ alerts
    /\ timeline alerts = [] /\ logged alerts = [].
Proof.
  unfold IntegrationClient.logError.
  destruct ErrorClassifier.shouldAlert.
  - eexists [_]. cbn [trace emit set_requestLog].
    rewrite <- app_assoc. repeat split.
  - exists []. repeat split.
Qed.

Lemma logError_frame (ie : IntegrationError) (w : World) :
  let w' := IntegrationClient.logError ie w in
  now w' = now w /\ calls w' = calls w /\ draws w' = draws w
  /\ mr_attempts w' = mr_attempts w /\ mr_lastError w' = mr_lastError w.
Proof.
  unfold IntegrationClient.logError.
  destruct ErrorClassifier.shouldAlert; repeat split.
Qed.

Context {T : Type}.
Variable env : Env T.
Variable endpoint : IntegrationEndpoint.
Variable request : IntegrationRequest.
Variable requestId : string.

Local Abbreviation attempt_op :=
  (IntegrationClient.operation env endpoint request requestId).

(** One run of the closure [operation]: the transport is invoked once and the
    attempt counted; a rejection is turned into an IntegrationError that
    becomes [lastError], is stored under the request id and is emitted. *)
Lemma operation_effect (w : World) :
  let r := attempt_op w in
  calls (snd r) = S (calls w)
  /\ draws (snd r) = draws w
  /\ mr_attempts (snd r) = mr_attempts w + 1
  /\ timeline (trace (snd r)) = timeline (trace w) ++ [EvTransport (calls w)]
  /\ match transport env (calls w) request requestId with
     | inl v =>
         fst r = Ok v
         /\ logged (trace (snd r)) = logged (trace w)
         /\ requestLog (snd r) = requestLog w
         /\ mr_lastError (snd r) = mr_lastError w
     | inr e =>
         fst r = Throw (ErrObj e)
         /\ exists ie,
              logged (trace (snd r)) = logged (trace w) ++ [ie]
              /\ requestLog (snd r) = <[requestId := ie]> (requestLog w)
              /\ mr_lastError (snd r) = Some ie
              /\ ie_id ie = requestId
              /\ errorType ie
                 = ErrorClassifier.classifyError (Some e) (response e)
              /\ ie_message ie
                 = (if Js.truthy_string (message e) then message e
                    else "Unknown error"%string)
              /\ retryCount ie = mr_attempts w
     end.
Proof.
  unfold IntegrationClient.operation, IntegrationClient.executeRequest.
  cbn [calls set_attempts].
  destruct (transport env (calls w) request requestId) as [v | e]; cbn [fst snd].
  - cbn [trace calls draws mr_attempts mr_lastError requestLog
         advance emit count_call set_attempts].
    rewrite timeline_app, logged_app.
    change (logged [EvTransport (calls w)]) with (@nil IntegrationError).
    rewrite app_nil_r. repeat split.
  - set (w1 := advance _ _).
    set (ie := IntegrationClient.createIntegrationError _ _ _ _ _ _).
    destruct (logError_trace ie (set_lastError (Some ie) w1))
      as (alerts & Htr & Htl & Hlg).
    pose proof (logError_frame ie (set_lastError (Some ie) w1))
      as (_ & Hc & Hd & Ha & Hl).
    pose proof (logError_requestLog ie (set_lastError (Some ie) w1)) as Hlog.
    cbv zeta in *. rewrite Hc, Hd, Ha, Htr.
    split; [reflexivity |]. split; [reflexivity |]. split; [reflexivity |].
    split.
    { rewrite !timeline_app, Htl.
      change (timeline [EvIntegrationError ie]) with (@nil Event).
      cbn [trace set_lastError advance emit w1].
      rewrite timeline_app. now rewrite !app_nil_r. }
    split; [reflexivity |].
    exists ie. rewrite Hlog, Hl, !logged_app, Hlg.
    change (logged [EvIntegrationError ie]) with [ie].
    cbn [trace set_lastError advance emit count_call set_attempts w1
         requestLog mr_lastError].
    rewrite logged_app.
    change (logged [EvTransport (calls w)]) with (@nil IntegrationError).
    rewrite !app_nil_r.
    repeat (split; [reflexivity |]).
    subst ie w1. cbn. lia.
Qed.

(** An attempt takes the time of its transport invocation. *)
Lemma operation_clock (w : World) :
  now (snd (attempt_op w)) = now w + latency env (calls w).
Proof.
  unfold IntegrationClient.operation, IntegrationClient.executeRequest.
  cbn [calls set_attempts].
  destruct (transport env (calls w) request requestId) as [v | e];
    cbn [fst snd]; [reflexivity |].
  set (ie := IntegrationClient.createIntegrationError _ _ _ _ _ _).
  set (w1 := set_lastError _ _).
  destruct (logError_frame ie w1) as (Hnow & _).
  cbv zeta in Hnow. rewrite Hnow. reflexivity.
Qed.

End Observations.

(** ** The stored request snapshot (C9) *)

Section StoredSnapshot.

Import IntegrationClient Claimed.

(** C9: the code leaves credentials in clear.  [sanitizeHeaders] looks its
    three names up as they are written, in lower case, in an object whose
    keys are the header names as the caller spelled them.  A header named
    authorization, x-api-key or cookie in any other letter case, such as the
    [Authorization] that the transports of this file send, is therefore not
    found: the error stored for the failed attempt and emitted with the
    integrationError event holds its value as it was, where the claim has
    '[REDACTED]'. *)
Theorem C9_credentials_stored_in_clear {T} (env : Env T)
    (endpoint : IntegrationEndpoint) (request : IntegrationRequest)
    (requestId : string) (w : World) (e : JsError)
    (h : gmap string string) (name value : string) :
  transport env (calls w) request requestId = inr e ->
  headers request = Some h ->
  h !! name = Some value ->
  existsb (String.eqb (Js.toLowerCase name))
          ["authorization"; "x-api-key"; "cookie"]%string = true ->
  existsb (String.eqb name)
          ["authorization"; "x-api-key"; "cookie"]%string = false ->
  let w' := snd (operation env endpoint request requestId w) in
  exists ie,
    requestLog w' !! requestId = Some ie
    /\ mr_lastError w' = Some ie
    /\ logged (trace w') = logged (trace w) ++ [ie]
    /\ rd_headers (requestData ie) !! name = Some value
    /\ shown name value = "[REDACTED]"%string.
Proof.
  intros He Hh Hname Hcred Hlower. cbv zeta.
  pose proof (operation_effect env endpoint request requestId w) as Heff.
  cbv zeta in Heff. destruct Heff as (_ & _ & _ & _ & Hout).
  rewrite He in Hout. destruct Hout as (_ & ie & Hlogged & _).
  revert Hlogged.
  unfold operation, executeRequest. cbn [calls set_attempts].
  rewrite He. cbn [snd]. intros Hlogged.
  eexists. split; [| split; [| split; [| split]]].
  - rewrite logError_requestLog. cbn [ie_id createIntegrationError].
    apply lookup_insert_eq.
  - unfold logError.
    destruct ErrorClassifier.shouldAlert; reflexivity.
  - rewrite Hlogged. f_equal. f_equal.
    pose proof (f_equal (fun l => List.last l ie) Hlogged) as Hlast.
    cbn beta in Hlast. rewrite last_last in Hlast. rewrite <- Hlast.
    clear Hlast Hlogged. unfold logError.
    set (stored := createIntegrationError _ _ _ _ _ _).
    destruct ErrorClassifier.shouldAlert;
      cbn [trace emit set_requestLog set_lastError];
      rewrite ?logged_app;
      change (logged [EvIntegrationAlert stored _])
        with (@nil IntegrationError);
      change (logged [EvIntegrationError stored]) with [stored];
      rewrite ?app_nil_r, last_last; reflexivity.
  - cbn [requestData createIntegrationError rd_headers].
    rewrite sanitizeHeaders_lookup, Hh.
    change (default ∅ (Some h)) with h. rewrite Hname. cbn [fmap option_fmap option_map].
    unfold sanitized, sensitiveHeaders.
    change IntegrationClient.sensitiveHeaders
      with ["authorization"; "x-api-key"; "cookie"]%string.
    unfold sensitiveHeaders. rewrite Hlower. reflexivity.
  - unfold shown, is_sensitive, credential_headers. now rewrite Hcred.
Qed.

(** C9 on the request that carries its token as this file's transports
    spell the header: the token is in the stored error. *)
Lemma C9_credentials_stored_in_clear_witness :
  let request :=
    sample_request {[ "Authorization"%string := "Bearer SECRET"%string;
                      "accept"%string := "application/json"%string ]} in
  let env := always_rejecting (http_error "HTTP 500: Internal Server Error") in
  let endpoint :=
    sample_endpoint DEFAULT_RETRY_CONFIG DEFAULT_CIRCUIT_BREAKER_CONFIG in
  let w' := snd (operation env endpoint request "req_1" (world_at 0)) in
  exists ie,
    requestLog w' !! "req_1"%string = Some ie
    /\ logged (trace w') = [ie]
    /\ rd_headers (requestData ie) !! "Authorization"%string
       = Some "Bearer SECRET"%string
    /\ shown "Authorization" "Bearer SECRET" = "[REDACTED]"%string.
Proof.
  cbv zeta.
  assert (Hheader :
    ({[ "Authorization"%string := "Bearer SECRET"%string;
        "accept"%string := "application/json"%string ]}
       : gmap string string) !! "Authorization"%string
    = Some "Bearer SECRET"%string) by (vm_compute; reflexivity).
  destruct (C9_credentials_stored_in_clear
              (always_rejecting (http_error "HTTP 500: Internal Server Error"))
              (sample_endpoint DEFAULT_RETRY_CONFIG
                 DEFAULT_CIRCUIT_BREAKER_CONFIG)
              (sample_request
                 {[ "Authorization"%string := "Bearer SECRET"%string;
                    "accept"%string := "application/json"%string ]})
              "req_1" (world_at 0)
              (http_error "HTTP 500: Internal Server Error")
              _ "Authorization" "Bearer SECRET"
              eq_refl eq_refl Hheader eq_refl eq_refl)
    as (ie & Hlog & _ & Hlogged & Hstored & Hshown).
  exists ie. repeat (split; [assumption |]). exact Hshown.
Defined.

(** In lower case the credential is redacted, unless its value is empty,
    which the guard [if (sanitized[header])] takes for an absent header. *)
Example redaction_of_bearer_token :
  sanitizeHeaders {[ "authorization"%string := "Bearer 00Dxx"%string;
                     "accept"%string := "application/json"%string ]}
  = {[ "authorization"%string := REDACTED;
       "accept"%string := "application/json"%string ]}.
Proof. vm_compute. reflexivity. Qed.

Example empty_credential_is_kept :
  sanitizeHeaders {[ "authorization"%string := ""%string ]}
  = {[ "authorization"%string := ""%string ]}.
Proof. vm_compute. reflexivity. Qed.

End StoredSnapshot.

(** ** The backoff schedule (C7) *)

Section BackoffSchedule.

Import RetryHandler.

Context {T : Type}.
Variable env : Env T.
Variable endpoint : IntegrationEndpoint.
Variable config : RetryConfig.
Variable request : IntegrationRequest.
Variable requestId : string.

Local Abbreviation attempt_op :=
  (IntegrationClient.operation env endpoint request requestId).
Local Abbreviation made := (attempts_made env request requestId).

Hypothesis no_jitter_set : jitter config = false.

Lemma sleep_effect (ms : Number.t) (w : World) :
  calls (sleep env ms w) = calls w
  /\ timeline (trace (sleep env ms w)) = timeline (trace w) ++ [EvSleep ms]
  /\ now (sleep env ms w) = now w + timer env ms.
Proof.
  unfold sleep. cbn [calls trace now advance emit].
  rewrite timeline_app. repeat split.
Qed.

Lemma made_positive (fuel : nat) (n : nat) : (0 < made (S fuel) n)%nat.
Proof.
  cbn [attempts_made].
  destruct (transport env n request requestId); [lia |].
  destruct (shouldRetry (ErrObj _)) as [[|] |]; lia.
Qed.

Lemma loop_schedule (fuel : nat) :
  forall (lastError : Thrown) (attempt : Z) (w : World),
    fuel = Z.to_nat (maxAttempts config - attempt) ->
    let r := loop env config fuel attempt_op lastError attempt w in
    calls (snd r) = (calls w + made fuel (calls w))%nat
    /\ timeline (trace (snd r))
       = timeline (trace w)
         ++ schedule env config attempt (calls w) (made fuel (calls w))
    /\ now (snd r)
       = now w + elapsed env config attempt (calls w) (made fuel (calls w)).
Proof.
  induction fuel as [| fuel IH]; intros lastError attempt w Hfuel; cbv zeta.
  - cbn. rewrite app_nil_r. repeat split; lia.
  - cbn [loop attempts_made].
    destruct (Z.ltb_spec attempt (maxAttempts config)); [| lia].
    pose proof (operation_effect env endpoint request requestId w)
      as (Hc & _ & _ & Htl & Hout).
    pose proof (operation_clock env endpoint request requestId w) as Hnow.
    cbv zeta in Hc, Htl, Hout.
    destruct (attempt_op w) as [r1 w1]. cbn [fst snd] in *.
    destruct (transport env (calls w) request requestId) as [v | e].
    + destruct Hout as [-> _]. cbn [snd schedule elapsed].
      split; [lia |]. split; [exact Htl | lia].
    + destruct Hout as [-> _].
      destruct (shouldRetry (ErrObj e)) as [[|] | te];
        cbn [snd schedule elapsed];
        try (split; [lia |]; split; [exact Htl | lia]).
      destruct (Z.ltb_spec (attempt + 1) (maxAttempts config)).
      * rewrite calculateDelay_no_jitter by assumption.
        change (Number.Math_max (backoff env config (attempt + 1)) 0)
          with (delay_after env config (attempt + 1)).
        destruct (sleep_effect (delay_after env config (attempt + 1)) w1)
          as (Hsc & Hstl & Hsn).
        specialize (IH (ErrObj e) (attempt + 1)
                       (sleep env (delay_after env config (attempt + 1)) w1)
                       ltac:(lia)).
        cbv zeta in IH. rewrite Hsc, Hstl, Hsn, Hc, Htl, Hnow in IH.
        destruct IH as (IHc & IHt & IHn). rewrite IHc, IHt, IHn.
        destruct fuel as [| fuel']; [lia |].
        pose proof (made_positive fuel' (S (calls w))) as Hpos.
        destruct (made (S fuel') (S (calls w))) as [| a'] eqn:Ha; [lia |].
        split; [lia |]. split; [| lia].
        rewrite <- !app_assoc. reflexivity.
      * assert (fuel = 0%nat) as -> by lia.
        cbn [loop attempts_made snd schedule elapsed].
        split; [lia |]. split; [exact Htl | lia].
Qed.

Lemma made_le (budget : nat) : forall n, (made budget n <= budget)%nat.
Proof.
  induction budget as [| budget IH]; intros n; cbn [attempts_made]; [lia |].
  destruct (transport env n request requestId); [lia |].
  destruct (shouldRetry (ErrObj _)) as [[|] |]; try lia.
  specialize (IH (S n)). lia.
Qed.

(** When every invocation the budget allows rejects with a retried error,
    the whole budget is used. *)
Lemma made_all (budget : nat) :
  forall n,
    (forall i, (i < budget)%nat ->
       exists e, transport env (n + i) request requestId = inr e
                 /\ shouldRetry (ErrObj e) = Ok true) ->
    made budget n = budget.
Proof.
  induction budget as [| budget IH]; intros n Hall; cbn [attempts_made];
    [reflexivity |].
  destruct (Hall 0%nat ltac:(lia)) as (e & He & Hr).
  rewrite Nat.add_0_r in He. rewrite He, Hr. f_equal.
  apply IH. intros i Hi. destruct (Hall (S i) ltac:(lia)) as (e' & He' & Hr').
  exists e'. split; [| exact Hr'].
  rewrite <- He'. f_equal. lia.
Qed.

Lemma delays_schedule (a : nat) :
  forall (attempt : Z) (n : nat),
    delays (schedule env config attempt n a)
    = map (fun i => delay_after env config (attempt + Z.of_nat i))
          (seq 1 (a - 1)).
Proof.
  induction a as [| a IH]; intros attempt n; [reflexivity |].
  cbn [schedule]. destruct a as [| a']; [reflexivity |].
  change (delays (EvTransport n :: EvSleep (delay_after env config (attempt + 1))
                  :: schedule env config (attempt + 1) (S n) (S a')))
    with (delay_after env config (attempt + 1)
          :: delays (schedule env config (attempt + 1) (S n) (S a'))).
  rewrite IH.
  replace (S (S a') - 1)%nat with (S (S a' - 1)) by lia.
  cbn [seq map]. apply (f_equal2 cons); [reflexivity |].
  rewrite <- (seq_shift (S a' - 1) 1), map_map.
  apply map_ext. intros i. f_equal. lia.
Qed.

Lemma schedule_last (a : nat) :
  forall (attempt : Z) (n : nat),
    exists m,
      List.last (schedule env config attempt n a) (EvTransport 0)
      = EvTransport m.
Proof.
  induction a as [| a IH]; intros attempt n.
  - exists 0%nat. reflexivity.
  - destruct a as [| a'].
    + exists n. reflexivity.
    + destruct (IH (attempt + 1) (S n)) as [m Hm].
      exists m. rewrite <- Hm. reflexivity.
Qed.

Lemma schedule_ends_with_attempt (a : nat) (attempt : Z) (n : nat)
    (tl : list Event) (ms : Number.t) :
  schedule env config attempt n a <> tl ++ [EvSleep ms].
Proof.
  intros H. destruct (schedule_last a attempt n) as [m Hm].
  rewrite H, last_last in Hm. discriminate.
Qed.

(** A delay of at most 2000 ms that is not negative is below a cap of 2000
    or more, and is slept as it is. *)
Lemma below_cap (a : Q) (cap : Number.t) :
  Number.le (Number.Finite 2000) cap = true ->
  Qle_bool a 2000 = true ->
  Qle_bool 0 a = true ->
  Number.Math_max (Number.Math_min (Number.Finite a) cap) 0 = Number.Finite a.
Proof.
  intros Hcap Hle Hpos.
  assert (Hmax : Number.Math_max (Number.Finite a) 0 = Number.Finite a).
  { unfold Number.Math_max, Number.lt. now rewrite Hpos. }
  destruct cap as [q | | |]; cbn [Number.le] in Hcap; try discriminate.
  - unfold Number.Math_min, Number.lt.
    assert (Hq : Qle_bool a q = true).
    { apply Qle_bool_iff. apply Qle_bool_iff in Hcap, Hle.
      now apply Qle_trans with 2000%Q. }
    rewrite Hq. exact Hmax.
  - exact Hmax.
Qed.

(** C7, amended: without jitter, a call through the retry handler sleeps,
    after each attempt i but the last one it makes, for
    max(min(baseDelay * backoffMultiplier^(i-1), maxDelay), 0) milliseconds,
    computed in the doubles of the code: the timer is set for that delay and
    the next attempt starts when it has fired.  The call never ends with a
    sleep; it makes as many attempts as the transport's answers allow and
    never more than maxAttempts, all of them when every attempt fails with a
    retried error.  With maxAttempts 3, baseDelay 1000, backoffMultiplier 2
    and a maxDelay of 2000 or more the delays are 1000 and 2000, and the
    third failure ends the call. *)
Theorem C7_backoff_schedule (w : World) :
  let r := execute env config attempt_op w in
  let budget := Z.to_nat (maxAttempts config) in
  let a := made budget (calls w) in
  let all_retried :=
    forall i, (i < budget)%nat ->
      exists e, transport env (calls w + i) request requestId = inr e
                /\ shouldRetry (ErrObj e) = Ok true in
  calls (snd r) = (calls w + a)%nat
  /\ (a <= budget)%nat
  /\ timeline (trace (snd r))
     = timeline (trace w) ++ schedule env config 0 (calls w) a
  /\ delays (trace (snd r))
     = delays (trace w)
       ++ map (fun i =>
                 Number.Math_max
                   (Number.Math_min
                      (Number.mul (baseDelay config)
                         (Math_pow env (backoffMultiplier config)
                            (Z.of_nat i - 1)))
                      (maxDelay config))
                   0)
              (seq 1 (a - 1))
  /\ now (snd r) = now w + elapsed env config 0 (calls w) a
  /\ (forall tl ms, schedule env config 0 (calls w) a <> tl ++ [EvSleep ms])
  /\ (all_retried -> a = budget)
  /\ (maxAttempts config = 3 ->
      baseDelay config = 1000%Q ->
      backoffMultiplier config = 2%Q ->
      Number.le (Number.Finite 2000) (maxDelay config) = true ->
      all_retried ->
      timeline (trace (snd r))
      = timeline (trace w)
        ++ [EvTransport (calls w); EvSleep 1000;
            EvTransport (S (calls w)); EvSleep 2000;
            EvTransport (S (S (calls w)))]).
Proof.
  cbv zeta. unfold execute.
  pose proof (loop_schedule (Z.to_nat (maxAttempts config)) Undefined 0 w
                ltac:(lia)) as (Hc & Ht & Hn).
  cbv zeta in Hc, Ht, Hn.
  split; [exact Hc |]. split; [apply made_le |]. split; [exact Ht |].
  split; [| split; [exact Hn |]; split; [| split]].
  - rewrite <- delays_timeline, Ht, delays_app, delays_timeline.
    f_equal. rewrite delays_schedule.
    apply map_ext. intros i. reflexivity.
  - apply schedule_ends_with_attempt.
  - apply made_all.
  - intros Hmax Hbase Hmult Hcap Hall.
    rewrite Ht. f_equal.
    rewrite (made_all _ _ Hall), Hmax.
    change (Z.to_nat 3) with 3%nat. cbn [schedule].
    unfold delay_after. rewrite Hbase, Hmult.
    change (Number.mul 1000%Q (Math_pow env 2%Q (0 + 1 - 1)))
      with (Number.Finite 1000).
    change (Number.mul 1000%Q (Math_pow env 2%Q (0 + 1 + 1 - 1)))
      with (Number.Finite 2000).
    rewrite !(below_cap _ _ Hcap) by reflexivity.
    reflexivity.
Qed.

End BackoffSchedule.

(** C7, as stated, fails: with a maxDelay of -5 the capped exponential is -5,
    and the code, which ends its computation with [Math.max(delay, 0)],
    sleeps 0 where the claim says min(1000 * 2^(i-1), -5) = -5. *)
Lemma C7_negative_delay_counterexample :
  let env := always_rejecting (http_error "HTTP 503: Service Unavailable") in
  let config :=
    {| maxAttempts := 3; baseDelay := 1000; maxDelay := (-5)%Q;
       backoffMultiplier := 2; jitter := false |} in
  let endpoint := sample_endpoint config DEFAULT_CIRCUIT_BREAKER_CONFIG in
  let r :=
    RetryHandler.execute env config
      (IntegrationClient.operation env endpoint (sample_request ∅) "req_1")
      (world_at 0) in
  delays (trace (snd r)) = [Number.Finite 0; Number.Finite 0]
  /\ Claimed.delay 1000 (-5) 2 1 = (-5)%Q
  /\ Claimed.delay 1000 (-5) 2 2 = (-5)%Q
  /\ Number.Finite (-5) <> Number.Finite 0.
Proof. vm_compute. repeat split; try reflexivity; discriminate. Qed.

(** C7 with maxAttempts 3, baseDelay 1000, backoffMultiplier 2 and maxDelay
    30000: delays of 1000 and 2000 ms, and none after the third attempt; the
    call takes the three latencies of 5 ms and the two delays. *)
Lemma C7_backoff_schedule_witness :
  let env := always_rejecting (http_error "HTTP 503: Service Unavailable") in
  let config := no_jitter DEFAULT_RETRY_CONFIG in
  let endpoint := sample_endpoint config DEFAULT_CIRCUIT_BREAKER_CONFIG in
  let r :=
    RetryHandler.execute env config
      (IntegrationClient.operation env endpoint (sample_request ∅) "req_1")
      (world_at 0) in
  calls (snd r) = 3%nat
  /\ timeline (trace (snd r))
     = [EvTransport 0; EvSleep 1000; EvTransport 1; EvSleep 2000; EvTransport 2]
  /\ delays (trace (snd r)) = [Number.Finite 1000; Number.Finite 2000]
  /\ now (snd r) = 3015.
Proof.
  cbv zeta.
  destruct
    (C7_backoff_schedule
       (always_rejecting (http_error "HTTP 503: Service Unavailable"))
       (sample_endpoint (no_jitter DEFAULT_RETRY_CONFIG)
          DEFAULT_CIRCUIT_BREAKER_CONFIG)
       (no_jitter DEFAULT_RETRY_CONFIG) (sample_request ∅) "req_1"
       eq_refl
       (world_at 0))
    as (Hc & _ & _ & Hd & Hn & _ & _ & Hexample).
  rewrite Hc, Hd, Hn.
  assert (Hall : forall i, (i < 3)%nat ->
            exists e,
              transport
                (always_rejecting (http_error "HTTP 503: Service Unavailable"))
                (calls (world_at 0) + i) (sample_request ∅) "req_1" = inr e
              /\ RetryHandler.shouldRetry (ErrObj e) = Ok true)
    by (intros i _; eexists; split; reflexivity).
  rewrite (Hexample eq_refl eq_refl eq_refl eq_refl Hall).
  vm_compute. repeat split.
Defined.

(** ** The error log of a call (C10, C1) *)

Section ErrorLog.

Import RetryHandler.

Context {T : Type}.
Variable env : Env T.
Variable endpoint : IntegrationEndpoint.
Variable config : RetryConfig.
Variable request : IntegrationRequest.
Variable requestId : string.

Local Abbreviation attempt_op :=
  (IntegrationClient.operation env endpoint request requestId).

(** The pause between two attempts leaves the client's view as it is, up to
    the clock. *)
Lemma pause_view (attempt : Z) (w : World) :
  let w' := sleep env (fst (calculateDelay env config attempt w))
                  (snd (calculateDelay env config attempt w)) in
  calls w' = calls w
  /\ mr_attempts w' = mr_attempts w
  /\ mr_lastError w' = mr_lastError w
  /\ requestLog w' = requestLog w
  /\ logged (trace w') = logged (trace w).
Proof.
  unfold calculateDelay, sleep.
  destruct (jitter config); cbn [fst snd calls mr_attempts mr_lastError
    requestLog trace advance emit count_draw];
    rewrite logged_app; change (logged [EvSleep _]) with (@nil IntegrationError);
    rewrite app_nil_r; repeat split.
Qed.

Lemma loop_log (fuel : nat) :
  forall (lastError : Thrown) (attempt : Z) (w : World),
    let r := loop env config fuel attempt_op lastError attempt w in
    exists (a : nat) (ies : list IntegrationError),
      calls (snd r) = (calls w + a)%nat
      /\ mr_attempts (snd r) = mr_attempts w + Z.of_nat a
      /\ logged (trace (snd r)) = logged (trace w) ++ ies
      /\ Forall2 (records requestId) ies
           (rejections env request requestId (calls w) a)
      /\ requestLog (snd r)
         = match last ies with
           | Some ie => <[requestId := ie]> (requestLog w)
           | None => requestLog w
           end
      /\ mr_lastError (snd r)
         = match last ies with
           | Some ie => Some ie
           | None => mr_lastError w
           end
      /\ (is_ok (fst r) = false -> (1 <= a)%nat ->
          exists e ie,
            transport env (calls w + a - 1) request requestId = inr e
            /\ last ies = Some ie
            /\ records requestId ie e
            /\ retryCount ie = mr_attempts w + Z.of_nat a - 1).
Proof.
  assert (Hstop : forall (r : Outcome T) (w : World),
            exists (a : nat) (ies : list IntegrationError),
              calls w = (calls w + a)%nat
              /\ mr_attempts w = mr_attempts w + Z.of_nat a
              /\ logged (trace w) = logged (trace w) ++ ies
              /\ Forall2 (records requestId) ies
                   (rejections env request requestId (calls w) a)
              /\ requestLog w
                 = match last ies with
                   | Some ie => <[requestId := ie]> (requestLog w)
                   | None => requestLog w
                   end
              /\ mr_lastError w
                 = match last ies with
                   | Some ie => Some ie
                   | None => mr_lastError w
                   end
              /\ (is_ok r = false -> (1 <= a)%nat ->
                  exists e ie,
                    transport env (calls w + a - 1) request requestId = inr e
                    /\ last ies = Some ie
                    /\ records requestId ie e
                    /\ retryCount ie = mr_attempts w + Z.of_nat a - 1)).
  { intros r w. exists 0%nat, []. cbn [rejections last].
    rewrite app_nil_r. repeat split; try lia; try constructor. }
  induction fuel as [| fuel IH]; intros lastError attempt w; cbv zeta.
  - cbn [loop fst snd]. apply Hstop.
  - cbn [loop].
    destruct (attempt <? maxAttempts config); [| cbn [fst snd]; apply Hstop].
    pose proof (operation_effect env endpoint request requestId w)
      as (Hc & _ & Ha & _ & Hout).
    cbv zeta in Hc, Ha, Hout.
    destruct (attempt_op w) as [r1 w1]. cbn [fst snd] in *.
    destruct (transport env (calls w) request requestId) as [v | e] eqn:Htr.
    + destruct Hout as (-> & Hlg & Hlog & Hle). cbn [fst snd].
      exists 1%nat, []. cbn [rejections last]. rewrite Htr, app_nil_r.
      repeat split; try lia; try constructor; try assumption.
      discriminate.
    + destruct Hout as (-> & ie & Hlg & Hlog & Hle & Hid & Hty & Hmsg & Hrc).
      assert (Hrec : records requestId ie e) by (repeat split; assumption).
      assert (Hone :
        exists (a : nat) (ies : list IntegrationError),
          calls w1 = (calls w + a)%nat
          /\ mr_attempts w1 = mr_attempts w + Z.of_nat a
          /\ logged (trace w1) = logged (trace w) ++ ies
          /\ Forall2 (records requestId) ies
               (rejections env request requestId (calls w) a)
          /\ requestLog w1
             = match last ies with
               | Some ie => <[requestId := ie]> (requestLog w)
               | None => requestLog w
               end
          /\ mr_lastError w1
             = match last ies with
               | Some ie => Some ie
               | None => mr_lastError w
               end
          /\ ((1 <= a)%nat ->
              exists e ie,
                transport env (calls w + a - 1) request requestId = inr e
                /\ last ies = Some ie
                /\ records requestId ie e
                /\ retryCount ie = mr_attempts w + Z.of_nat a - 1)).
      { exists 1%nat, [ie]. cbn [rejections last]. rewrite Htr.
        repeat split; try lia; try assumption.
        - repeat constructor; assumption.
        - intros _. exists e, ie.
          replace (calls w + 1 - 1)%nat with (calls w) by lia.
          repeat split; try assumption. lia. }
      assert (Hnext : forall w1',
        calls w1' = calls w1 ->
        mr_attempts w1' = mr_attempts w1 ->
        mr_lastError w1' = mr_lastError w1 ->
        requestLog w1' = requestLog w1 ->
        logged (trace w1') = logged (trace w1) ->
        let r := loop env config fuel attempt_op (ErrObj e) (attempt + 1) w1' in
        exists (a : nat) (ies : list IntegrationError),
          calls (snd r) = (calls w + a)%nat
          /\ mr_attempts (snd r) = mr_attempts w + Z.of_nat a
          /\ logged (trace (snd r)) = logged (trace w) ++ ies
          /\ Forall2 (records requestId) ies
               (rejections env request requestId (calls w) a)
          /\ requestLog (snd r)
             = match last ies with
               | Some ie => <[requestId := ie]> (requestLog w)
               | None => requestLog w
               end
          /\ mr_lastError (snd r)
             = match last ies with
               | Some ie => Some ie
               | None => mr_lastError w
               end
          /\ (is_ok (fst r) = false -> (1 <= a)%nat ->
              exists e ie,
                transport env (calls w + a - 1) request requestId = inr e
                /\ last ies = Some ie
                /\ records requestId ie e
                /\ retryCount ie = mr_attempts w + Z.of_nat a - 1)).
      { intros w1' Fc Fa Fl Fg Ft. cbv zeta.
        destruct (IH (ErrObj e) (attempt + 1) w1')
          as (a' & ies' & Ic & Ia & It & If & Ig & Il & Iend).
        cbv zeta in *.
        exists (S a'), (ie :: ies'). cbn [rejections]. rewrite Htr.
        rewrite Fc, Hc in Ic. rewrite Fa, Ha in Ia.
        rewrite Ft, Hlg in It. rewrite Fg, Hlog in Ig. rewrite Fl, Hle in Il.
        rewrite Fc, Hc in If. rewrite Fc, Hc, Fa, Ha in Iend.
        rewrite last_cons.
        split; [lia |]. split; [lia |].
        split; [rewrite It, <- app_assoc; reflexivity |].
        split; [constructor; assumption |].
        split; [| split].
        - rewrite Ig. destruct (last ies'); [apply insert_insert_eq | reflexivity].
        - rewrite Il. destruct (last ies'); reflexivity.
        - intros Hfail _. destruct a' as [| a''].
          + inversion If; subst. exists e, ie. cbn [last].
            replace (calls w + 1 - 1)%nat with (calls w) by lia.
            repeat split; try assumption. lia.
          + destruct (Iend Hfail ltac:(lia)) as (e' & ie' & He' & Hl' & Hr' & Hc').
            exists e', ie'. rewrite Hl'.
            replace (calls w + S (S a'') - 1)%nat
              with (S (calls w) + S a'' - 1)%nat by lia.
            repeat split; try assumption; try apply Hr'. lia. }
      destruct (shouldRetry (ErrObj e)) as [[|] | te]; cbn [fst snd].
      * destruct (attempt + 1 <? maxAttempts config).
        -- pose proof (pause_view (attempt + 1) w1) as (Pc & Pa & Pl & Pg & Pt).
           cbv zeta in Pc, Pa, Pl, Pg, Pt.
           destruct (calculateDelay env config (attempt + 1) w1) as [d w2].
           cbn [fst snd] in *.
           apply Hnext; assumption.
        -- apply Hnext; reflexivity.
      * destruct Hone as (a & ies & H1 & H2 & H3 & H4 & H5 & H6 & H7).
        exists a, ies. repeat split; try assumption. intros _. exact H7.
      * destruct Hone as (a & ies & H1 & H2 & H3 & H4 & H5 & H6 & H7).
        exists a, ies. repeat split; try assumption. intros _. exact H7.
Qed.

End ErrorLog.

Section BreakerView.

Import CircuitBreaker.

Variable endpointId : string.
Variable config : CircuitBreakerConfig.

Lemma same_view_refl (w : World) : same_view w w.
Proof. repeat split. Qed.

Lemma same_view_trans (w1 w2 w3 : World) :
  same_view w1 w2 -> same_view w2 w3 -> same_view w1 w3.
Proof.
  intros (A1 & A2 & A3 & A4 & A5 & A6) (B1 & B2 & B3 & B4 & B5 & B6).
  repeat split; congruence.
Qed.

Lemma same_view_onSuccess (b : t) (w : World) :
  same_view (snd (onSuccess b w)) w.
Proof.
  unfold onSuccess.
  destruct (state b); try apply same_view_refl.
  destruct (3 <=? successCount b + 1); [| apply same_view_refl].
  cbn [snd]. unfold same_view. cbn [now calls mr_attempts mr_lastError
    requestLog trace emit].
  rewrite logged_app. change (logged [EvStateChange CLOSED]) with (@nil IntegrationError).
  rewrite app_nil_r. repeat split.
Qed.

Lemma same_view_onFailure (b : t) (w : World) :
  same_view (snd (onFailure config b w)) w.
Proof.
  unfold onFailure.
  destruct (failureThreshold config <=? failures b + 1);
    [| apply same_view_refl].
  cbn [snd]. unfold same_view. cbn [now calls mr_attempts mr_lastError
    requestLog trace emit].
  rewrite !logged_app.
  change (logged [EvStateChange OPEN]) with (@nil IntegrationError).
  change (logged [EvCircuitOpen (failures b + 1)]) with (@nil IntegrationError).
  rewrite !app_nil_r. repeat split.
Qed.

Lemma execute_rejects {A} (operation : M A) (b : t) (w : World) :
  enabled config = true ->
  state b = OPEN ->
  now w - lastFailureTime b < resetTimeout config ->
  execute endpointId config operation b w
  = (Throw (open_error endpointId), b, w).
Proof.
  intros Hen Hst Hearly. unfold execute. rewrite Hen, Hst. cbn [negb].
  destruct (Z.ltb_spec (now w - lastFailureTime b) (resetTimeout config));
    [reflexivity | lia].
Qed.

(** A call through the breaker either is rejected, and then changes nothing,
    or runs the operation once, from a world the client sees as the one the
    call started in, and ends in a world the client sees as the one the
    operation ended in. *)
Lemma execute_view {A} (operation : M A) (b : t) (w : World) :
  let r := execute endpointId config operation b w in
  (is_ok (fst (fst r)) = false /\ snd r = w)
  \/ (exists w_in,
        same_view w_in w
        /\ fst (fst r) = fst (operation w_in)
        /\ same_view (snd r) (snd (operation w_in))).
Proof.
  cbv zeta. unfold execute.
  destruct (enabled config); cbn [negb].
  2:{ right. exists w. destruct (operation w) as [r w1]. cbn [fst snd].
      split; [apply same_view_refl | split; [reflexivity |]].
      apply same_view_refl. }
  assert (Hrun : forall b1 w1,
    same_view w1 w ->
    let r := match operation w1 with
             | (Ok result, w2) =>
                 let '(b3, w3) := onSuccess b1 w2 in (Ok result, b3, w3)
             | (Throw error, w2) =>
                 let '(b3, w3) := onFailure config b1 w2 in
                 (Throw error, b3, w3)
             end in
    exists w_in,
      same_view w_in w
      /\ fst (fst r) = fst (operation w_in)
      /\ same_view (snd r) (snd (operation w_in))).
  { intros b1 w1 Hv. cbv zeta. exists w1.
    destruct (operation w1) as [[v | e] w2].
    - pose proof (same_view_onSuccess b1 w2) as Hs.
      destruct (onSuccess b1 w2). cbn [fst snd] in *.
      split; [exact Hv | split; [reflexivity | exact Hs]].
    - pose proof (same_view_onFailure b1 w2) as Hs.
      destruct (onFailure config b1 w2). cbn [fst snd] in *.
      split; [exact Hv | split; [reflexivity | exact Hs]]. }
  destruct (state b).
  - right. apply Hrun, same_view_refl.
  - destruct (now w - lastFailureTime b <? resetTimeout config).
    + left. split; reflexivity.
    + right. apply Hrun. unfold same_view.
      cbn [now calls mr_attempts mr_lastError requestLog trace emit].
      rewrite logged_app.
      change (logged [EvStateChange HALF_OPEN]) with (@nil IntegrationError).
      rewrite app_nil_r. repeat split.
  - right. apply Hrun, same_view_refl.
Qed.

End BreakerView.

(** ** The result of makeRequest (C1, C10) *)

Section MakeRequest.

Context {T : Type}.
Variable env : Env T.
Variable endpoint : IntegrationEndpoint.

Local Abbreviation request_id w := (fst (IntegrationClient.generateRequestId env w)).

(** What a call of makeRequest returns and leaves behind, in terms of the
    number [a] of transport invocations it made and of the error records
    [ies] it emitted. *)
Lemma makeRequest_account (request : IntegrationRequest)
    (b : CircuitBreaker.t) (w : World) :
  let requestId := request_id w in
  let r := IntegrationClient.makeRequest env endpoint request b w in
  let w' := snd r in
  exists (resp : IntegrationResponse T) (a : nat)
         (ies : list IntegrationError),
    fst (fst r) = Ok resp
    /\ attempts resp = Z.of_nat a
    /\ (success resp = false -> error resp = last ies)
    /\ calls w' = (calls w + a)%nat
    /\ logged (trace w') = logged (trace w) ++ ies
    /\ Forall2 (records requestId) ies
         (rejections env request requestId (calls w) a)
    /\ requestLog w'
       = match last ies with
         | Some ie => <[requestId := ie]> (requestLog w)
         | None => requestLog w
         end
    /\ (success resp = false -> (1 <= a)%nat ->
        exists e ie,
          transport env (calls w + a - 1) request requestId = inr e
          /\ last ies = Some ie
          /\ records requestId ie e
          /\ retryCount ie = Z.of_nat a - 1).
Proof.
  cbv zeta. unfold IntegrationClient.makeRequest.
  destruct (IntegrationClient.generateRequestId env w) as [rid w0] eqn:Hgen.
  cbn [fst]. unfold IntegrationClient.generateRequestId in Hgen.
  injection Hgen as Hrid Hw0.
  set (w1 := set_lastError None (set_attempts 0 w0)).
  assert (Hw1 : calls w1 = calls w /\ mr_attempts w1 = 0
                /\ mr_lastError w1 = None /\ requestLog w1 = requestLog w
                /\ logged (trace w1) = logged (trace w)).
  { subst w1 w0. repeat split. }
  destruct Hw1 as (Wc & Wa & Wl & Wg & Wt).
  set (op := RetryHandler.execute env (retryConfig endpoint)
               (IntegrationClient.operation env endpoint request rid)).
  pose proof (execute_view (ep_id endpoint) (circuitBreakerConfig endpoint)
                op b w1) as Hview.
  cbv zeta in Hview.
  destruct (CircuitBreaker.execute (ep_id endpoint)
              (circuitBreakerConfig endpoint) op b w1) as [[r b'] w'].
  cbn [fst snd] in Hview.
  destruct Hview as [[Hfail ->] | (w_in & Hin & Hr & Hout)].
  - destruct r as [v | thrown]; [discriminate |]. cbn [fst snd].
    eexists _, 0%nat, []. split; [reflexivity |].
    cbn [attempts success error rejections last].
    rewrite app_nil_r, Wa, Wl.
    repeat split; try lia; try constructor; assumption.
  - destruct Hin as (_ & Ic & Ia & Il & Ig & It).
    destruct Hout as (_ & Oc & Oa & Ol & Og & Ot).
    subst op. unfold RetryHandler.execute in *.
    destruct (loop_log env endpoint (retryConfig endpoint) request rid
                (Z.to_nat (maxAttempts (retryConfig endpoint)))
                Undefined 0 w_in)
      as (a & ies & Lc & La & Lt & Lf & Lg & Ll & Lend).
    cbv zeta in *.
    rewrite <- Oc, Ic, Wc in Lc.
    rewrite <- Oa, Ia, Wa in La.
    rewrite <- Ot, It, Wt in Lt.
    rewrite Ic, Wc in Lf.
    rewrite <- Og, Ig, Wg in Lg.
    rewrite <- Ol, Il, Wl in Ll.
    rewrite <- Hr, Ic, Wc, Ia, Wa in Lend.
    assert (Hlast : mr_lastError w' = last ies).
    { rewrite Ll. destruct (last ies); reflexivity. }
    destruct r as [v | thrown]; cbn [fst snd].
    + eexists _, a, ies. split; [reflexivity |].
      cbn [attempts success error].
      repeat split; try assumption; try lia; discriminate.
    + eexists _, a, ies. split; [reflexivity |].
      cbn [attempts success error].
      split; [lia |]. split; [intros _; exact Hlast |].
      split; [exact Lc |]. split; [exact Lt |]. split; [exact Lf |].
      split; [exact Lg |].
      intros _ Ha. destruct (Lend eq_refl Ha) as (e & ie & H1 & H2 & H3 & H4).
      exists e, ie. repeat split; try assumption; try apply H3; lia.
Qed.

End MakeRequest.

Section ResultContract.

Context {T : Type}.
Variable env : Env T.
Variable endpoint : IntegrationEndpoint.

Lemma makeRequest_rejected (request : IntegrationRequest)
    (b : CircuitBreaker.t) (w : World) :
  enabled (circuitBreakerConfig endpoint) = true ->
  CircuitBreaker.state b = OPEN ->
  now w - CircuitBreaker.lastFailureTime b
    < resetTimeout (circuitBreakerConfig endpoint) ->
  IntegrationClient.makeRequest env endpoint request b w
  = (Ok {| success := false; data := None; error := None; attempts := 0;
           totalTime := 0 |},
     b, set_lastError None (set_attempts 0 (count_draw w))).
Proof.
  intros Hen Hst Hearly. unfold IntegrationClient.makeRequest.
  unfold IntegrationClient.generateRequestId.
  rewrite execute_rejects by assumption.
  cbn [now mr_attempts mr_lastError set_lastError set_attempts count_draw].
  rewrite Z.sub_diag. reflexivity.
Qed.

(** C10: every attempt of a call whose transport invocation rejects stores
    the record built for that rejection in the error log, under the request
    id of the call, and emits it as one integrationError event.  A call of
    makeRequest that makes [a] transport invocations therefore emits one such
    event for each of those that reject, in order, and nothing else of that
    kind, whether or not a later attempt succeeds; and the error log it leaves
    is the one it found, with the record of its last rejection under the
    request id if there was a rejection: at most one entry for the call. *)
Theorem C10_failed_attempts_are_logged (request : IntegrationRequest)
    (b : CircuitBreaker.t) (w : World) :
  let requestId := fst (IntegrationClient.generateRequestId env w) in
  let w' := snd (IntegrationClient.makeRequest env endpoint request b w) in
  (forall (w0 : World) (e : JsError),
     transport env (calls w0) request requestId = inr e ->
     let w1 :=
       snd (IntegrationClient.operation env endpoint request requestId w0) in
     exists ie,
       records requestId ie e
       /\ requestLog w1 = <[requestId := ie]> (requestLog w0)
       /\ logged (trace w1) = logged (trace w0) ++ [ie])
  /\ exists (a : nat) (ies : list IntegrationError),
       calls w' = (calls w + a)%nat
       /\ logged (trace w') = logged (trace w) ++ ies
       /\ Forall2 (records requestId) ies
            (rejections env request requestId (calls w) a)
       /\ requestLog w'
          = match last ies with
            | Some ie => <[requestId := ie]> (requestLog w)
            | None => requestLog w
            end.
Proof.
  cbv zeta. split.
  - intros w0 e He.
    pose proof (operation_effect env endpoint request
                  (fst (IntegrationClient.generateRequestId env w)) w0)
      as (_ & _ & _ & _ & Hout).
    cbv zeta in Hout. rewrite He in Hout.
    destruct Hout as (_ & ie & Hlg & Hlog & _ & Hid & Hty & Hmsg & _).
    exists ie. split; [repeat split; assumption |]. split; assumption.
  - destruct (makeRequest_account env endpoint request b w)
      as (resp & a & ies & _ & _ & _ & Hc & Ht & Hf & Hg & _).
    exists a, ies. repeat split; assumption.
Qed.

(** C1, amended: makeRequest always returns a Result and throws nothing.
    When the breaker rejects the call (enabled, OPEN, resetTimeout not
    elapsed) the Result has success = false and 0 attempts, and the transport
    has not been invoked.  When it returns success = false after at least one
    attempt (retries exhausted, or an error that is not retried), the last
    transport invocation was rejected and the error field holds the record
    built for that rejection: the request id of the call, the kind the
    classifier gives, the number of earlier attempts; the same record is in
    the error log under the request id. *)
Theorem C1_result_contract (request : IntegrationRequest)
    (b : CircuitBreaker.t) (w : World) :
  let requestId := fst (IntegrationClient.generateRequestId env w) in
  let r := IntegrationClient.makeRequest env endpoint request b w in
  exists resp,
    fst (fst r) = Ok resp
    /\ (enabled (circuitBreakerConfig endpoint) = true ->
        CircuitBreaker.state b = OPEN ->
        now w - CircuitBreaker.lastFailureTime b
          < resetTimeout (circuitBreakerConfig endpoint) ->
        success resp = false /\ attempts resp = 0
        /\ calls (snd r) = calls w)
    /\ (success resp = false ->
        1 <= attempts resp ->
        exists e ie,
          error resp = Some ie
          /\ transport env (calls (snd r) - 1) request requestId = inr e
          /\ records requestId ie e
          /\ retryCount ie = attempts resp - 1
          /\ requestLog (snd r) !! requestId = Some ie).
Proof.
  cbv zeta.
  destruct (makeRequest_account env endpoint request b w)
    as (resp & a & ies & Hr & Ha & He & Hc & _ & _ & Hg & Hend).
  cbv zeta in *. exists resp. split; [exact Hr |]. split.
  - intros Hen Hst Hearly.
    rewrite (makeRequest_rejected request b w Hen Hst Hearly) in *.
    cbn [fst snd] in Hr. injection Hr as <-.
    cbn [success attempts calls set_lastError set_attempts count_draw].
    repeat split.
  - intros Hfail Hatt.
    destruct (Hend Hfail ltac:(lia)) as (e & ie & Htr & Hlast & Hrec & Hrc).
    exists e, ie. rewrite (He Hfail), Hc, Hg, Hlast, Ha.
    split; [reflexivity |]. split; [exact Htr |]. split; [exact Hrec |].
    split; [exact Hrc |]. apply lookup_insert_eq.
Qed.

End ResultContract.

(** C1, as stated, fails: five failed calls open the breaker of a client
    (failureThreshold 5, one attempt per call); the sixth call, one second
    later, is rejected by the breaker and returns success = false with no
    error at all. *)
Lemma C1_circuit_open_counterexample :
  let env := always_rejecting (http_error "HTTP 500: Internal Server Error") in
  let endpoint :=
    sample_endpoint single_attempt DEFAULT_CIRCUIT_BREAKER_CONFIG in
  let request := sample_request ∅ in
  let opened :=
    requests env endpoint request 5 CircuitBreaker.initial (world_at 0) in
  let r :=
    IntegrationClient.makeRequest env endpoint request
      (fst opened) (advance 1000 (snd opened)) in
  CircuitBreaker.state (fst opened) = OPEN
  /\ exists resp,
       fst (fst r) = Ok resp /\ success resp = false /\ error resp = None.
Proof. vm_compute. split; [reflexivity |]. eexists. repeat split. Qed.

(** C1 on a client whose transport always answers 500: the call that the
    open breaker rejects, and a first call that uses up its single attempt. *)
Lemma C1_result_contract_witness :
  let env := always_rejecting (http_error "HTTP 500: Internal Server Error") in
  let endpoint :=
    sample_endpoint single_attempt DEFAULT_CIRCUIT_BREAKER_CONFIG in
  let request := sample_request ∅ in
  let opened :=
    requests env endpoint request 5 CircuitBreaker.initial (world_at 0) in
  (exists resp,
     fst (fst (IntegrationClient.makeRequest env endpoint request
                 (fst opened) (advance 1000 (snd opened)))) = Ok resp
     /\ attempts resp = 0)
  /\ (exists resp ie,
        fst (fst (IntegrationClient.makeRequest env endpoint request
                    CircuitBreaker.initial (world_at 0))) = Ok resp
        /\ error resp = Some ie
        /\ errorType ie = server_error).
Proof.
  cbv zeta. split.
  - destruct (C1_result_contract
                (always_rejecting (http_error "HTTP 500: Internal Server Error"))
                (sample_endpoint single_attempt DEFAULT_CIRCUIT_BREAKER_CONFIG)
                (sample_request ∅)
                (fst (requests
                   (always_rejecting
                      (http_error "HTTP 500: Internal Server Error"))
                   (sample_endpoint single_attempt
                      DEFAULT_CIRCUIT_BREAKER_CONFIG)
                   (sample_request ∅) 5 CircuitBreaker.initial (world_at 0)))
                (advance 1000 (snd (requests
                   (always_rejecting
                      (http_error "HTTP 500: Internal Server Error"))
                   (sample_endpoint single_attempt
                      DEFAULT_CIRCUIT_BREAKER_CONFIG)
                   (sample_request ∅) 5 CircuitBreaker.initial (world_at 0)))))
      as (resp & Hr & Hrej & _).
    exists resp. split; [exact Hr |].
    apply Hrej; vm_compute; reflexivity.
  - destruct (C1_result_contract
                (always_rejecting (http_error "HTTP 500: Internal Server Error"))
                (sample_endpoint single_attempt DEFAULT_CIRCUIT_BREAKER_CONFIG)
                (sample_request ∅) CircuitBreaker.initial (world_at 0))
      as (resp & Hr & _ & Hpop).
    assert (Hresp := Hr). vm_compute in Hresp. injection Hresp as Hresp.
    destruct Hpop as (e & ie & He & Ht & (_ & Hkind & _) & _).
    + rewrite <- Hresp. reflexivity.
    + rewrite <- Hresp. vm_compute. discriminate.
    + exists resp, ie. split; [exact Hr |]. split; [exact He |].
      rewrite Hkind. vm_compute in Ht. injection Ht as <-. reflexivity.
Defined.

(** C10 on the first attempt of a call whose transport rejects twice. *)
Lemma C10_failed_attempts_are_logged_witness :
  let env := rejecting_first 2 (http_error "HTTP 503: Service Unavailable") in
  let endpoint :=
    sample_endpoint (no_jitter DEFAULT_RETRY_CONFIG)
      DEFAULT_CIRCUIT_BREAKER_CONFIG in
  let w1 :=
    snd (IntegrationClient.operation env endpoint (sample_request ∅)
           "req_0_k3x9q0z1a" (world_at 0)) in
  exists ie,
    records "req_0_k3x9q0z1a" ie (http_error "HTTP 503: Service Unavailable")
    /\ requestLog w1 = <[ "req_0_k3x9q0z1a"%string := ie ]> ∅
    /\ logged (trace w1) = [ie].
Proof.
  cbv zeta.
  destruct (C10_failed_attempts_are_logged
              (rejecting_first 2 (http_error "HTTP 503: Service Unavailable"))
              (sample_endpoint (no_jitter DEFAULT_RETRY_CONFIG)
                 DEFAULT_CIRCUIT_BREAKER_CONFIG)
              (sample_request ∅) CircuitBreaker.initial (world_at 0))
    as [Hattempt _].
  exact (Hattempt (world_at 0)
           (http_error "HTTP 503: Service Unavailable") eq_refl).
Defined.

(** A call whose first two attempts are rejected and whose third succeeds:
    two integrationError events, one log entry, the record of the second
    rejection. *)
Example two_rejections_then_success :
  let env := rejecting_first 2 (http_error "HTTP 503: Service Unavailable") in
  let endpoint :=
    sample_endpoint (no_jitter DEFAULT_RETRY_CONFIG)
      DEFAULT_CIRCUIT_BREAKER_CONFIG in
  let r :=
    IntegrationClient.makeRequest env endpoint (sample_request ∅)
      CircuitBreaker.initial (world_at 0) in
  (exists resp, fst (fst r) = Ok resp /\ success resp = true
                /\ attempts resp = 3)
  /\ map retryCount (logged (trace (snd r))) = [0; 1]
  /\ size (requestLog (snd r)) = 1%nat
  /\ retryCount <$> (requestLog (snd r) !! "req_0_k3x9q0z1a"%string) = Some 1.
Proof. vm_compute. split; [eexists; repeat split | repeat split]. Qed.

(** The end-to-end scenario of the specification: failureThreshold 5,
    resetTimeout 60000 ms, one attempt per call. *)
Example breaker_end_to_end :
  let env := always_rejecting (http_error "HTTP 500: Internal Server Error") in
  let endpoint :=
    sample_endpoint single_attempt DEFAULT_CIRCUIT_BREAKER_CONFIG in
  let request := sample_request ∅ in
  let opened :=
    requests env endpoint request 5 CircuitBreaker.initial (world_at 0) in
  let sixth :=
    IntegrationClient.makeRequest env endpoint request
      (fst opened) (advance 1000 (snd opened)) in
  let seventh :=
    IntegrationClient.makeRequest env endpoint request
      (snd (fst sixth)) (advance 60000 (snd sixth)) in
  CircuitBreaker.state (fst opened) = OPEN
  /\ calls (snd opened) = 5%nat
  /\ calls (snd sixth) = 5%nat
  /\ calls (snd seventh) = 6%nat
  /\ In (EvStateChange HALF_OPEN) (trace (snd seventh)).
Proof. vm_compute. repeat split. tauto. Qed.

(** * Further properties *)

(** ** The breaker: passthrough, rejection, counters *)

Section BreakerFurther.

Import CircuitBreaker.

Variable endpointId : string.
Variable config : CircuitBreakerConfig.

(** X1: a disabled breaker is a passthrough for any sequence of calls: the
    outcomes and the final world are those of the operations run on their
    own, no call is rejected, and the breaker is left exactly as it was. *)
Theorem X1_disabled_breaker_passthrough {A} (ops : list (M A)) (b : t)
    (w : World) :
  enabled config = false ->
  run_calls endpointId config ops b w
  = (fst (run_ops ops w), b, snd (run_ops ops w)).
Proof.
  intros Hoff. revert w.
  induction ops as [| op ops IH]; intros w; [reflexivity |].
  cbn [run_calls run_ops]. unfold execute at 1. rewrite Hoff. cbn [negb].
  destruct (op w) as [r w1]. rewrite IH.
  destruct (run_ops ops w1) as [rs w2]. reflexivity.
Qed.


Lemma counters_agree_execute {A} (operation : M A) (b : t) (w : World) :
  1 <= failureThreshold config ->
  counters_agree config b ->
  counters_agree config (snd (fst (execute endpointId config operation b w))).
Proof.
  intros HF Hinv. pose proof Hinv as (Hf & Hs & Hc & Ho & Hh).
  assert (Hok : forall b1 w1, state b1 <> OPEN -> 0 <= successCount b1 ->
            (state b1 = HALF_OPEN -> successCount b1 < 3) ->
            counters_agree config (fst (onSuccess b1 w1))).
  { intros b1 w1 H1 H2 H3. unfold onSuccess, counters_agree.
    destruct (state b1) eqn:E; try congruence.
    - cbn. repeat split; try lia; try discriminate.
    - destruct (Z.leb_spec 3 (successCount b1 + 1)); cbn;
        repeat split; try lia; try discriminate. }
  assert (Hko : forall b1 w1, state b1 <> OPEN -> 0 <= failures b1 ->
            counters_agree config (fst (onFailure config b1 w1))).
  { intros b1 w1 H1 H2. unfold onFailure, counters_agree.
    destruct (Z.leb_spec (failureThreshold config) (failures b1 + 1)); cbn;
      repeat split; try lia; try discriminate; try congruence. }
  unfold execute.
  destruct (enabled config); cbn [negb];
    [| destruct (operation w); exact Hinv ].
  destruct (state b) eqn:E.
  - destruct (operation w) as [[v | e] w2].
    + pose proof (Hok b w2 ltac:(congruence) Hs
                    ltac:(intros; congruence)) as H.
      destruct (onSuccess b w2); exact H.
    + pose proof (Hko b w2 ltac:(congruence) Hf) as H.
      destruct (onFailure config b w2); exact H.
  - destruct (now w - lastFailureTime b <? resetTimeout config);
      [exact Hinv |].
    destruct (Ho eq_refl) as [_ Hzero].
    destruct (operation _) as [[v | e] w2].
    + pose proof (Hok (half_open b) w2) as H.
      cbn [half_open state successCount] in H.
      specialize (H ltac:(discriminate) ltac:(lia) ltac:(lia)).
      destruct (onSuccess (half_open b) w2); exact H.
    + pose proof (Hko (half_open b) w2 ltac:(discriminate) Hf) as H.
      destruct (onFailure config (half_open b) w2); exact H.
  - destruct (operation w) as [[v | e] w2].
    + pose proof (Hok b w2 ltac:(congruence) Hs
                    ltac:(intros; apply Hh; congruence)) as H.
      destruct (onSuccess b w2); exact H.
    + pose proof (Hko b w2 ltac:(congruence) Hf) as H.
      destruct (onFailure config b w2); exact H.
Qed.

Lemma history_agree {A} (hist : list (Action A)) (w0 : World) :
  1 <= failureThreshold config ->
  counters_agree config (fst (run_history endpointId config hist w0)).
Proof.
  intros HF. unfold run_history.
  assert (Hinit : counters_agree config (fst (initial, w0))).
  { unfold counters_agree. cbn. repeat split; try lia; discriminate. }
  revert Hinit. generalize (initial, w0).
  induction hist as [| a hist IH]; intros bw Hbw; cbn [fold_left];
    [exact Hbw |].
  apply IH. destruct a as [op | | dt]; cbn [act].
  - pose proof (counters_agree_execute op (fst bw) (snd bw) HF Hbw) as H.
    destruct (execute endpointId config op (fst bw) (snd bw)) as [[r b1] w1].
    exact H.
  - unfold counters_agree. cbn. repeat split; try lia; discriminate.
  - exact Hbw.
Qed.

(** X3: with failureThreshold at least 1, whatever calls, resets and waits a
    breaker has been through, neither counter is negative and a CLOSED
    breaker has counted fewer failures than the threshold; this holds also
    when calls overlap.  When calls do not overlap, the counters agree with
    the state further: an OPEN breaker has counted at least the threshold
    and no success, a HALF_OPEN one at most two successes.  Calls that
    overlap break this: an enabled breaker can be OPEN with no failure and
    one success counted, when a call admitted before the breaker opened
    succeeds after it has opened. *)
Theorem X3_breaker_counters_agree :
  1 <= failureThreshold config ->
  (forall (A : Type) (hist : list (Action A)) (w0 : World),
     let b := fst (run_history endpointId config hist w0) in
     0 <= failures b
     /\ 0 <= successCount b
     /\ (state b = CLOSED -> failures b < failureThreshold config)
     /\ (state b = OPEN ->
         failureThreshold config <= failures b /\ successCount b = 0)
     /\ (state b = HALF_OPEN -> successCount b < 3))
  /\ (forall (moves : list Move) (w0 : World) (r : Running),
        run_moves config moves (start w0) = Some r ->
        0 <= failures (r_breaker r)
        /\ 0 <= successCount (r_breaker r)
        /\ (state (r_breaker r) = CLOSED ->
            failures (r_breaker r) < failureThreshold config))
  /\ (enabled config = true ->
      forall w0 : World,
        exists (moves : list Move) (r : Running),
          run_moves config moves (start w0) = Some r
          /\ in_flight r = 0%nat
          /\ state (r_breaker r) = OPEN
          /\ failures (r_breaker r) = 0
          /\ successCount (r_breaker r) = 1).
Proof.
  intros HF. split; [| split].
  - intros A hist w0. exact (history_agree hist w0 HF).
  - intros moves w0 r Hrun.
    apply (run_moves_sound config moves HF (start w0) r); [| exact Hrun].
    unfold counters_sound. cbn. repeat split; try lia.
  - intros Hen w0.
    destruct (overlap_resets_counter config w0 Hen HF)
      as (r & Hrun & Hk & Hst & Hf & Hs & _).
    eexists _, r. split; [exact Hrun |]. auto.
Qed.

End BreakerFurther.

(** X1 on a breaker switched off: three failures in a row and it still lets
    the fourth call through. *)
Lemma X1_disabled_breaker_passthrough_witness :
  let config :=
    {| enabled := false; failureThreshold := 1; resetTimeout := 60000;
       monitoringWindow := 300000 |} in
  let e := http_error "HTTP 503: Service Unavailable" in
  let ops : list (M unit) :=
    [failing e 5; failing e 5; failing e 5; succeeding tt 5] in
  run_calls "crm" config ops CircuitBreaker.initial (world_at 0)
  = ([Throw (ErrObj e); Throw (ErrObj e); Throw (ErrObj e); Ok tt],
     CircuitBreaker.initial, world_at 20).
Proof.
  cbv zeta.
  rewrite (X1_disabled_breaker_passthrough "crm"
             {| enabled := false; failureThreshold := 1;
                resetTimeout := 60000; monitoringWindow := 300000 |}
             _ CircuitBreaker.initial (world_at 0) eq_refl).
  reflexivity.
Defined.


(** X3 with threshold 2: after two failures, a wait and a successful probe,
    calls that did not overlap; and after three calls that entered together,
    two of which failed before the third succeeded. *)
Lemma X3_breaker_counters_agree_witness :
  let config := with_threshold 2 DEFAULT_CIRCUIT_BREAKER_CONFIG in
  let e := http_error "HTTP 503: Service Unavailable" in
  let hist : list (Action unit) :=
    [Exec (failing e 5); Exec (failing e 5); Wait 60000;
     Exec (succeeding tt 20)] in
  let moves := [Enter; Enter; Enter; Leave false; Leave false; Leave true] in
  CircuitBreaker.successCount (fst (run_history "crm" config hist (world_at 0)))
  < 3
  /\ exists r,
       run_moves config moves (start (world_at 0)) = Some r
       /\ CircuitBreaker.state (r_breaker r) = OPEN
       /\ 0 <= CircuitBreaker.failures (r_breaker r) < 2.
Proof.
  cbv zeta.
  destruct (X3_breaker_counters_agree "crm"
              (with_threshold 2 DEFAULT_CIRCUIT_BREAKER_CONFIG)
              ltac:(vm_compute; discriminate))
    as (Hseq & Hany & _).
  split.
  - apply (Hseq unit
             [Exec (failing (http_error "HTTP 503: Service Unavailable") 5);
              Exec (failing (http_error "HTTP 503: Service Unavailable") 5);
              Wait 60000; Exec (succeeding tt 20)] (world_at 0)).
    vm_compute. reflexivity.
  - eexists. split; [vm_compute; reflexivity |].
    split; [reflexivity |].
    split; [| vm_compute; reflexivity].
    match goal with
    | |- 0 <= CircuitBreaker.failures (r_breaker ?r) =>
        exact (proj1 (Hany [Enter; Enter; Enter; Leave false; Leave false;
                            Leave true] (world_at 0) r eq_refl))
    end.
Defined.

(** ** The retry handler: jitter, growth of the delay, refused errors *)

Section RetryFurther.

Import RetryHandler.

Context {T : Type}.
Variable env : Env T.
Variable endpoint : IntegrationEndpoint.
Variable config : RetryConfig.
Variable request : IntegrationRequest.
Variable requestId : string.

Lemma Qred_inject_Z (z : Z) : Qred (inject_Z z) = inject_Z z.
Proof.
  unfold Qred, inject_Z. cbn [Qnum Qden].
  pose proof (Z.ggcd_gcd z 1) as Hg.
  pose proof (Z.ggcd_correct_divisors z 1) as Hd.
  destruct (Z.ggcd z 1) as [g [n d]]. cbn [fst snd] in *.
  rewrite Z.gcd_1_r in Hg. subst g. destruct Hd as [Hn Hd].
  replace n with z by lia. replace d with 1 by lia. reflexivity.
Qed.

(** The integers below 2^53 are doubles. *)
Lemma round_integer (z : Z) :
  Z.abs z < 2 ^ 53 -> Number.round (inject_Z z) = Number.Finite (inject_Z z).
Proof.
  assert (Hpos : forall n : positive,
            Zpos n < 2 ^ 53 ->
            Number.round_pos n 1 = Number.Finite (inject_Z (Zpos n))).
  { intros n Hn. unfold Number.round_pos, Number.floor_log2.
    change (Z.log2 1) with 0. rewrite Z.sub_0_r.
    pose proof (Z.log2_spec (Zpos n) ltac:(lia)) as [Hlo Hhi].
    pose proof (Z.log2_nonneg (Zpos n)) as Hlog.
    assert (Hlt : Z.log2 (Zpos n) < 53)
      by (apply Z.log2_lt_pow2; lia).
    destruct (Z.leb_spec 0 (Z.log2 (Zpos n))); [| lia].
    destruct (Z.leb_spec (1 * 2 ^ Z.log2 (Zpos n)) (Zpos n)); [| lia].
    set (e := Z.log2 (Zpos n)) in *.
    rewrite Z.max_l by lia.
    destruct (Z.ltb_spec 971 (e - 52)); [lia |].
    destruct (Z.eqb_spec (e - 52) 971); [lia |]. cbn [orb andb].
    unfold Number.scaled.
    destruct (Z.leb_spec 0 (e - 52)).
    - assert (e - 52 = 0) as -> by lia. change (2 ^ 0) with 1.
      rewrite !Z.mul_1_r. unfold Number.nearest_even.
      rewrite Z.div_1_r, Z.mod_1_r. reflexivity.
    - unfold Number.nearest_even.
      rewrite Z.div_1_r, Z.mod_1_r. change (2 * 0 ?= 1) with Lt. cbv iota.
      rewrite <- (Qred_inject_Z (Zpos n)). f_equal.
      apply Qred_complete. unfold Qeq, inject_Z. cbn [Qnum Qden].
      assert (0 < 2 ^ (- (e - 52))) by (apply Z.pow_pos_nonneg; lia).
      rewrite Z2Pos.id by assumption. lia. }
  intros Hz. unfold Number.round, inject_Z. cbn [Qnum Qden].
  destruct z as [| n | n]; [reflexivity | apply Hpos; lia |].
  rewrite Hpos by lia. unfold Number.neg, inject_Z.
  f_equal. change (- (Zpos n # 1))%Q with (inject_Z (Zneg n)).
  apply Qred_inject_Z.
Qed.

Lemma mul_integers (a b : Z) :
  Z.abs (a * b) < 2 ^ 53 ->
  Number.mul (inject_Z a) (inject_Z b) = Number.Finite (inject_Z (a * b)).
Proof.
  intros H. unfold Number.mul.
  change (inject_Z a * inject_Z b)%Q with (inject_Z (a * b)).
  now apply round_integer.
Qed.

(** A power of an integer that stays below 2^53 is computed as it is. *)
Lemma Math_pow_integers (m k : Z) :
  1 <= m -> 0 <= k -> m ^ k < 2 ^ 53 ->
  Math_pow env (inject_Z m) k = Number.Finite (inject_Z (m ^ k)).
Proof.
  intros Hm Hk Hsmall. unfold Math_pow.
  destruct (Z.eqb_spec k 0) as [-> | Hnz]; [reflexivity |].
  assert (Hq : (inject_Z m ^ k)%Q = inject_Z (m ^ k)).
  { destruct k as [| p | p]; try lia.
    unfold Qpower, inject_Z. rewrite Qpower_decomp_positive.
    assert (Hone : (1 ^ p)%positive = 1%positive)
      by (apply Pos2Z.inj; rewrite Pos2Z.inj_pow; apply Z.pow_1_l; lia).
    now rewrite Hone. }
  assert (Hnot0 : Qeq_bool (inject_Z m) 0 = false).
  { destruct (Qeq_bool (inject_Z m) 0) eqn:E; [| reflexivity].
    apply Qeq_bool_eq in E. unfold Qeq, inject_Z in E. cbn in E. lia. }
  rewrite Hnot0, Hq. unfold Number.is_double.
  assert (0 < m ^ k) by (apply Z.pow_pos_nonneg; lia).
  rewrite round_integer by lia.
  rewrite Qeq_bool_refl. now rewrite Qred_inject_Z.
Qed.

(** X4: calculateDelay never returns a negative delay, whatever the
    configuration, the attempt and the random draw: its result is not below
    0, and a finite result is 0 or more.  It draws one random number when
    jitter is on and none when it is off. *)
Theorem X4_delay_is_never_negative (attempt : Z) (w : World) :
  let delay := fst (calculateDelay env config attempt w) in
  Number.lt delay 0 = false
  /\ (forall q : Q, delay = Number.Finite q -> (0 <= q)%Q)
  /\ draws (snd (calculateDelay env config attempt w))
     = (if jitter config then S (draws w) else draws w).
Proof.
  cbv zeta.
  assert (Hmax : forall x : Number.t,
            Number.lt (Number.Math_max x 0) 0 = false
            /\ forall q : Q,
                 Number.Math_max x 0 = Number.Finite q -> (0 <= q)%Q).
  { intros [a | | |]; cbn [Number.Math_max Number.lt];
      try (split; [reflexivity | intros q Hq; discriminate]).
    - destruct (Qle_bool 0 a) eqn:E; cbn [negb].
      + split; [cbn; now rewrite E |].
        intros q Hq. injection Hq as <-. now apply Qle_bool_iff.
      + split; [reflexivity |].
        intros q Hq. injection Hq as <-. apply Qle_refl.
    - split; [reflexivity |]. intros q Hq. injection Hq as <-.
      apply Qle_refl. }
  unfold calculateDelay.
  destruct (jitter config); cbn [fst snd draws count_draw];
    (split; [apply Hmax |]; split; [apply Hmax | reflexivity]).
Qed.

(** X5: for a baseDelay that is an integer of at least 1, a multiplier that
    is an integer of at least 1 and a maxDelay that is not NaN, as long as
    baseDelay * multiplier^(j-1) stays below 2^53, where the doubles
    compute the integers as they are, the delay before jitter does not
    shrink from attempt i to a later attempt j and never exceeds
    maxDelay. *)
Theorem X5_backoff_grows_to_the_cap (base mult : Z) (i j : Z) :
  baseDelay config = Number.Finite (inject_Z base) ->
  backoffMultiplier config = Number.Finite (inject_Z mult) ->
  maxDelay config <> Number.NaN ->
  1 <= base ->
  1 <= mult ->
  1 <= i <= j ->
  base * mult ^ (j - 1) < 2 ^ 53 ->
  Number.le (backoff env config i) (backoff env config j) = true
  /\ Number.le (backoff env config j) (maxDelay config) = true
  /\ (Number.lt (inject_Z (base * mult ^ (j - 1))) (maxDelay config) = true ->
      backoff env config j = Number.Finite (inject_Z (base * mult ^ (j - 1)))).
Proof.
  intros Hbase Hmult Hcap Hb Hm Hij Hsmall.
  assert (Hexact : forall k, 1 <= k <= j ->
            backoff env config k
            = Number.Math_min (inject_Z (base * mult ^ (k - 1)))
                              (maxDelay config)).
  { intros k Hk. unfold backoff. rewrite Hbase, Hmult.
    assert (Hle : mult ^ (k - 1) <= mult ^ (j - 1))
      by (apply Z.pow_le_mono_r; lia).
    assert (Hpos : 0 < mult ^ (k - 1)) by (apply Z.pow_pos_nonneg; lia).
    assert (Hpj : 0 < mult ^ (j - 1)) by (apply Z.pow_pos_nonneg; lia).
    rewrite Math_pow_integers by nia.
    rewrite mul_integers by nia. reflexivity. }
  rewrite (Hexact i) by lia. rewrite (Hexact j) by lia.
  assert (Hgrow : base * mult ^ (i - 1) <= base * mult ^ (j - 1)).
  { apply Z.mul_le_mono_nonneg_l; [lia |].
    apply Z.pow_le_mono_r; lia. }
  set (x := base * mult ^ (i - 1)) in *.
  set (y := base * mult ^ (j - 1)) in *.
  assert (Hxy : Qle_bool (inject_Z x) (inject_Z y) = true).
  { apply Qle_bool_iff. unfold Qle, inject_Z. cbn. lia. }
  destruct (maxDelay config) as [c | | |]; [| | | congruence];
    cbn [Number.Math_min Number.lt Number.le negb].
  - destruct (Qle_bool (inject_Z x) c) eqn:Ex;
      destruct (Qle_bool (inject_Z y) c) eqn:Ey;
      cbn [negb Number.le]; rewrite ?Qeq_bool_refl.
    + repeat split; try assumption. 
    + split; [exact Ex |]. split; [apply Qle_bool_iff, Qle_refl |].
      intros Hlt. apply negb_true_iff in Hlt.
      apply Qle_bool_iff in Ex. exfalso.
      assert (Hc : (c <= inject_Z y)%Q).
      { destruct (Qlt_le_dec (inject_Z y) c) as [Hl | Hl]; [| exact Hl].
        apply Qlt_le_weak in Hl. apply Qle_bool_iff in Hl. congruence. }
      assert (Hcy : Qle_bool c (inject_Z y) = true)
        by (now apply Qle_bool_iff).
      congruence.
    + apply Qle_bool_iff in Ey. apply Qle_bool_iff in Hxy.
      assert (Hx : Qle_bool (inject_Z x) c = true)
        by (apply Qle_bool_iff; eapply Qle_trans; eassumption).
      congruence.
    + split; [apply Qle_bool_iff, Qle_refl |].
      split; [apply Qle_bool_iff, Qle_refl |].
      intros Hlt. apply negb_true_iff in Hlt.
      assert (Hc : (c <= inject_Z y)%Q).
      { destruct (Qlt_le_dec (inject_Z y) c) as [Hl | Hl]; [| exact Hl].
        apply Qlt_le_weak in Hl. apply Qle_bool_iff in Hl. congruence. }
      assert (Hcy : Qle_bool c (inject_Z y) = true)
        by (now apply Qle_bool_iff).
      congruence.
  - repeat split; assumption.
  - repeat split; try reflexivity. intros Hlt. discriminate.
Qed.

(** X6: an error whose message contains 401, authentication, 400 or
    validation is not retried, whatever maxAttempts allows: the transport is
    invoked once, no delay is taken and the error itself is rethrown. *)
Theorem X6_refused_message_single_attempt (w : World) (e : JsError) :
  0 < maxAttempts config ->
  transport env (calls w) request requestId = inr e ->
  Js.includes (message e) "401" || Js.includes (message e) "authentication"
  || Js.includes (message e) "400" || Js.includes (message e) "validation"
  = true ->
  let r :=
    execute env config
      (IntegrationClient.operation env endpoint request requestId) w in
  fst r = Throw (ErrObj e)
  /\ calls (snd r) = S (calls w)
  /\ timeline (trace (snd r)) = timeline (trace w) ++ [EvTransport (calls w)].
Proof.
  intros Hmax He Hmsg. cbv zeta.
  pose proof (operation_effect env endpoint request requestId w)
    as (Hc & _ & _ & Ht & Hout).
  cbv zeta in Hc, Ht, Hout. rewrite He in Hout. destruct Hout as [Hr _].
  destruct (IntegrationClient.operation env endpoint request requestId w)
    as [r1 w1] eqn:Hop.
  cbn [fst snd] in *. subst r1.
  rewrite (execute_refused env config _ w w1 e Hmax Hop).
  - repeat split; assumption.
  - unfold shouldRetry.
    destruct (Js.includes (message e) "401");
      destruct (Js.includes (message e) "authentication");
      destruct (Js.includes (message e) "400");
      destruct (Js.includes (message e) "validation");
      try reflexivity; discriminate.
Qed.

End RetryFurther.

(** The doubles at work: 0.1 * 3 is 0.30000000000000004; and a baseDelay of
    0 with a multiplier whose power overflows gives 0 * Infinity, which is
    NaN, and [Math.min] and [Math.max] return it as it is. *)
Example tenth_times_three :
  Number.mul (Number.round (1 # 10)) (Number.Finite 3)
  = Number.Finite (1351079888211149 # 4503599627370496).
Proof. vm_compute. reflexivity. Qed.

Example zero_times_overflow :
  let env := always_rejecting (http_error "HTTP 503: Service Unavailable") in
  let config :=
    {| maxAttempts := 500; baseDelay := 0; maxDelay := 30000;
       backoffMultiplier := 10; jitter := false |} in
  fst (RetryHandler.calculateDelay env config 400 (world_at 0)) = Number.NaN.
Proof. vm_compute. reflexivity. Qed.

(** X4 on a configuration whose maxDelay is negative: the delay is 0. *)
Lemma X4_delay_is_never_negative_witness :
  let env := always_rejecting (http_error "HTTP 503: Service Unavailable") in
  let config :=
    {| maxAttempts := 3; baseDelay := 1000; maxDelay := (-5)%Q;
       backoffMultiplier := 2; jitter := true |} in
  let delay := fst (RetryHandler.calculateDelay env config 1 (world_at 0)) in
  exists q : Q, delay = Number.Finite q /\ (0 <= q)%Q.
Proof.
  cbv zeta. eexists. split; [vm_compute; reflexivity |].
  destruct (X4_delay_is_never_negative
              (always_rejecting (http_error "HTTP 503: Service Unavailable"))
              {| maxAttempts := 3; baseDelay := 1000; maxDelay := (-5)%Q;
                 backoffMultiplier := 2; jitter := true |}
              1 (world_at 0)) as (_ & Hq & _).
  apply Hq. vm_compute. reflexivity.
Defined.

(** X5 on the default configuration, attempts 2 and 7: 2000 and the cap. *)
Lemma X5_backoff_grows_to_the_cap_witness :
  let env := always_rejecting (http_error "HTTP 503: Service Unavailable") in
  Number.le (RetryHandler.backoff env DEFAULT_RETRY_CONFIG 2)
            (RetryHandler.backoff env DEFAULT_RETRY_CONFIG 7) = true
  /\ Number.le (RetryHandler.backoff env DEFAULT_RETRY_CONFIG 7) 30000 = true.
Proof.
  cbv zeta.
  destruct (X5_backoff_grows_to_the_cap
              (always_rejecting (http_error "HTTP 503: Service Unavailable"))
              DEFAULT_RETRY_CONFIG 1000 2 2 7
              eq_refl eq_refl ltac:(discriminate) ltac:(lia) ltac:(lia)
              ltac:(lia) ltac:(vm_compute; reflexivity))
    as (Hgrow & Hcap & _).
  split; [exact Hgrow | exact Hcap].
Defined.

(** X6 on a 401 answer, with three attempts allowed. *)
Lemma X6_refused_message_single_attempt_witness :
  let e := http_error "HTTP 401: Unauthorized" in
  let env := always_rejecting e in
  let endpoint :=
    sample_endpoint DEFAULT_RETRY_CONFIG DEFAULT_CIRCUIT_BREAKER_CONFIG in
  let r :=
    RetryHandler.execute env DEFAULT_RETRY_CONFIG
      (IntegrationClient.operation env endpoint (sample_request ∅) "req_1")
      (world_at 0) in
  fst r = Throw (ErrObj e) /\ calls (snd r) = 1%nat.
Proof.
  cbv zeta.
  destruct (X6_refused_message_single_attempt
              (always_rejecting (http_error "HTTP 401: Unauthorized"))
              (sample_endpoint DEFAULT_RETRY_CONFIG
                 DEFAULT_CIRCUIT_BREAKER_CONFIG)
              DEFAULT_RETRY_CONFIG (sample_request ∅) "req_1" (world_at 0)
              (http_error "HTTP 401: Unauthorized")
              eq_refl eq_refl eq_refl)
    as (Hr & Hc & _).
  split; [exact Hr | exact Hc].
Defined.

(** ** The client: attempts, payload, configuration edge *)

Section ClientFurther.

Import RetryHandler.

Context {T : Type}.
Variable env : Env T.
Variable endpoint : IntegrationEndpoint.

Lemma loop_calls (config : RetryConfig) (request : IntegrationRequest)
    (requestId : string) (fuel : nat) :
  forall (lastError : Thrown) (attempt : Z) (w : World),
    let r :=
      loop env config fuel
        (IntegrationClient.operation env endpoint request requestId)
        lastError attempt w in
    (calls w <= calls (snd r) <= calls w + fuel)%nat
    /\ forall v,
         fst r = Ok v ->
         (calls w < calls (snd r))%nat
         /\ transport env (calls (snd r) - 1) request requestId = inl v.
Proof.
  induction fuel as [| fuel IH]; intros lastError attempt w; cbv zeta.
  - cbn [loop fst snd]. split; [lia | discriminate].
  - cbn [loop].
    destruct (attempt <? maxAttempts config);
      [| cbn [fst snd]; split; [lia | discriminate] ].
    pose proof (operation_effect env endpoint request requestId w)
      as (Hc & _ & _ & _ & Hout).
    cbv zeta in Hc, Hout.
    destruct (IntegrationClient.operation env endpoint request requestId w)
      as [r1 w1].
    cbn [fst snd] in *.
    destruct (transport env (calls w) request requestId) as [v | e] eqn:Htr.
    + destruct Hout as [-> _]. cbn [fst snd]. split; [lia |].
      intros v' Hv. injection Hv as <-. split; [lia |].
      rewrite Hc. replace (S (calls w) - 1)%nat with (calls w) by lia.
      exact Htr.
    + destruct Hout as [-> _].
      assert (Hnext : forall w1', calls w1' = calls w1 ->
        let r := loop env config fuel
                   (IntegrationClient.operation env endpoint request requestId)
                   (ErrObj e) (attempt + 1) w1' in
        (calls w <= calls (snd r) <= calls w + S fuel)%nat
        /\ forall v,
             fst r = Ok v ->
             (calls w < calls (snd r))%nat
             /\ transport env (calls (snd r) - 1) request requestId = inl v).
      { intros w1' Hw1'. cbv zeta.
        destruct (IH (ErrObj e) (attempt + 1) w1') as [Hb Hv].
        cbv zeta in Hb, Hv. rewrite Hw1', Hc in Hb.
        split; [lia |]. intros v Hok. destruct (Hv v Hok) as [Hlt Htv].
        split; [lia | exact Htv]. }
      destruct (shouldRetry (ErrObj e)) as [[|] | te]; cbn [fst snd];
        try (split; [lia | discriminate]).
      destruct (attempt + 1 <? maxAttempts config).
      * pose proof (pause_view env config (attempt + 1) w1) as (Pc & _).
        cbv zeta in Pc.
        destruct (calculateDelay env config (attempt + 1) w1) as [d w2].
        cbn [fst snd] in Pc. apply Hnext. exact Pc.
      * apply Hnext. reflexivity.
Qed.

(** What a call of makeRequest returns, against the transport invocations
    it made. *)
Lemma makeRequest_outcome (request : IntegrationRequest)
    (b : CircuitBreaker.t) (w : World) :
  let requestId := fst (IntegrationClient.generateRequestId env w) in
  let r := IntegrationClient.makeRequest env endpoint request b w in
  let budget := Z.to_nat (maxAttempts (retryConfig endpoint)) in
  exists resp,
    fst (fst r) = Ok resp
    /\ (calls w <= calls (snd r) <= calls w + budget)%nat
    /\ (success resp = true ->
        error resp = None
        /\ (calls w < calls (snd r))%nat
        /\ exists v,
             data resp = Some v
             /\ transport env (calls (snd r) - 1) request requestId = inl v)
    /\ (success resp = false -> data resp = None).
Proof.
  cbv zeta. unfold IntegrationClient.makeRequest.
  destruct (IntegrationClient.generateRequestId env w) as [rid w0] eqn:Hgen.
  cbn [fst]. unfold IntegrationClient.generateRequestId in Hgen.
  injection Hgen as Hrid Hw0.
  set (w1 := set_lastError None (set_attempts 0 w0)).
  assert (Wc : calls w1 = calls w) by (subst w1 w0; reflexivity).
  set (op := RetryHandler.execute env (retryConfig endpoint)
               (IntegrationClient.operation env endpoint request rid)).
  pose proof (execute_view (ep_id endpoint) (circuitBreakerConfig endpoint)
                op b w1) as Hview.
  cbv zeta in Hview.
  destruct (CircuitBreaker.execute (ep_id endpoint)
              (circuitBreakerConfig endpoint) op b w1) as [[r b'] w'].
  cbn [fst snd] in Hview.
  destruct Hview as [[Hfail ->] | (w_in & Hin & Hr & Hout)].
  - destruct r as [v | thrown]; [discriminate |]. cbn [fst snd].
    eexists. split; [reflexivity |]. cbn [success data error].
    rewrite Wc. split; [lia |]. split; [discriminate | reflexivity].
  - destruct Hin as (_ & Ic & _). destruct Hout as (_ & Oc & _).
    subst op. unfold RetryHandler.execute in *.
    destruct (loop_calls (retryConfig endpoint) request rid
                (Z.to_nat (maxAttempts (retryConfig endpoint)))
                Undefined 0 w_in) as [Hb Hv].
    cbv zeta in Hb, Hv. rewrite <- Oc, Ic, Wc in Hb.
    destruct r as [v | thrown]; cbn [fst snd].
    + eexists. split; [reflexivity |]. cbn [success data error].
      split; [exact Hb |]. split; [| discriminate].
      intros _. destruct (Hv v (eq_sym Hr)) as [Hlt Htv].
      rewrite <- Oc, Ic, Wc in Hlt. rewrite <- Oc in Htv.
      split; [reflexivity |]. split; [exact Hlt |].
      exists v. split; [reflexivity | exact Htv].
    + eexists. split; [reflexivity |]. cbn [success data error].
      split; [exact Hb |]. split; [discriminate | reflexivity].
Qed.

(** X7: the attempts a Result reports are the transport invocations the call
    made, and a call never makes more than maxAttempts of them (none when
    maxAttempts is 0 or less). *)
Theorem X7_attempts_are_capped (request : IntegrationRequest)
    (b : CircuitBreaker.t) (w : World) :
  let r := IntegrationClient.makeRequest env endpoint request b w in
  exists resp,
    fst (fst r) = Ok resp
    /\ Z.of_nat (calls (snd r)) = Z.of_nat (calls w) + attempts resp
    /\ 0 <= attempts resp <= Z.max 0 (maxAttempts (retryConfig endpoint)).
Proof.
  cbv zeta.
  destruct (makeRequest_account env endpoint request b w)
    as (resp & a & ies & Hr & Ha & _ & Hc & _).
  destruct (makeRequest_outcome request b w) as (resp' & Hr' & Hb & _).
  cbv zeta in *. exists resp. split; [exact Hr |]. lia.
Qed.

(** X8: a Result with success = true carries the payload that the last
    transport invocation of the call returned, and no error, even when
    earlier attempts of the call were rejected; a Result with success = false
    carries no payload. *)
Theorem X8_success_carries_last_payload (request : IntegrationRequest)
    (b : CircuitBreaker.t) (w : World) :
  let requestId := fst (IntegrationClient.generateRequestId env w) in
  let r := IntegrationClient.makeRequest env endpoint request b w in
  exists resp,
    fst (fst r) = Ok resp
    /\ (success resp = true ->
        error resp = None
        /\ 1 <= attempts resp
        /\ exists v,
             data resp = Some v
             /\ transport env (calls (snd r) - 1) request requestId = inl v)
    /\ (success resp = false -> data resp = None).
Proof.
  cbv zeta.
  destruct (makeRequest_account env endpoint request b w)
    as (resp & a & ies & Hr & Ha & _ & Hc & _).
  destruct (makeRequest_outcome request b w)
    as (resp' & Hr' & Hb & Hok & Hko).
  cbv zeta in *. rewrite Hr in Hr'. injection Hr' as <-.
  exists resp. split; [exact Hr |]. split; [| exact Hko].
  intros Hs. destruct (Hok Hs) as (He & Hlt & v & Hd & Ht).
  split; [exact He |]. split; [lia |]. exists v. split; assumption.
Qed.

(** X9: a client whose maxAttempts is 0 or less never reaches its transport:
    on a CLOSED, enabled breaker every call returns success = false with 0
    attempts and no error, and yet counts as a failure of the breaker, which
    opens once failureThreshold such calls have been made. *)
Theorem X9_no_attempts_still_trip_the_breaker (request : IntegrationRequest)
    (b : CircuitBreaker.t) (w : World) :
  maxAttempts (retryConfig endpoint) <= 0 ->
  enabled (circuitBreakerConfig endpoint) = true ->
  CircuitBreaker.state b = CLOSED ->
  let r := IntegrationClient.makeRequest env endpoint request b w in
  let b' := snd (fst r) in
  fst (fst r)
  = Ok {| success := false; data := None; error := None; attempts := 0;
          totalTime := 0 |}
  /\ calls (snd r) = calls w
  /\ CircuitBreaker.failures b' = CircuitBreaker.failures b + 1
  /\ (failureThreshold (circuitBreakerConfig endpoint)
        <= CircuitBreaker.failures b + 1 ->
      CircuitBreaker.state b' = OPEN).
Proof.
  intros Hmax Hen Hst. cbv zeta.
  unfold IntegrationClient.makeRequest, IntegrationClient.generateRequestId.
  rewrite execute_admitted by (assumption || congruence).
  unfold RetryHandler.execute.
  replace (Z.to_nat (maxAttempts (retryConfig endpoint))) with 0%nat by lia.
  cbn [loop fst snd].
  set (w1 := set_lastError None (set_attempts 0 (count_draw w))).
  pose proof (onFailure_fields (circuitBreakerConfig endpoint) b w1)
    as (Hf & _ & _ & Hopen & _).
  pose proof (onFailure_now (circuitBreakerConfig endpoint) b w1) as Hnow.
  assert (Hcalls : calls (snd (CircuitBreaker.onFailure
                                 (circuitBreakerConfig endpoint) b w1))
                   = calls w).
  { unfold CircuitBreaker.onFailure.
    destruct (failureThreshold _ <=? _); reflexivity. }
  assert (Hatt : mr_attempts (snd (CircuitBreaker.onFailure
                                 (circuitBreakerConfig endpoint) b w1)) = 0
                 /\ mr_lastError (snd (CircuitBreaker.onFailure
                                 (circuitBreakerConfig endpoint) b w1)) = None).
  { unfold CircuitBreaker.onFailure.
    destruct (failureThreshold _ <=? _); split; reflexivity. }
  destruct Hatt as [Hatt Hlast].
  cbv zeta in *. rewrite Hnow, Hatt, Hlast.
  replace (now w1 - now (count_draw w)) with 0
    by (subst w1; cbn; lia).
  repeat split; assumption.
Qed.

End ClientFurther.

(** X9 on a client configured with maxAttempts 0 and failureThreshold 1. *)
Lemma X9_no_attempts_still_trip_the_breaker_witness :
  let config :=
    {| maxAttempts := 0; baseDelay := 1000; maxDelay := 30000;
       backoffMultiplier := 2; jitter := false |} in
  let endpoint :=
    sample_endpoint config (with_threshold 1 DEFAULT_CIRCUIT_BREAKER_CONFIG) in
  let r :=
    IntegrationClient.makeRequest (rejecting_first 0 (http_error "unused"))
      endpoint (sample_request ∅) CircuitBreaker.initial (world_at 0) in
  calls (snd r) = 0%nat /\ CircuitBreaker.state (snd (fst r)) = OPEN.
Proof.
  cbv zeta.
  destruct (X9_no_attempts_still_trip_the_breaker
              (rejecting_first 0 (http_error "unused"))
              (sample_endpoint
                 {| maxAttempts := 0; baseDelay := 1000; maxDelay := 30000;
                    backoffMultiplier := 2; jitter := false |}
                 (with_threshold 1 DEFAULT_CIRCUIT_BREAKER_CONFIG))
              (sample_request ∅) CircuitBreaker.initial (world_at 0)
              ltac:(vm_compute; discriminate) eq_refl eq_refl)
    as (_ & Hc & _ & Hopen).
  split; [exact Hc |]. apply Hopen. vm_compute. discriminate.
Defined.

(** X8 on a call whose first two attempts are rejected. *)
Lemma X8_success_carries_last_payload_witness :
  let env := rejecting_first 2 (http_error "HTTP 503: Service Unavailable") in
  let endpoint :=
    sample_endpoint (no_jitter DEFAULT_RETRY_CONFIG)
      DEFAULT_CIRCUIT_BREAKER_CONFIG in
  exists resp,
    fst (fst (IntegrationClient.makeRequest env endpoint (sample_request ∅)
                CircuitBreaker.initial (world_at 0))) = Ok resp
    /\ error resp = None /\ data resp = Some tt.
Proof.
  cbv zeta.
  destruct (X8_success_carries_last_payload
              (rejecting_first 2 (http_error "HTTP 503: Service Unavailable"))
              (sample_endpoint (no_jitter DEFAULT_RETRY_CONFIG)
                 DEFAULT_CIRCUIT_BREAKER_CONFIG)
              (sample_request ∅) CircuitBreaker.initial (world_at 0))
    as (resp & Hr & Hok & _).
  assert (Hresp := Hr). vm_compute in Hresp. injection Hresp as Hresp.
  destruct Hok as (He & _ & v & Hd & _).
  - rewrite <- Hresp. reflexivity.
  - exists resp. split; [exact Hr |]. split; [exact He |].
    rewrite Hd. destruct v. reflexivity.
Defined.

(** ** Headers and kinds *)

Section HeadersAndKinds.

Import IntegrationClient ErrorClassifier.

(** X10: redaction keeps the set of header names, and redacting a snapshot
    again changes nothing. *)
Theorem X10_redaction_keeps_names_and_is_idempotent
    (h : gmap string string) :
  dom (sanitizeHeaders h) = dom h
  /\ sanitizeHeaders (sanitizeHeaders h) = sanitizeHeaders h.
Proof.
  split.
  - apply set_eq. intros name. rewrite !elem_of_dom, sanitizeHeaders_lookup.
    destruct (h !! name); cbn; split; intros [v Hv]; eauto; discriminate.
  - apply map_eq. intros name. rewrite !sanitizeHeaders_lookup.
    destruct (h !! name) as [v |]; [| reflexivity]. cbn. f_equal.
    unfold sanitized.
    destruct (existsb (String.eqb name) IntegrationClient.sensitiveHeaders);
      [| reflexivity].
    destruct (Js.truthy_string v) eqn:Hv; cbn; [reflexivity |].
    now rewrite Hv.
Qed.

Lemma classifyMessage_kinds (msg : string) :
  classifyMessage msg <> validation_error.
Proof.
  unfold classifyMessage.
  repeat match goal with |- context [if ?c then _ else _] => destruct c end;
    discriminate.
Qed.

(** X11: validation_error comes from a status code alone: the classifier
    gives it exactly for a status from 400 to 499 other than 401, 403 and
    429, and never for an error without a response, as the concrete
    transports throw; timeout and connection_error come from the message
    alone, never with a status of 400 or more. *)
Theorem X11_kinds_by_origin (error : option JsError)
    (response : option HttpResponse) :
  (classifyError error response = validation_error <->
   exists s, status_of response = Some s
             /\ 400 <= s < 500 /\ s <> 401 /\ s <> 403 /\ s <> 429)
  /\ (classifyError error response = timeout_error
      \/ classifyError error response = connection_error ->
      forall s, status_of response = Some s -> s < 400).
Proof.
  unfold classifyError.
  destruct (status_of response) as [s |].
  - pose proof (classifyMessage_kinds (lowered_message error)) as Hmsg.
    destruct (Z.eqb_spec s 401) as [E1 | E1];
      destruct (Z.eqb_spec s 403) as [E3 | E3];
      destruct (Z.eqb_spec s 429) as [E9 | E9];
      destruct (Z.leb_spec 400 s) as [L4 | L4];
      destruct (Z.ltb_spec s 500) as [L5 | L5];
      destruct (Z.leb_spec 500 s) as [G5 | G5];
      cbn [orb andb]; try lia;
      (split; [split |]);
      try discriminate;
      try (intros (s' & Hs & Hr & H1 & H3 & H9); injection Hs as <-; lia);
      try (intros [H | H]; discriminate);
      try (intros H; destruct (Hmsg H));
      try (intros _; exists s; repeat split; assumption);
      try reflexivity;
      try (intros _ s' Hs; injection Hs as <-; lia).
  - split; [split |].
    + intros H. destruct (classifyMessage_kinds _ H).
    + intros (s & Hs & _). discriminate.
    + intros _ s Hs. discriminate.
Qed.

End HeadersAndKinds.

(** X11 on the error both transports throw for a 404 answer, which carries
    no response: it is not a validation_error. *)
Lemma X11_kinds_by_origin_witness :
  ErrorClassifier.classifyError (Some (http_error "HTTP 404: Not Found")) None
  <> validation_error.
Proof.
  intros H.
  destruct (X11_kinds_by_origin (Some (http_error "HTTP 404: Not Found")) None)
    as [[Hval _] _].
  destruct (Hval H) as (s & Hs & _). discriminate Hs.
Defined.

(** ** Alerts *)

Section Alerts.

Import RetryHandler.

Lemma alerted_app (tr1 tr2 : list Event) :
  alerted (tr1 ++ tr2) = alerted tr1 ++ alerted tr2.
Proof. unfold alerted. induction tr1 as [| ev tr1 IH]; cbn; [reflexivity |].
  now rewrite IH, app_assoc. Qed.

Lemma emits_trace (evs : list Event) :
  forall w,
    trace (emits evs w) = trace w ++ evs
    /\ mr_attempts (emits evs w) = mr_attempts w.
Proof.
  unfold emits. induction evs as [| ev evs IH]; intros w; cbn [fold_left].
  - now rewrite app_nil_r.
  - destruct (IH (emit ev w)) as [Ht Ha]. rewrite Ht, Ha.
    cbn [trace mr_attempts emit]. now rewrite <- app_assoc.
Qed.

Lemma alerted_breaker_events (evs : list Event) :
  forallb is_breaker_event evs = true -> alerted evs = [].
Proof.
  induction evs as [| ev evs IH]; [reflexivity |]. cbn [forallb].
  intros H. apply andb_prop in H as [Hev Hevs].
  change (ev :: evs) with ([ev] ++ evs). rewrite alerted_app, (IH Hevs).
  destruct ev; try discriminate; reflexivity.
Qed.

(** A call through the breaker, as a run of the operation between events of
    the breaker. *)
Lemma execute_emits {A} (endpointId : string) (config : CircuitBreakerConfig)
    (operation : M A) (b : CircuitBreaker.t) (w : World) :
  let r := CircuitBreaker.execute endpointId config operation b w in
  (is_ok (fst (fst r)) = false /\ snd r = w)
  \/ (exists pre post,
        forallb is_breaker_event pre = true
        /\ forallb is_breaker_event post = true
        /\ fst (fst r) = fst (operation (emits pre w))
        /\ snd r = emits post (snd (operation (emits pre w)))).
Proof.
  cbv zeta. unfold CircuitBreaker.execute.
  destruct (enabled config); cbn [negb].
  2:{ right. exists [], []. destruct (operation w) as [r w1] eqn:E.
      unfold emits. cbn [fold_left fst snd forallb]. rewrite E.
      repeat split. }
  assert (Hrun : forall b1 pre,
    forallb is_breaker_event pre = true ->
    let r := match operation (emits pre w) with
             | (Ok result, w2) =>
                 let '(b3, w3) := CircuitBreaker.onSuccess b1 w2 in
                 (Ok result, b3, w3)
             | (Throw error, w2) =>
                 let '(b3, w3) := CircuitBreaker.onFailure config b1 w2 in
                 (Throw error, b3, w3)
             end in
    exists pre post,
      forallb is_breaker_event pre = true
      /\ forallb is_breaker_event post = true
      /\ fst (fst r) = fst (operation (emits pre w))
      /\ snd r = emits post (snd (operation (emits pre w)))).
  { intros b1 pre Hpre. cbv zeta. exists pre.
    destruct (operation (emits pre w)) as [[v | e] w2]; cbn [fst snd].
    - unfold CircuitBreaker.onSuccess.
      destruct (CircuitBreaker.state b1);
        try (exists []; repeat split; assumption).
      destruct (3 <=? _).
      + exists [EvStateChange CLOSED]. repeat split; assumption.
      + exists []. repeat split; assumption.
    - unfold CircuitBreaker.onFailure.
      destruct (failureThreshold config <=? _).
      + eexists [EvStateChange OPEN; EvCircuitOpen _].
        repeat split; assumption.
      + exists []. repeat split; assumption. }
  destruct (CircuitBreaker.state b).
  - right. apply (Hrun b []). reflexivity.
  - destruct (now w - CircuitBreaker.lastFailureTime b <? resetTimeout config).
    + left. split; reflexivity.
    + right. apply (Hrun (CircuitBreaker.half_open b)
                      [EvStateChange HALF_OPEN]). reflexivity.
  - right. apply (Hrun b []). reflexivity.
Qed.

Lemma shouldAlert_true (kind : ErrorType) (n : Z) :
  ErrorClassifier.shouldAlert kind n = true ->
  kind = authentication_error
  \/ (kind = server_error /\ 1 <= n)
  \/ ((kind = timeout_error \/ kind = connection_error) /\ 3 <= n).
Proof.
  destruct kind; cbn; intros H; try discriminate;
    try (apply Z.leb_le in H); auto.
Qed.

Context {T : Type}.
Variable env : Env T.
Variable endpoint : IntegrationEndpoint.
Variable request : IntegrationRequest.

Lemma operation_alerts (requestId : string) (limit : Z) (w : World) :
  0 <= mr_attempts w < limit ->
  let r := IntegrationClient.operation env endpoint request requestId w in
  mr_attempts (snd r) = mr_attempts w + 1
  /\ exists new,
       alerted (trace (snd r)) = alerted (trace w) ++ new
       /\ Forall (alert_justified limit) new.
Proof.
  intros Hlim. cbv zeta.
  unfold IntegrationClient.operation, IntegrationClient.executeRequest.
  cbn [calls set_attempts].
  destruct (transport env (calls w) request requestId) as [v | e];
    cbn [fst snd].
  - split; [reflexivity |]. exists [].
    cbn [trace advance emit count_call set_attempts].
    rewrite alerted_app. split; [reflexivity | constructor].
  - set (w1 := advance _ _).
    set (ie := IntegrationClient.createIntegrationError _ _ _ _ _ _).
    assert (Hrc : retryCount ie = mr_attempts w)
      by (subst ie w1; cbn; lia).
    unfold IntegrationClient.logError.
    destruct (ErrorClassifier.shouldAlert (errorType ie) (retryCount ie))
      eqn:Halert.
    + split; [reflexivity |].
      exists [(ie, ErrorClassifier.getErrorSeverity (errorType ie))].
      cbn [trace advance emit count_call set_attempts set_lastError
           set_requestLog w1].
      rewrite !alerted_app. split; [now rewrite <- !app_assoc |].
      constructor; [| constructor].
      split; [reflexivity |]. cbn [fst]. split; [lia |].
      apply shouldAlert_true, Halert.
    + split; [reflexivity |]. exists [].
      cbn [trace advance emit count_call set_attempts set_lastError
           set_requestLog w1].
      rewrite !alerted_app. split; [now rewrite <- !app_assoc | constructor].
Qed.

Lemma loop_alerts (requestId : string) (config : RetryConfig) (fuel : nat) :
  forall (lastError : Thrown) (attempt : Z) (w : World),
    0 <= attempt ->
    mr_attempts w = attempt ->
    let r :=
      loop env config fuel
        (IntegrationClient.operation env endpoint request requestId)
        lastError attempt w in
    exists new,
      alerted (trace (snd r)) = alerted (trace w) ++ new
      /\ Forall (alert_justified (maxAttempts config)) new.
Proof.
  assert (Hstop : forall w : World,
            exists new : list (IntegrationError * Severity),
              alerted (trace w) = alerted (trace w) ++ new
              /\ Forall (alert_justified (maxAttempts config)) new).
  { intros w. exists []. rewrite app_nil_r. split; [reflexivity | constructor]. }
  induction fuel as [| fuel IH]; intros lastError attempt w H0 Hatt; cbv zeta.
  - cbn [loop snd]. apply Hstop.
  - cbn [loop].
    destruct (Z.ltb_spec attempt (maxAttempts config));
      [| cbn [snd]; apply Hstop].
    destruct (operation_alerts requestId (maxAttempts config) w ltac:(lia))
      as (Ha & new1 & Hn1 & Hj1).
    cbv zeta in Ha, Hn1.
    destruct (IntegrationClient.operation env endpoint request requestId w)
      as [[v | error] w1]; cbn [fst snd] in *.
    + exists new1. split; assumption.
    + assert (Hnext : forall w1',
        mr_attempts w1' = mr_attempts w1 ->
        alerted (trace w1') = alerted (trace w1) ->
        let r := loop env config fuel
                   (IntegrationClient.operation env endpoint request requestId)
                   error (attempt + 1) w1' in
        exists new,
          alerted (trace (snd r)) = alerted (trace w) ++ new
          /\ Forall (alert_justified (maxAttempts config)) new).
      { intros w1' Fa Ft. cbv zeta.
        destruct (IH error (attempt + 1) w1' ltac:(lia) ltac:(lia))
          as (new2 & Hn2 & Hj2).
        cbv zeta in Hn2. exists (new1 ++ new2).
        rewrite Hn2, Ft, Hn1, <- app_assoc.
        split; [reflexivity | apply Forall_app; split; assumption]. }
      destruct (shouldRetry error) as [[|] | te]; cbn [snd];
        try (exists new1; split; assumption).
      destruct (attempt + 1 <? maxAttempts config).
      * unfold calculateDelay, sleep.
        destruct (jitter config); apply Hnext;
          cbn [mr_attempts trace advance emit count_draw];
          try reflexivity;
          rewrite alerted_app; cbn; now rewrite app_nil_r.
      * apply Hnext; reflexivity.
Qed.

(** X12: every integrationAlert event that a call of makeRequest emits is
    justified within that call: it carries the severity of its error kind;
    its retry count is the number of attempts of this call that failed
    before, hence below maxAttempts; and the kind is authentication_error,
    or server_error after at least one failed attempt, or timeout or
    connection_error after at least three.  Failures of earlier calls do not
    count. *)
Theorem X12_alerts_are_justified_within_the_call (b : CircuitBreaker.t)
    (w : World) :
  let r := IntegrationClient.makeRequest env endpoint request b w in
  exists new,
    alerted (trace (snd r)) = alerted (trace w) ++ new
    /\ Forall (alert_justified (maxAttempts (retryConfig endpoint))) new.
Proof.
  cbv zeta. unfold IntegrationClient.makeRequest.
  destruct (IntegrationClient.generateRequestId env w) as [rid w0] eqn:Hgen.
  unfold IntegrationClient.generateRequestId in Hgen.
  injection Hgen as Hrid Hw0.
  set (w1 := set_lastError None (set_attempts 0 w0)).
  assert (Wt : trace w1 = trace w) by (subst w1 w0; reflexivity).
  set (op := RetryHandler.execute env (retryConfig endpoint) _).
  pose proof (execute_emits (ep_id endpoint) (circuitBreakerConfig endpoint)
                op b w1) as Hview.
  cbv zeta in Hview.
  destruct (CircuitBreaker.execute (ep_id endpoint)
              (circuitBreakerConfig endpoint) op b w1) as [[r b'] w'].
  cbn [fst snd] in Hview.
  assert (Hgoal : exists new,
            alerted (trace w') = alerted (trace w) ++ new
            /\ Forall (alert_justified (maxAttempts (retryConfig endpoint)))
                 new).
  { destruct Hview as [[_ ->] | (pre & post & Hpre & Hpost & _ & ->)].
    - exists []. rewrite Wt, app_nil_r. split; [reflexivity | constructor].
    - destruct (emits_trace pre w1) as [Tpre Apre].
      destruct (emits_trace post (snd (op (emits pre w1)))) as [Tpost _].
      subst op. unfold RetryHandler.execute in *.
      destruct (loop_alerts rid (retryConfig endpoint)
                  (Z.to_nat (maxAttempts (retryConfig endpoint)))
                  Undefined 0 (emits pre w1) ltac:(lia))
        as (new & Hn & Hj).
      { rewrite Apre. reflexivity. }
      cbv zeta in Hn. exists new.
      rewrite Tpost, alerted_app, Hn, Tpre, alerted_app, Wt.
      rewrite (alerted_breaker_events pre Hpre),
              (alerted_breaker_events post Hpost), !app_nil_r.
      split; [reflexivity | exact Hj]. }
  destruct r; cbn [snd]; exact Hgoal.
Qed.

End Alerts.

(** ** Monitoring: recent errors *)

Section RecentErrors.

Import Monitoring.

Lemma insert_recent_perm (x : IntegrationError) (l : list IntegrationError) :
  insert_recent x l ≡ₚ x :: l.
Proof.
  induction l as [| y l IH]; cbn [insert_recent]; [reflexivity |].
  destruct (occurredAt y <=? occurredAt x); [reflexivity |].
  rewrite IH. apply Permutation_swap.
Qed.

Lemma sort_recent_perm (l : list IntegrationError) : sort_recent l ≡ₚ l.
Proof.
  induction l as [| x l IH]; cbn [sort_recent fold_right]; [reflexivity |].
  fold (sort_recent l). now rewrite insert_recent_perm, IH.
Qed.

Lemma insert_recent_sorted (x : IntegrationError) (l : list IntegrationError) :
  StronglySorted no_older l -> StronglySorted no_older (insert_recent x l).
Proof.
  induction 1 as [| y l Hl IH Hy]; cbn [insert_recent].
  - repeat constructor.
  - destruct (Z.leb_spec (occurredAt y) (occurredAt x)) as [Hle | Hgt].
    + constructor; [constructor; assumption |].
      constructor; [exact Hle |].
      eapply Forall_impl; [exact Hy |]. unfold no_older. intros z Hz. lia.
    + constructor; [exact IH |].
      rewrite insert_recent_perm. constructor; [| exact Hy].
      unfold no_older. lia.
Qed.

Lemma sort_recent_sorted (l : list IntegrationError) :
  StronglySorted no_older (sort_recent l).
Proof.
  induction l as [| x l IH]; cbn [sort_recent fold_right]; [constructor |].
  apply insert_recent_sorted, IH.
Qed.

Lemma slice_to_prefix {A} (limit : Z) (l : list A) :
  exists k,
    slice_to limit l = firstn k l
    /\ Z.of_nat (length (slice_to limit l))
       = (if limit <? 0 then Z.max 0 (Z.of_nat (length l) + limit)
          else Z.min limit (Z.of_nat (length l))).
Proof.
  unfold slice_to. destruct (Z.ltb_spec limit 0).
  - eexists. split; [reflexivity |]. rewrite length_firstn. lia.
  - eexists. split; [reflexivity |]. rewrite length_firstn. lia.
Qed.

(** X13: getRecentErrors returns the most recent entries of the error log,
    most recent first: the entries it leaves out are all at least as old as
    each one it returns, and what it returns is in descending order of
    occurrence.  With a limit that is not negative it returns that many
    entries, or the whole log when the log is shorter; a negative limit drops
    that many of the oldest entries instead. *)
Theorem X13_recent_errors_are_the_most_recent (limit : Z) (c : ClientObject) :
  let recent := getRecentErrors (Some limit) c in
  let all := JsMap.values (cl_requestLog c) in
  Z.of_nat (length recent)
  = (if limit <? 0 then Z.max 0 (Z.of_nat (length all) + limit)
     else Z.min limit (Z.of_nat (length all)))
  /\ StronglySorted no_older recent
  /\ exists rest,
       recent ++ rest ≡ₚ all
       /\ forall x y, x ∈ recent -> y ∈ rest -> occurredAt y <= occurredAt x.
Proof.
  cbv zeta. set (all := JsMap.values (cl_requestLog c)).
  change (getRecentErrors (Some limit) c)
    with (slice_to limit (sort_recent all)).
  destruct (slice_to_prefix limit (sort_recent all)) as (k & Hk & Hlen).
  pose proof (sort_recent_sorted all) as Hsorted.
  rewrite <- (firstn_skipn k (sort_recent all)) in Hsorted.
  apply StronglySorted_app in Hsorted as [Hcross [Hpre _]].
  split; [| split].
  - rewrite Hlen. rewrite (Permutation_length (sort_recent_perm all)).
    reflexivity.
  - rewrite Hk. exact Hpre.
  - exists (skipn k (sort_recent all)). rewrite Hk. split.
    + rewrite firstn_skipn. apply sort_recent_perm.
    + intros x y Hx Hy. exact (Hcross x y Hx Hy).
Qed.

End RecentErrors.

(** X13 on a log of three entries, asked for two. *)
Lemma X13_recent_errors_are_the_most_recent_witness :
  let entry (rid : string) (t : Z) : string * IntegrationError :=
    (rid,
     {| ie_id := rid; endpointId := "crm"; errorType := server_error;
        errorCode := None; ie_message := "HTTP 500";
        requestData := {| rd_method := GET; rd_path := "/"; rd_headers := ∅;
                          rd_metadata := None |};
        responseData := None; retryCount := 0; occurredAt := t;
        resolved := false |}) in
  let c :=
    {| cl_endpoint :=
         sample_endpoint DEFAULT_RETRY_CONFIG DEFAULT_CIRCUIT_BREAKER_CONFIG;
       cl_kind := SalesforceClient None None;
       cl_breaker := CircuitBreaker.initial;
       cl_requestLog := [entry "a" 10; entry "b" 30; entry "c" 20] |} in
  map occurredAt (Monitoring.getRecentErrors (Some 2) c) = [30; 20]
  /\ forall x y,
       x ∈ Monitoring.getRecentErrors (Some 2) c ->
       y ∈ JsMap.values (cl_requestLog c) ->
       y ∉ Monitoring.getRecentErrors (Some 2) c ->
       occurredAt y <= occurredAt x.
Proof.
  cbv zeta. split; [reflexivity |].
  intros x y Hx Hy Hny.
  match goal with
  | H : x ∈ Monitoring.getRecentErrors (Some 2) ?c |- _ =>
      destruct (X13_recent_errors_are_the_most_recent 2 c)
        as (_ & _ & rest & Hperm & Hcross)
  end.
  apply (Hcross x y Hx).
  rewrite <- Hperm in Hy. apply elem_of_app in Hy as [Hy | Hy];
    [contradiction | exact Hy].
Defined.

(** ** The manager *)

Section ManagerProperties.

Import IntegrationManager.

Lemma get_set_eq {V} (k : string) (v : V) (m : list (string * V)) :
  JsMap.get k (JsMap.set k v m) = Some v.
Proof.
  induction m as [| [k' v'] m IH]; cbn [JsMap.set JsMap.get].
  - now rewrite String.eqb_refl.
  - destruct (String.eqb k' k) eqn:E; cbn [JsMap.get].
    + now rewrite String.eqb_refl.
    + now rewrite E.
Qed.

Lemma get_set_ne {V} (k k0 : string) (v : V) (m : list (string * V)) :
  k0 <> k -> JsMap.get k0 (JsMap.set k v m) = JsMap.get k0 m.
Proof.
  intros Hne. induction m as [| [k' v'] m IH]; cbn [JsMap.set JsMap.get].
  - destruct (String.eqb_spec k k0); [congruence | reflexivity].
  - destruct (String.eqb_spec k' k) as [-> | Hk]; cbn [JsMap.get].
    + destruct (String.eqb_spec k k0); [congruence | reflexivity].
    + destruct (String.eqb k' k0); [reflexivity | exact IH].
Qed.

Lemma keys_set {V} (k : string) (v : V) (m : list (string * V)) :
  NoDup (JsMap.keys m) ->
  NoDup (JsMap.keys (JsMap.set k v m))
  /\ forall k0, k0 ∈ JsMap.keys (JsMap.set k v m) <-> k0 = k \/ k0 ∈ JsMap.keys m.
Proof.
  unfold JsMap.keys.
  induction m as [| [k' v'] m IH]; cbn [JsMap.set map fst]; intros Hnd.
  - split; [repeat constructor; apply not_elem_of_nil |].
    intros k0. rewrite list_elem_of_singleton, elem_of_nil. tauto.
  - apply NoDup_cons in Hnd as [Hk' Hnd]. specialize (IH Hnd) as [IHn IHk].
    destruct (String.eqb_spec k' k) as [-> | Hne]; cbn [map fst].
    + split; [apply NoDup_cons; split; assumption |].
      intros k0. rewrite elem_of_cons. tauto.
    + split.
      * apply NoDup_cons. split; [| exact IHn].
        rewrite IHk. intros [-> | H]; [congruence | contradiction].
      * intros k0. rewrite !elem_of_cons, IHk. tauto.
Qed.

(** The status object built from the clients holds, for each key, the health
    of the client found under it. *)
Lemma get_Some_key {V} (k : string) (v : V) (m : list (string * V)) :
  JsMap.get k m = Some v -> k ∈ JsMap.keys m.
Proof.
  unfold JsMap.keys.
  induction m as [| [k1 v1] m IH]; cbn [JsMap.get map fst]; [discriminate |].
  destruct (String.eqb_spec k1 k) as [-> | Hne]; intros H;
    apply elem_of_cons; [now left | right; auto].
Qed.

(** The status object built from the clients holds, for each key other than
    [__proto__], the health of the client found under it. *)
Lemma health_status_lookup (entries : list (string * ClientObject))
    (endpointId : string) :
  NoDup (JsMap.keys entries) ->
  forall status : gmap string Health,
    fold_left (fun status entry =>
                 if String.eqb (fst entry) "__proto__" then status
                 else <[fst entry := health (snd entry)]> status)
              entries status !! endpointId
    = match (if String.eqb endpointId "__proto__" then None
             else JsMap.get endpointId entries) with
      | Some c => Some (health c)
      | None => status !! endpointId
      end.
Proof.
  induction entries as [| [k c] entries IH]; intros Hnd status;
    cbn [fold_left JsMap.get fst snd].
  - now destruct (String.eqb endpointId "__proto__").
  - unfold JsMap.keys in Hnd. cbn [map fst] in Hnd.
    apply NoDup_cons in Hnd as [Hk Hnd]. rewrite (IH Hnd).
    destruct (String.eqb_spec endpointId "__proto__") as [Heq | Hproto].
    + destruct (String.eqb_spec k "__proto__") as [Hk' | Hne];
        [reflexivity | apply lookup_insert_ne; congruence].
    + destruct (String.eqb_spec k endpointId) as [-> | Hne].
      * destruct (String.eqb_spec endpointId "__proto__"); [contradiction |].
        destruct (JsMap.get endpointId entries) as [c' |] eqn:Hget.
        -- exfalso. apply Hk. exact (get_Some_key _ _ _ Hget).
        -- apply lookup_insert_eq.
      * destruct (JsMap.get endpointId entries); [reflexivity |].
        destruct (String.eqb k "__proto__");
          [reflexivity | now apply lookup_insert_ne].
Qed.

(** X14: registering an endpoint and then creating its client gives, for the
    service types salesforce and companycam, a client that holds that
    endpoint, a new CLOSED breaker and an empty error log; getClient returns
    this client from then on, in place of any client the id had before, and
    the clients of other ids are untouched.  For the other service types
    createClient throws and the manager keeps no client for the call. *)
Theorem X14_register_create_get (m : t) (endpoint : IntegrationEndpoint)
    (credentials : option Credentials) :
  let m1 := registerEndpoint endpoint m in
  let r := createClient (ep_id endpoint) credentials m1 in
  match serviceType endpoint with
  | salesforce | companycam =>
      exists c,
        fst r = Ok c
        /\ cl_endpoint c = endpoint
        /\ cl_breaker c = CircuitBreaker.initial
        /\ cl_requestLog c = []
        /\ getClient (ep_id endpoint) (snd r) = Some c
        /\ forall other,
             other <> ep_id endpoint ->
             getClient other (snd r) = getClient other m
  | other =>
      fst r = Throw (newError ("Unsupported service type: "
                               ++ serviceTypeName other))
      /\ snd r = m1
  end.
Proof.
  cbv zeta. unfold createClient, registerEndpoint. cbn [endpoints clients].
  rewrite get_set_eq.
  destruct (serviceType endpoint); cbn [fst snd];
    try (split; reflexivity);
    (eexists; split; [reflexivity |];
     cbn [cl_endpoint cl_breaker cl_requestLog newClient];
     repeat (split; [reflexivity |]);
     unfold getClient; cbn [clients];
     split; [apply get_set_eq | intros other Hne; now apply get_set_ne]).
Qed.

(** What holds of the maps of every manager a history leads to. *)
Lemma run_manager_inv (ops : list ManagerOp) :
  let m := run_manager ops in
  NoDup (JsMap.keys (clients m))
  /\ (forall k ep, JsMap.get k (endpoints m) = Some ep -> ep_id ep = k)
  /\ (forall k c,
        JsMap.get k (clients m) = Some c ->
        ep_id (cl_endpoint c) = k
        /\ (serviceType (cl_endpoint c) = salesforce
            \/ serviceType (cl_endpoint c) = companycam)
        /\ is_Some (JsMap.get k (endpoints m))).
Proof.
  cbv zeta. unfold run_manager.
  assert (Hnew :
    NoDup (JsMap.keys (clients new))
    /\ (forall k ep, JsMap.get k (endpoints new) = Some ep -> ep_id ep = k)
    /\ (forall k c,
          JsMap.get k (clients new) = Some c ->
          ep_id (cl_endpoint c) = k
          /\ (serviceType (cl_endpoint c) = salesforce
              \/ serviceType (cl_endpoint c) = companycam)
          /\ is_Some (JsMap.get k (endpoints new)))).
  { cbn. split; [constructor | split; intros; discriminate]. }
  revert Hnew. generalize new.
  induction ops as [| op ops IH]; intros m Hm; cbn [fold_left]; [exact Hm |].
  apply IH. destruct Hm as (Hnd & Hep & Hcl).
  destruct op as [endpoint | endpointId credentials | endpointId breaker log];
    cbn [manager_step].
  - unfold registerEndpoint. cbn [clients endpoints].
    split; [exact Hnd |]. split.
    + intros k ep. destruct (decide (k = ep_id endpoint)) as [-> | Hne].
      * rewrite get_set_eq. congruence.
      * rewrite get_set_ne by exact Hne. apply Hep.
    + intros k c Hc. destruct (Hcl k c Hc) as (H1 & H2 & H3).
      split; [exact H1 |]. split; [exact H2 |].
      destruct (decide (k = ep_id endpoint)) as [-> | Hne].
      * rewrite get_set_eq. eauto.
      * rewrite get_set_ne by exact Hne. exact H3.
  - unfold createClient.
    destruct (JsMap.get endpointId (endpoints m)) as [ep |] eqn:Hget;
      cbn [snd]; [| split; [exact Hnd | split; assumption] ].
    assert (Hmade : forall kind,
      let m' := {| clients := JsMap.set endpointId (newClient ep kind)
                                 (clients m);
                   endpoints := endpoints m |} in
      (serviceType ep = salesforce \/ serviceType ep = companycam) ->
      NoDup (JsMap.keys (clients m'))
      /\ (forall k ep, JsMap.get k (endpoints m') = Some ep -> ep_id ep = k)
      /\ (forall k c,
            JsMap.get k (clients m') = Some c ->
            ep_id (cl_endpoint c) = k
            /\ (serviceType (cl_endpoint c) = salesforce
                \/ serviceType (cl_endpoint c) = companycam)
            /\ is_Some (JsMap.get k (endpoints m')))).
    { intros kind m' Hty. subst m'. cbn [clients endpoints].
      split; [apply keys_set, Hnd |]. split; [exact Hep |].
      intros k c. destruct (decide (k = endpointId)) as [-> | Hne].
      - rewrite get_set_eq. intros Hc. injection Hc as <-.
        cbn [cl_endpoint newClient]. split; [apply Hep, Hget |].
        split; [exact Hty |]. rewrite Hget. eauto.
      - rewrite get_set_ne by exact Hne. apply Hcl. }
    destruct (serviceType ep) eqn:Hty; cbn [snd];
      try (split; [exact Hnd | split; assumption]).
    + apply Hmade. now left.
    + apply Hmade. now right.
  - unfold getClient.
    destruct (JsMap.get endpointId (clients m)) as [client |] eqn:Hget;
      [| split; [exact Hnd | split; assumption] ].
    cbn [clients endpoints].
    split; [apply keys_set, Hnd |]. split; [exact Hep |].
    intros k c. destruct (decide (k = endpointId)) as [-> | Hne].
    + rewrite get_set_eq. intros Hc. injection Hc as <-.
      cbn [cl_endpoint]. exact (Hcl endpointId client Hget).
    + rewrite get_set_ne by exact Hne. apply Hcl.
Qed.

(** X15: in every manager that registrations, client creations and uses of
    the clients lead to, a client is kept under the id of the endpoint it was
    built from, for an id that is registered, and its service type is
    salesforce or companycam; and the object that getHealthStatus returns has
    a property for each client's id except [__proto__], and no other, which
    holds that client's breaker statistics, the number of its errors up to 5,
    the time of its most recent error if it has one, and healthy exactly when
    its breaker is CLOSED. *)
Theorem X15_manager_registry_and_health (ops : list ManagerOp)
    (endpointId : string) :
  let m := run_manager ops in
  (forall c,
     getClient endpointId m = Some c ->
     ep_id (cl_endpoint c) = endpointId
     /\ (serviceType (cl_endpoint c) = salesforce
         \/ serviceType (cl_endpoint c) = companycam)
     /\ is_Some (JsMap.get endpointId (endpoints m)))
  /\ getHealthStatus m !! endpointId
     = (if String.eqb endpointId "__proto__" then None
        else health <$> getClient endpointId m)
  /\ forall c,
       let h := health c in
       h_circuitBreaker h = Monitoring.getStats (cl_breaker c)
       /\ (h_healthy h = true <-> CircuitBreaker.state (cl_breaker c) = CLOSED)
       /\ h_recentErrors h = Nat.min 5 (length (cl_requestLog c))
       /\ (h_lastError h = None <-> cl_requestLog c = [])
       /\ forall t,
            h_lastError h = Some t ->
            (exists e, e ∈ JsMap.values (cl_requestLog c) /\ occurredAt e = t)
            /\ forall e, e ∈ JsMap.values (cl_requestLog c) ->
                         occurredAt e <= t.
Proof.
  cbv zeta. destruct (run_manager_inv ops) as (Hnd & _ & Hcl).
  split; [exact (Hcl endpointId) |]. split.
  - unfold getHealthStatus, getClient.
    rewrite (health_status_lookup _ endpointId Hnd).
    destruct (String.eqb endpointId "__proto__"); [apply lookup_empty |].
    destruct (JsMap.get endpointId (clients (run_manager ops)));
      [reflexivity | apply lookup_empty].
  - intros c. unfold health. cbn [h_circuitBreaker h_healthy h_recentErrors
      h_lastError].
    set (all := JsMap.values (cl_requestLog c)).
    assert (Hall : length all = length (cl_requestLog c))
      by (subst all; unfold JsMap.values; apply length_map).
    change (Monitoring.getRecentErrors (Some 5) c)
      with (Monitoring.slice_to 5 (Monitoring.sort_recent all)).
    change (Monitoring.slice_to 5 (Monitoring.sort_recent all))
      with (firstn 5 (Monitoring.sort_recent all)).
    pose proof (sort_recent_perm all) as Hperm.
    pose proof (sort_recent_sorted all) as Hsorted.
    pose proof (Permutation_length Hperm) as Hlen.
    split; [reflexivity |]. split.
    { unfold Monitoring.getCircuitBreakerStats, Monitoring.getStats.
      cbn [st_state]. destruct (CircuitBreaker.state (cl_breaker c));
        split; intros; congruence. }
    split; [rewrite length_firstn; lia |].
    destruct (Monitoring.sort_recent all) as [| e0 sorted] eqn:Hs.
    + cbn in Hlen. assert (cl_requestLog c = []) as Hempty
        by (destruct (cl_requestLog c); [reflexivity | cbn in *; lia]).
      split; [split; [intros _; exact Hempty | reflexivity] |].
      intros t Ht. discriminate.
    + cbn [firstn head fmap option_fmap option_map].
      split.
      * split; [discriminate |]. intros Hempty. rewrite Hempty in Hall.
        cbn in *. lia.
      * intros t Ht. injection Ht as <-.
        apply StronglySorted_inv in Hsorted as [_ Hhead].
        split.
        -- exists e0. split; [| reflexivity].
           rewrite <- Hperm. apply elem_of_cons. now left.
        -- intros e He. rewrite <- Hperm in He.
           apply elem_of_cons in He as [-> | He]; [lia |].
           rewrite Forall_forall in Hhead. exact (Hhead e He).
Qed.

End ManagerProperties.

(** X14 on a manager that holds a client for another endpoint. *)
Lemma X14_register_create_get_witness :
  let crm :=
    sample_endpoint DEFAULT_RETRY_CONFIG DEFAULT_CIRCUIT_BREAKER_CONFIG in
  let photos :=
    {| ep_id := "photos"; ep_name := "Photos"; serviceType := companycam;
       baseUrl := "https://photos.example"; ep_timeout := 30000;
       retryConfig := DEFAULT_RETRY_CONFIG;
       circuitBreakerConfig := DEFAULT_CIRCUIT_BREAKER_CONFIG |} in
  let m := run_manager [Register photos; Create "photos" None] in
  let r := IntegrationManager.createClient "crm" None
             (IntegrationManager.registerEndpoint crm m) in
  "photos" <> ep_id crm
  /\ IntegrationManager.getClient "photos" (snd r)
     = IntegrationManager.getClient "photos" m.
Proof.
  intros crm photos m r.
  assert (Hother : "photos" <> ep_id crm) by discriminate.
  split; [exact Hother |].
  pose proof (X14_register_create_get m crm None) as H.
  cbv zeta in H. change (serviceType crm) with salesforce in H.
  destruct H as (c & _ & _ & _ & _ & _ & Hrest).
  exact (Hrest "photos" Hother).
Defined.

(** X15 on a manager whose one client has tripped its breaker and logged
    two errors. *)
Lemma X15_manager_registry_and_health_witness :
  let entry (rid : string) (t : Z) : string * IntegrationError :=
    (rid,
     {| ie_id := rid; endpointId := "crm"; errorType := server_error;
        errorCode := None; ie_message := "HTTP 500";
        requestData := {| rd_method := GET; rd_path := "/"; rd_headers := ∅;
                          rd_metadata := None |};
        responseData := None; retryCount := 0; occurredAt := t;
        resolved := false |}) in
  let breaker :=
    {| CircuitBreaker.state := OPEN; CircuitBreaker.failures := 5;
       CircuitBreaker.lastFailureTime := 30;
       CircuitBreaker.successCount := 0 |} in
  let ops :=
    [Register (sample_endpoint DEFAULT_RETRY_CONFIG
                 DEFAULT_CIRCUIT_BREAKER_CONFIG);
     Create "crm" None;
     Use "crm" breaker [entry "a" 10; entry "b" 30]] in
  (exists c,
     IntegrationManager.getClient "crm" (run_manager ops) = Some c
     /\ ep_id (cl_endpoint c) = "crm"%string
     /\ h_lastError (IntegrationManager.health c) = Some 30
     /\ forall e, e ∈ JsMap.values (cl_requestLog c) -> occurredAt e <= 30)
  /\ h_healthy <$> (IntegrationManager.getHealthStatus (run_manager ops)
                    !! "crm")
     = Some false.
Proof.
  intros entry breaker ops.
  destruct (X15_manager_registry_and_health ops "crm")
    as (Hclient & Hstatus & Hhealth).
  split.
  - eexists. split; [reflexivity |].
    match goal with
    | |- ep_id (cl_endpoint ?c) = _ /\ _ =>
        destruct (Hclient c eq_refl) as (Hid & _);
        destruct (Hhealth c) as (_ & _ & _ & _ & Hlast)
    end.
    split; [exact Hid |].
    split; [reflexivity |].
    cbv zeta in Hlast. exact (proj2 (Hlast 30 eq_refl)).
  - rewrite Hstatus. reflexivity.
Defined.

(** ** The secure API client *)

Section SecureRetry.

Import SecureAPIClient.

Context {T : Type}.
Variable net : Network T.
Variable client : t.
Variable endpoint : string.
Variable options : RequestInit.

Lemma attempt_effect (w : World) :
  fst (attempt net client endpoint options w)
  = answer net client endpoint options (calls w)
  /\ calls (snd (attempt net client endpoint options w)) = S (calls w)
  /\ timeline (trace (snd (attempt net client endpoint options w)))
     = timeline (trace w) ++ [EvTransport (calls w)].
Proof.
  unfold attempt, answer.
  destruct (fetch net (calls w) (baseURL client ++ endpoint) options)
    as [thrown | response];
    [| destruct (negb (rs_ok response))];
    cbn [fst snd calls trace advance emit count_call];
    (split; [reflexivity |]); (split; [reflexivity |]);
    now rewrite timeline_app.
Qed.

Lemma pause_effect (delay : Q) (w : World) :
  calls (pause net delay w) = calls w
  /\ timeline (trace (pause net delay w))
     = timeline (trace w) ++ [EvSleep delay].
Proof.
  unfold pause. cbn [calls trace advance emit].
  split; [reflexivity |]. now rewrite timeline_app.
Qed.

(** The recursion of [makeRequest] needs no more calls than
    [retryAttempts - retryCount]. *)
Lemma makeRequest_fuel (fuel : nat) :
  forall (retryCount : Z) (w : World),
    (Z.to_nat (retryAttempts client - retryCount) <= fuel)%nat ->
    makeRequest_from net client fuel endpoint options retryCount w
    = makeRequest net client endpoint options retryCount w.
Proof.
  unfold makeRequest.
  induction fuel as [| fuel IH]; intros retryCount w Hfuel.
  - replace (Z.to_nat (retryAttempts client - retryCount)) with 0%nat by lia.
    reflexivity.
  - destruct (Z.to_nat (retryAttempts client - retryCount)) as [| k] eqn:Hk;
      cbn [makeRequest_from];
      destruct (attempt net client endpoint options w) as [[data | error] w1];
      try reflexivity;
      destruct (retried client retryCount error) eqn:Hretried;
      try reflexivity.
    + unfold retried in Hretried. apply andb_prop in Hretried as [Hlt _].
      apply Z.ltb_lt in Hlt. lia.
    + rewrite (IH (retryCount + 1)) by lia.
      replace (Z.to_nat (retryAttempts client - (retryCount + 1))) with k
        by lia.
      reflexivity.
Qed.

Lemma backoff_timeline_S (n : nat) (retryCount : Z) (k : nat) :
  backoff_timeline n retryCount (S k)
  = [EvTransport n; EvSleep (Qpower 2 retryCount * 1000)%Q]
    ++ backoff_timeline (S n) (retryCount + 1) k.
Proof.
  unfold backoff_timeline. rewrite <- cons_seq, <- seq_shift.
  cbn [flat_map]. rewrite flat_map_concat_map, map_map,
    <- flat_map_concat_map.
  rewrite Nat.add_0_r, Z.add_0_r. cbn [app]. do 2 f_equal.
  replace (n + S k)%nat with (S n + k)%nat by lia.
  f_equal. apply flat_map_ext. intros i.
  replace (n + S i)%nat with (S n + i)%nat by lia.
  replace (retryCount + Z.of_nat (S i)) with (retryCount + 1 + Z.of_nat i)
    by lia.
  reflexivity.
Qed.

Local Ltac last_attempt :=
  unfold backoff_timeline; cbn [seq flat_map app];
  rewrite ?Nat.add_0_r, ?Z.add_0_r;
  repeat (split; [first [lia | symmetry; assumption | assumption
                        | constructor] |]).

(** The shape of a request: [k] retried attempts, then a last one. *)
Lemma makeRequest_shape (fuel : nat) :
  forall (retryCount : Z) (w : World),
    fuel = Z.to_nat (retryAttempts client - retryCount) ->
    let r := makeRequest_from net client fuel endpoint options retryCount w in
    exists k : nat,
      (k <= fuel)%nat
      /\ calls (snd r) = (calls w + S k)%nat
      /\ timeline (trace (snd r))
         = timeline (trace w) ++ backoff_timeline (calls w) retryCount k
      /\ Forall (fun i =>
                   exists e,
                     answer net client endpoint options (calls w + i)
                     = Throw (ErrObj e)
                     /\ Js.includes (message e) "aborted" = false)
                (seq 0 k)
      /\ fst r = answer net client endpoint options (calls w + k)
      /\ final client (retryCount + Z.of_nat k) (fst r).
Proof.
  induction fuel as [| fuel IH]; intros retryCount w Hfuel r; subst r.
  - exists 0%nat. cbn [makeRequest_from].
    destruct (attempt_effect w) as (Hans & Hcalls & Htime).
    destruct (attempt net client endpoint options w) as [[data | error] w1];
      cbn [fst snd] in *.
    + last_attempt. exact I.
    + assert (Hno : retried client retryCount error = false).
      { unfold retried. destruct (Z.ltb_spec retryCount (retryAttempts client));
          [lia | reflexivity]. }
      rewrite Hno. cbn [fst snd]. last_attempt. exact Hno.
  - cbn [makeRequest_from].
    destruct (attempt_effect w) as (Hans & Hcalls & Htime).
    destruct (attempt net client endpoint options w) as [[data | error] w1];
      cbn [fst snd] in *.
    + exists 0%nat. last_attempt. exact I.
    + destruct (retried client retryCount error) eqn:Hretried.
      * destruct (pause_effect (Qpower 2 retryCount * 1000)%Q w1)
          as (Hpcalls & Hptime).
        destruct (IH (retryCount + 1)
                    (pause net (Qpower 2 retryCount * 1000)%Q w1)
                    ltac:(lia))
          as (k & Hk & Hc & Ht & Hall & Hlast & Hfinal).
        rewrite Hpcalls, Hcalls in Hc, Ht, Hall, Hlast.
        rewrite Hptime, Htime in Ht.
        exists (S k).
        split; [lia |]. split; [lia |].
        split; [rewrite Ht, backoff_timeline_S, <- !app_assoc; reflexivity |].
        split.
        { rewrite <- cons_seq, <- seq_shift. constructor.
          - rewrite Nat.add_0_r. unfold retried in Hretried.
            apply andb_prop in Hretried as [_ Herr].
            destruct error as [| e]; [discriminate |].
            exists e. split; [symmetry; exact Hans |].
            now apply negb_true_iff in Herr.
          - rewrite Forall_map. eapply Forall_impl; [exact Hall |].
            intros i (e & He & Hmsg). exists e.
            replace (calls w + S i)%nat with (S (calls w) + i)%nat by lia.
            now split. }
        replace (calls w + S k)%nat with (S (calls w) + k)%nat by lia.
        split; [exact Hlast |].
        replace (retryCount + Z.of_nat (S k))
          with (retryCount + 1 + Z.of_nat k) by lia.
        exact Hfinal.
      * exists 0%nat. cbn [fst snd]. last_attempt. exact Hretried.
Qed.



End SecureRetry.


(** ** The validation of a search request *)

Section SecureValidation.

Import SecureAPIClient.

Lemma append_cons (c : ascii) (a b : string) :
  (String c a ++ b)%string = String c (a ++ b)%string.
Proof. reflexivity. Qed.

Lemma append_nil_l (b : string) : (EmptyString ++ b)%string = b.
Proof. reflexivity. Qed.

Lemma literal_at_sound (lit : string) :
  forall prev s last rest,
    literal_at lit prev s = Some (last, rest) ->
    exists mid,
      s = (mid ++ rest)%string
      /\ Js.toLowerCase mid = Js.toLowerCase lit
      /\ last = last_char prev mid.
Proof.
  induction lit as [| l lit IH]; intros prev s last rest H;
    cbn [literal_at] in H.
  - injection H as <- <-. exists EmptyString. auto.
  - destruct s as [| c s']; [discriminate |].
    destruct (Ascii.eqb_spec (Js.lower_ascii c) (Js.lower_ascii l))
      as [Hc |]; [| discriminate].
    destruct (IH _ _ _ _ H) as (mid & -> & Hlow & ->).
    exists (String c mid). rewrite append_cons.
    cbn [Js.toLowerCase last_char]. rewrite Hc, Hlow. auto.
Qed.

Lemma literal_at_complete (lit : string) :
  forall mid prev rest,
    Js.toLowerCase mid = Js.toLowerCase lit ->
    literal_at lit prev (mid ++ rest) = Some (last_char prev mid, rest).
Proof.
  induction lit as [| l lit IH]; intros [| c mid] prev rest H;
    cbn [Js.toLowerCase] in H; try discriminate.
  - reflexivity.
  - injection H as Hc Hlow. rewrite append_cons.
    cbn [literal_at last_char].
    rewrite Hc, Ascii.eqb_refl. now apply IH.
Qed.

Lemma test_from_spec (pattern : list Alternative) (s : string) :
  forall prev,
    test_from pattern prev s = true
    <-> exists pre s',
          s = (pre ++ s')%string
          /\ existsb (alternative_at (last_char prev pre) s') pattern = true.
Proof.
  induction s as [| c s IH]; intros prev; cbn [test_from].
  - rewrite orb_false_r. split.
    + intros H. exists EmptyString, EmptyString. auto.
    + intros (pre & s' & Heq & H).
      destruct pre; [| rewrite append_cons in Heq; discriminate].
      rewrite append_nil_l in Heq. subst s'. exact H.
  - rewrite orb_true_iff, IH. split.
    + intros [H | (pre & s' & -> & H)].
      * exists EmptyString, (String c s). auto.
      * exists (String c pre), s'. auto.
    + intros (pre & s' & Heq & H).
      destruct pre as [| c' pre]; cbn [last_char] in H.
      * rewrite append_nil_l in Heq. subst s'. now left.
      * rewrite append_cons in Heq. injection Heq as -> ->.
        right. exists pre, s'. auto.
Qed.

Lemma is_word_char_lower (c : ascii) :
  is_word_char (Js.lower_ascii c) = is_word_char c.
Proof. destruct c as [[] [] [] [] [] [] [] []]; reflexivity. Qed.

Lemma word_chars_lower (s : string) :
  word_chars (Js.toLowerCase s) = word_chars s.
Proof.
  induction s as [| c s IH]; cbn [Js.toLowerCase word_chars];
    [reflexivity |].
  now rewrite is_word_char_lower, IH.
Qed.

Lemma word_last (mid : string) :
  forall prev,
    word_chars mid = true ->
    is_word (last_char prev mid)
    = match mid with EmptyString => is_word prev | _ => true end.
Proof.
  induction mid as [| c mid IH]; intros prev H; cbn [last_char];
    [reflexivity |].
  cbn [word_chars] in H. apply andb_prop in H as [Hc Hmid].
  rewrite (IH _ Hmid). destruct mid; [exact Hc | reflexivity].
Qed.

Lemma word_alternative (word : string) (prev : option ascii) (s : string) :
  word <> EmptyString ->
  word_chars word = true ->
  Js.toLowerCase word = word ->
  alternative_at prev s (Word word) = true
  <-> exists mid rest,
        s = (mid ++ rest)%string
        /\ Js.toLowerCase mid = word
        /\ is_word prev = false
        /\ is_word (first rest) = false.
Proof.
  intros Hne Hword Hlow. cbn [alternative_at].
  assert (Hmid : forall mid rest,
             Js.toLowerCase mid = word ->
             is_word (first (mid ++ rest)) = true
             /\ is_word (last_char prev mid) = true).
  { intros mid rest Hm.
    assert (Hw : word_chars mid = true)
      by (rewrite <- word_chars_lower, Hm; exact Hword).
    rewrite (word_last _ prev Hw).
    destruct mid as [| c mid]; [cbn in Hm; congruence |].
    rewrite append_cons. cbn [first is_word word_chars] in *.
    apply andb_prop in Hw as [Hc _]. auto. }
  split.
  - intros H. apply andb_prop in H as [Hbefore Hafter].
    destruct (literal_at word prev s) as [[last rest] |] eqn:Hlit;
      [| discriminate].
    apply literal_at_sound in Hlit as (mid & -> & Hm & ->).
    rewrite Hlow in Hm. destruct (Hmid mid rest Hm) as [Hfirst Hlast].
    unfold boundary in Hbefore, Hafter. rewrite Hfirst in Hbefore.
    rewrite Hlast in Hafter.
    exists mid, rest. split; [reflexivity |]. split; [exact Hm |].
    split; [now destruct (is_word prev)
           | now destruct (is_word (first rest))].
  - intros (mid & rest & -> & Hm & Hprev & Hrest).
    destruct (Hmid mid rest Hm) as [Hfirst Hlast].
    rewrite literal_at_complete by (now rewrite Hlow).
    unfold boundary. now rewrite Hfirst, Hlast, Hprev, Hrest.
Qed.

Lemma lit_alternative (lit : string) (prev : option ascii) (s : string) :
  (forall mid, Js.toLowerCase mid = Js.toLowerCase lit -> mid = lit) ->
  alternative_at prev s (Lit lit) = true
  <-> exists rest, s = (lit ++ rest)%string.
Proof.
  intros Hexact. cbn [alternative_at]. rewrite bool_decide_eq_true. split.
  - intros [[last rest] Hlit].
    apply literal_at_sound in Hlit as (mid & -> & Hm & _).
    exists rest. now rewrite (Hexact mid Hm).
  - intros (rest & ->). rewrite literal_at_complete by reflexivity. eauto.
Qed.

Lemma quote_exact (mid : string) :
  Js.toLowerCase mid = Js.toLowerCase "'" -> mid = "'"%string.
Proof.
  destruct mid as [| c [| c' mid]]; cbn [Js.toLowerCase]; try discriminate.
  intros H. injection H as H. f_equal.
  destruct c as [[] [] [] [] [] [] [] []]; try reflexivity; discriminate.
Qed.

Lemma dashes_exact (mid : string) :
  Js.toLowerCase mid = Js.toLowerCase "--" -> mid = "--"%string.
Proof.
  destruct mid as [| c [| c' [| c'' mid]]]; cbn [Js.toLowerCase];
    try discriminate.
  intros H. injection H as H H'. f_equal; [| f_equal].
  - destruct c as [[] [] [] [] [] [] [] []]; try reflexivity; discriminate.
  - destruct c' as [[] [] [] [] [] [] [] []]; try reflexivity; discriminate.
Qed.

Lemma keywords_are_words :
  Forall (fun word => word <> EmptyString
                      /\ word_chars word = true
                      /\ Js.toLowerCase word = word) sql_keywords.
Proof.
  unfold sql_keywords.
  repeat (constructor; [split; [discriminate | split; reflexivity] |]).
  constructor.
Qed.

Lemma string_app_assoc (a b c : string) :
  ((a ++ b) ++ c)%string = (a ++ b ++ c)%string.
Proof.
  induction a as [| x a IH]; [reflexivity |].
  rewrite !append_cons. congruence.
Qed.

(** What the pattern finds: a quote, a double dash, or one of the keywords
    as a whole word. *)
Lemma sqlInjectionPattern_spec (q : string) :
  test sqlInjectionPattern q = true
  <-> substring "'" q \/ substring "--" q
      \/ Exists (fun word => whole_word word q) sql_keywords.
Proof.
  unfold test. rewrite test_from_spec.
  change sqlInjectionPattern
    with ([Lit "'"; Lit "--"] ++ map Word sql_keywords).
  pose proof keywords_are_words as Hwords.
  rewrite List.Forall_forall in Hwords.
  split.
  - intros (pre & s' & -> & H).
    rewrite existsb_app, orb_true_iff in H. destruct H as [H | H].
    + cbn [existsb] in H. rewrite orb_false_r, orb_true_iff in H.
      destruct H as [H | H].
      * apply (lit_alternative _ _ _ quote_exact) in H as (rest & ->).
        left. now exists pre, rest.
      * apply (lit_alternative _ _ _ dashes_exact) in H as (rest & ->).
        right. left. now exists pre, rest.
    + right. right. apply existsb_exists in H as (a & Hin & Ha).
      apply in_map_iff in Hin as (word & <- & Hin).
      destruct (Hwords word Hin) as (Hne & Hw & Hlow).
      apply (word_alternative _ _ _ Hne Hw Hlow) in Ha
        as (mid & rest & -> & Hm & Hprev & Hrest).
      apply List.Exists_exists. exists word. split; [exact Hin |].
      exists pre, mid, rest. auto.
  - intros [(pre & post & ->) | [(pre & post & ->) | H]].
    + exists pre, ("'" ++ post)%string. split; [reflexivity |].
      rewrite existsb_app, orb_true_iff. left.
      cbn [existsb]. rewrite orb_true_iff. left.
      apply (lit_alternative _ _ _ quote_exact). eauto.
    + exists pre, ("--" ++ post)%string. split; [reflexivity |].
      rewrite existsb_app, orb_true_iff. left.
      cbn [existsb]. rewrite orb_false_r, orb_true_iff. right.
      apply (lit_alternative _ _ _ dashes_exact). eauto.
    + apply List.Exists_exists in H
        as (word & Hin & pre & mid & post & -> & Hm & Hprev & Hpost).
      destruct (Hwords word Hin) as (Hne & Hw & Hlow).
      exists pre, (mid ++ post)%string. split; [reflexivity |].
      rewrite existsb_app, orb_true_iff. right.
      apply existsb_exists. exists (Word word).
      split; [apply in_map, Hin |].
      apply (word_alternative _ _ _ Hne Hw Hlow). exists mid, post. auto.
Qed.

Lemma no_errors {A} (c1 c2 c3 c4 c5 c6 c7 : bool) (e1 e2 e3 e4 e5 e6 e7 : A) :
  Nat.eqb (length ((if c1 then [e1] else [])
                   ++ (if c2 then [e2] else [])
                   ++ (if c3 then [e3] else [])
                   ++ (if c4 then [e4] else [])
                   ++ (if c5 then [e5] else [])
                   ++ (if c6 then [e6] else [])
                   ++ (if c7 then [e7] else []))) 0 = true
  <-> c1 = false /\ c2 = false /\ c3 = false /\ c4 = false /\ c5 = false
      /\ c6 = false /\ c7 = false.
Proof.
  destruct c1, c2, c3, c4, c5, c6, c7; cbn; intuition congruence.
Qed.

Lemma Exists_if {A} (P : A -> Prop) (c : bool) (e : A) :
  Exists P (if c then [e] else []) <-> c = true /\ P e.
Proof.
  destruct c; split.
  - intros H. apply Exists_cons in H as [H | H]; [auto |].
    now apply Exists_nil in H.
  - intros [_ H]. now constructor.
  - intros H. now apply Exists_nil in H.
  - intros [H _]. discriminate.
Qed.

Lemma query_given (q : string) :
  negb (Js.truthy_string q) || Nat.eqb (String.length (trim q)) 0 = false
  <-> trim q <> EmptyString.
Proof.
  rewrite orb_false_iff, negb_false_iff. split.
  - intros [_ H] Hq. now rewrite Hq in H.
  - intros H. split.
    + destruct q; [now elim H | reflexivity].
    + destruct (trim q); [now elim H | reflexivity].
Qed.

Lemma query_short (q : string) :
  Js.truthy_string q && Nat.ltb 255 (String.length q) = false
  <-> (String.length q <= 255)%nat.
Proof.
  rewrite andb_false_iff, Nat.ltb_ge. split.
  - intros [H | H]; [| exact H]. destruct q; [cbn; lia | discriminate].
  - auto.
Qed.

Lemma entity_known (e : string) :
  negb (existsb (String.eqb e) validEntityTypes) = false
  <-> e ∈ validEntityTypes.
Proof.
  rewrite negb_false_iff, existsb_exists, list_elem_of_In. split.
  - intros (x & Hin & Heq). apply String.eqb_eq in Heq. now subst x.
  - intros Hin. exists e. split; [exact Hin | apply String.eqb_refl].
Qed.

Lemma fields_given (l : list string) :
  Nat.eqb (length l) 0 = false <-> l <> [].
Proof. destruct l; cbn; split; congruence. Qed.

Lemma limit_in_range (limit : option Z) :
  match limit with
  | Some l => Js.truthy_number l && ((l <? 1) || (200 <? l))
  | None => false
  end = false
  <-> match limit with
      | Some l => l = 0 \/ 1 <= l <= 200
      | None => True
      end.
Proof.
  destruct limit as [l |]; [| tauto]. unfold Js.truthy_number.
  destruct (Z.eqb_spec l 0), (Z.ltb_spec l 1), (Z.ltb_spec 200 l); cbn;
    split; intros; try discriminate; try reflexivity; lia.
Qed.

Lemma query_safe (q : string) :
  test sqlInjectionPattern q = false
  <-> ~ substring "'" q /\ ~ substring "--" q
      /\ Forall (fun word => ~ whole_word word q) sql_keywords.
Proof.
  rewrite Forall_Exists_neg, <- not_true_iff_false, sqlInjectionPattern_spec.
  tauto.
Qed.

(** The validation finds no error in the acceptable requests and no other. *)
Lemma valid_acceptable (request : SecureSalesforceSearchRequest) :
  valid (validateSalesforceSearchRequest request) = true
  <-> acceptable request.
Proof.
  unfold validateSalesforceSearchRequest, acceptable. cbv zeta. cbn [valid].
  rewrite no_errors, query_given, query_short, entity_known, !fields_given,
    limit_in_range, query_safe.
  tauto.
Qed.

(** X18: the validation of a search request finds no error exactly when the
    query is not blank and no longer than 255, the entity type is one of the
    four, there are search fields and return fields, the limit is absent, 0
    or from 1 to 200, and the query holds no quote, no double dash and none
    of the eight keywords as a whole word in any letter case; it reports a
    SECURITY_VIOLATION exactly when the query holds one of these. *)
Theorem X18_validation_accepts (request : SecureSalesforceSearchRequest) :
  (valid (validateSalesforceSearchRequest request) = true
   <-> acceptable request)
  /\ (Exists (fun e => ve_code e = "SECURITY_VIOLATION"%string)
             (errors (validateSalesforceSearchRequest request))
      <-> substring "'" (query request) \/ substring "--" (query request)
          \/ Exists (fun word => whole_word word (query request))
                    sql_keywords).
Proof.
  split; [apply valid_acceptable |].
  rewrite <- sqlInjectionPattern_spec.
  unfold validateSalesforceSearchRequest. cbv zeta. cbn [errors].
  rewrite !Exists_app, !Exists_if. cbn [ve_code].
  intuition discriminate.
Qed.

End SecureValidation.

(** X18 on a request for the contacts named Anderson. *)
Lemma X18_validation_accepts_witness :
  acceptable
    {| SecureAPIClient.query := "Anderson";
       SecureAPIClient.entityType := "Contact";
       SecureAPIClient.searchFields := ["LastName"];
       SecureAPIClient.returnFields := ["Id"; "Name"];
       SecureAPIClient.limit := Some 25 |}
  /\ ~ acceptable
       {| SecureAPIClient.query := "x' OR 1=1 --";
          SecureAPIClient.entityType := "Contact";
          SecureAPIClient.searchFields := ["LastName"];
          SecureAPIClient.returnFields := ["Id"];
          SecureAPIClient.limit := None |}.
Proof.
  split.
  - apply X18_validation_accepts. reflexivity.
  - intros H. apply X18_validation_accepts in H. discriminate H.
Defined.

Section SecureSearch.

Import SecureAPIClient.

Context {T : Type}.
Variable net : Network T.
Variable client : t.

(** X19: searchSalesforce validates before it fetches.  For a request that
    is not acceptable it throws [Validation failed: ] with the messages of
    the errors and makes no fetch; and when it returns a value, the request
    was acceptable and the value is the data of the body of its last fetch,
    whose [success] was true. *)
Theorem X19_search_validates_first (request : SecureSalesforceSearchRequest)
    (w : World) :
  let r := searchSalesforce net client request w in
  let options := {| ri_method := Some "POST"%string;
                    ri_body := Some (stringify net request) |} in
  (acceptable request
   \/ (r = (Throw (newError
                     ("Validation failed: "
                      ++ join ", "
                           (map ve_message
                                (errors (validateSalesforceSearchRequest
                                           request))))), w)
       /\ errors (validateSalesforceSearchRequest request) <> []))
  /\ (calls (snd r) <> calls w -> acceptable request)
  /\ forall d,
       fst r = Ok d ->
       acceptable request
       /\ exists response,
            answer net client "/v1/salesforce/search" options
              (calls (snd r) - 1)
            = Ok response
            /\ api_success response = true
            /\ api_data response = d.
Proof.
  cbv zeta. unfold searchSalesforce.
  pose proof (valid_acceptable request) as Hvalid.
  destruct (valid (validateSalesforceSearchRequest request)) eqn:Hv;
    cbn [negb].
  - assert (Hok : acceptable request) by (now apply Hvalid).
    split; [now left |]. split; [intros _; exact Hok |].
    intros d Hd. split; [exact Hok |].
    unfold makeRequest in *.
    destruct (makeRequest_shape net client "/v1/salesforce/search"
                {| ri_method := Some "POST"%string;
                   ri_body := Some (stringify net request) |}
                _ 0 w eq_refl)
      as (k & _ & Hcalls & _ & _ & Hlast & _).
    destruct (makeRequest_from net client
                (Z.to_nat (retryAttempts client - 0))
                "/v1/salesforce/search"
                {| ri_method := Some "POST"%string;
                   ri_body := Some (stringify net request) |} 0 w)
      as [[response | thrown] w1]; cbn [fst snd] in *; [| discriminate].
    destruct (api_success response) eqn:Hs; cbn [negb fst snd] in *;
      [| discriminate].
    injection Hd as <-. exists response.
    replace (calls w1 - 1)%nat with (calls w + k)%nat by lia.
    auto.
  - split.
    + right. split; [reflexivity |].
      unfold validateSalesforceSearchRequest in *. cbv zeta in *.
      cbn [valid errors] in *.
      intros Hnil. rewrite Hnil in Hv. discriminate.
    + cbn [fst snd]. split; [congruence | intros d Hd; discriminate].
Qed.

End SecureSearch.

(** X19 on an acceptable request that the server answers at once. *)
Lemma X19_search_validates_first_witness :
  let net : SecureAPIClient.Network string :=
    {| SecureAPIClient.fetch := fun _ _ _ =>
         inr {| SecureAPIClient.rs_ok := true;
                SecureAPIClient.rs_status := 200;
                SecureAPIClient.rs_statusText := "OK";
                SecureAPIClient.rs_json :=
                  Ok {| SecureAPIClient.api_success := true;
                        SecureAPIClient.api_data := Some "records"%string;
                        SecureAPIClient.api_error := None |} |};
       SecureAPIClient.fetch_latency := fun _ => 20;
       SecureAPIClient.timer := fun ms => Qfloor ms;
       SecureAPIClient.stringify := fun _ => "{}" |} in
  let request :=
    {| SecureAPIClient.query := "Anderson";
       SecureAPIClient.entityType := "Contact";
       SecureAPIClient.searchFields := ["LastName"];
       SecureAPIClient.returnFields := ["Id"; "Name"];
       SecureAPIClient.limit := Some 25 |} in
  fst (SecureAPIClient.searchSalesforce net (SecureAPIClient.new None)
         request (world_at 0)) = Ok (Some "records"%string)
  /\ acceptable request.
Proof.
  intros net request.
  assert (H : fst (SecureAPIClient.searchSalesforce net
                     (SecureAPIClient.new None) request (world_at 0))
              = Ok (Some "records"%string)) by reflexivity.
  split; [exact H |].
  destruct (X19_search_validates_first net (SecureAPIClient.new None)
              request (world_at 0)) as (_ & _ & Hvalue).
  exact (proj1 (Hvalue _ H)).
Defined.
